(** * YASF scene parser: validation utilities, light and primitive
      factories, material loading and the node-graph builder

    A shallow embedding of the JavaScript sources
    ([MyValidationUtils], [applyTransformations], [createLight],
    [createPrimitive], [MyMaterials], [MyContents.materialsRendering],
    [GraphParser]) together with the properties stated about them.

    JavaScript numbers are IEEE-754 binary64 values; they are modelled
    by Rocq's primitive floats, so that [NaN], the two zeros and the
    infinities behave as they do in the source. *)

From Stdlib Require Import Floats ZArith String Ascii List Bool Lia Sorted.
From stdpp Require Import base option list strings gmap pretty relations.

Set Warnings "-register-all,-inexact-float".

Local Open Scope string_scope.
Local Open Scope bool_scope.

(** ** JavaScript values *)

(** A value found at a scalar position of the scene document, or
    [undefined] for a property that is absent.  Arrays are not
    modelled at scalar positions. *)
Inductive jsval : Type :=
| JUndefined
| JNull
| JBool (b : bool)
| JNum (n : float)
| JStr (s : string)
| JObj (fields : list (string * jsval)).

(** A plain object: its own enumerable properties in enumeration order. *)
Definition jsobject : Type := list (string * jsval).

(** [o.k] on an object: the value of property [k], or [undefined]. *)
Fixpoint prop (o : jsobject) (k : string) : jsval :=
  match o with
  | [] => JUndefined
  | (k', v) :: rest => if String.eqb k k' then v else prop rest k
  end.

(** [v?.k]: the optional-chained read.  On [undefined] and [null] it is
    [undefined]; the primitive values read here have no such property. *)
Definition optProp (v : jsval) (k : string) : jsval :=
  match v with
  | JObj fields => prop fields k
  | _ => JUndefined
  end.

Inductive jstype : Type :=
| TUndefined | TObject | TBoolean | TNumber | TString.

(** [typeof v]; note [typeof null === "object"]. *)
Definition typeof (v : jsval) : jstype :=
  match v with
  | JUndefined => TUndefined
  | JNull => TObject
  | JBool _ => TBoolean
  | JNum _ => TNumber
  | JStr _ => TString
  | JObj _ => TObject
  end.

(** Truthiness of a number: everything but [0], [-0] and [NaN]. *)
Definition numTruthy (n : float) : bool :=
  negb (PrimFloat.is_nan n) && negb (PrimFloat.eqb n 0).

(** ToBoolean. *)
Definition truthy (v : jsval) : bool :=
  match v with
  | JUndefined | JNull => false
  | JBool b => b
  | JNum n => numTruthy n
  | JStr s => negb (String.eqb s "")
  | JObj _ => true
  end.

(** [a ?? b] *)
Definition nullish (a b : jsval) : jsval :=
  match a with
  | JUndefined | JNull => b
  | _ => a
  end.

(** [a || b] on values. *)
Definition orElse (a b : jsval) : jsval := if truthy a then a else b.

(** [a || b] on numbers, as in [x / y || 1]. *)
Definition numOr (a b : float) : float := if numTruthy a then a else b.

(** *** Numbers *)

Definition isNaN (n : float) : bool := PrimFloat.is_nan n.

(** [Math.min] and [Math.max] of two numbers: [NaN] if either argument
    is [NaN], and [-0] counts as smaller than [+0]. *)
Definition Math_min (a b : float) : float :=
  if isNaN a || isNaN b then PrimFloat.nan
  else if PrimFloat.ltb a b then a
  else if PrimFloat.ltb b a then b
  else if PrimFloat.get_sign a then a else b.

Definition Math_max (a b : float) : float :=
  if isNaN a || isNaN b then PrimFloat.nan
  else if PrimFloat.ltb b a then a
  else if PrimFloat.ltb a b then b
  else if PrimFloat.get_sign a then b else a.

Definition Math_abs (a : float) : float := PrimFloat.abs a.

Definition Math_PI : float := 0x1.921fb54442d18p+1%float.

(** [THREE.MathUtils.degToRad]: multiplication by [Math.PI / 180]. *)
Definition degToRad (degrees : float) : float :=
  PrimFloat.mul degrees (PrimFloat.div Math_PI 180).

(** [Number.isInteger] on a number. *)
Definition Number_isInteger (n : float) : bool :=
  match Prim2SF n with
  | S754_zero _ => true
  | S754_finite _ m e =>
      (0 <=? e)%Z || (Z.pos m mod 2 ^ (- e) =? 0)%Z
  | _ => false
  end.

(** *** Strings *)

Definition lowerAscii (c : ascii) : ascii :=
  let n := nat_of_ascii c in
  if (65 <=? n)%nat && (n <=? 90)%nat then ascii_of_nat (n + 32) else c.

(** [s.toLowerCase()].  Strings are byte strings here; the only use in
    the source is a comparison with ["true"] and ["1"], for which the
    lower-casing of the ASCII letters is what matters. *)
Fixpoint toLowerCase (s : string) : string :=
  match s with
  | EmptyString => EmptyString
  | String c rest => String (lowerAscii c) (toLowerCase rest)
  end.

(** [arr.includes(s)] on an array of strings. *)
Definition includes (arr : list string) (s : string) : bool :=
  existsb (String.eqb s) arr.

(** [v === "s"] for a string literal. *)
Definition strictEq (v : jsval) (s : string) : bool :=
  match v with
  | JStr s' => String.eqb s' s
  | _ => false
  end.

(** *** Tables

    The tables of the program ([cameras], [textures], [materials],
    [graphData]) are plain objects, modelled as finite maps of their
    own properties.  A read [table[name]] also finds the names that
    every plain object inherits from [Object.prototype]: under them it
    yields a function, or the prototype itself, although the table
    holds no such entry, and a write to "__proto__" adds no entry. *)
Definition inheritedNames : list string :=
  ["__proto__"; "constructor"; "hasOwnProperty"; "isPrototypeOf";
   "propertyIsEnumerable"; "toLocaleString"; "toString"; "valueOf";
   "__defineGetter__"; "__defineSetter__"; "__lookupGetter__";
   "__lookupSetter__"].

(** [table[key]] as a condition, for a table with the own keys
    [keys] whose entries are objects: it holds for an entry of the
    table and for a name that the table inherits. *)
Definition tableHas (textures : gset string) (textureId : string) : bool :=
  bool_decide (textureId ∈ textures) || includes inheritedNames textureId.

(** The part of the host that is not in the repository: how the
    JavaScript engine reads a number off the front of a string, how it
    prints a number, and the identifiers three.js hands out to the
    materials it constructs (the [n]-th one since start-up). *)
Class Host : Type := {
  (** [parseFloat] applied to a string *)
  parseFloatString : string -> float;
  (** [String(n)] for a number [n] *)
  numberToString : float -> string;
  (** [THREE.MathUtils.generateUUID()], by order of call *)
  generateUUID : nat -> string
}.

Section Validation.
Context `{Host}.

(** [parseFloat(v)]: the argument is first converted to a string.  A
    number converts to a string that reads back as the same number,
    except that [-0] prints as ["0"]; [undefined], [null], booleans and
    plain objects print as text that does not start with a number. *)
Definition parseFloat (v : jsval) : float :=
  match v with
  | JNum n => if isNaN n then PrimFloat.nan
              else if PrimFloat.eqb n 0 then 0%float else n
  | JStr s => parseFloatString s
  | _ => PrimFloat.nan
  end.

(** ** MyValidationUtils *)

Definition toValidFloat (value : jsval) (defaultValue : float) : float :=
  let num := parseFloat value in
  if isNaN num then defaultValue else num.

Definition validateAngle (value : jsval)
    (minimumAngle maximumAngle defaultValue : float) : float :=
  let angle := toValidFloat value defaultValue in
  if PrimFloat.leb angle minimumAngle || PrimFloat.leb maximumAngle angle
  then defaultValue else angle.

Definition validateRadianAngle (value : jsval) (defaultValue : float) : float :=
  let angleInDegrees := toValidFloat value defaultValue in
  let angleInRadians := degToRad angleInDegrees in
  Math_max (PrimFloat.mul (PrimFloat.opp Math_PI) 2)
           (Math_min angleInRadians (PrimFloat.mul Math_PI 2)).

Definition validateNear (value : jsval) (defaultValue : float) : float :=
  let near := toValidFloat value defaultValue in
  if PrimFloat.leb 0 near then near else defaultValue.

Definition validateFar (value : jsval) (near defaultValue : float) : float :=
  let far := toValidFloat value defaultValue in
  if PrimFloat.ltb near far then far else defaultValue.

Definition validateLeftRight (left right defaultLeft defaultRight : float)
  : float * float :=
  if PrimFloat.eqb left 0 || PrimFloat.eqb right 0 then
    (defaultLeft, defaultRight)
  else if (PrimFloat.ltb left 0 && PrimFloat.leb right 0)
          || (PrimFloat.ltb 0 left && PrimFloat.leb 0 right) then
    (PrimFloat.opp (Math_abs left), Math_abs right)
  else (left, right).

Definition validateBottomTop (bottom top defaultBottom defaultTop : float)
  : float * float :=
  if PrimFloat.eqb bottom 0 || PrimFloat.eqb top 0 then
    (defaultBottom, defaultTop)
  else if (PrimFloat.ltb bottom 0 && PrimFloat.leb top 0)
          || (PrimFloat.ltb 0 bottom && PrimFloat.leb 0 top) then
    (PrimFloat.opp (Math_abs bottom), Math_abs top)
  else (bottom, top).

Definition validateDistance (value : jsval) (defaultValue : float) : float :=
  let distance := toValidFloat value defaultValue in
  if PrimFloat.ltb distance 0 then defaultValue else distance.

Definition validateIntensity (value : jsval) (defaultValue : float) : float :=
  let intensity := toValidFloat value defaultValue in
  if PrimFloat.ltb intensity 0 then defaultValue else intensity.

Definition validateDecay (value : jsval) (defaultValue : float) : float :=
  let decay := toValidFloat value defaultValue in
  if PrimFloat.ltb decay 0 || PrimFloat.ltb 2 decay
  then defaultValue else decay.

Definition validatePenumbra (value : jsval) (defaultValue : float) : float :=
  let penumbra := toValidFloat value defaultValue in
  if PrimFloat.ltb penumbra 0 || PrimFloat.ltb 1 penumbra
  then defaultValue else penumbra.

Definition parseBoolean (value : jsval) (defaultValue : bool) : bool :=
  match value with
  | JBool b => b
  | JStr s => includes ["true"; "1"] (toLowerCase s)
  | JNum n => negb (PrimFloat.eqb n 0)
  | _ => defaultValue
  end.

Definition toValidOpacity (value : jsval) (defaultValue : float) : float :=
  let num := parseFloat value in
  if isNaN num then defaultValue else Math_max 0 (Math_min num 1).

Definition validateShadowProperty (value : jsval) (defaultValue : float)
  : float :=
  let shadowValue := toValidFloat value defaultValue in
  shadowValue.

(** The result is the value itself when it is a positive integer
    number, and the default otherwise. *)
Definition validateShadowMapSize (value : jsval) (defaultValue : float)
  : float :=
  match value with
  | JNum n =>
      if negb (Number_isInteger n) || PrimFloat.leb n 0
      then defaultValue else n
  | _ => defaultValue
  end.

(** [THREE.Color] with its three channels. *)
Record Color : Type := mkColor { c_r : float; c_g : float; c_b : float }.

Definition parseColor (color : jsval) : Color :=
  let chan k :=
    Math_max 0 (Math_min 1
      (PrimFloat.div (parseFloat (nullish (optProp color k) (JNum 0))) 255)) in
  mkColor (chan "r") (chan "g") (chan "b").

End Validation.

(** A host whose string reader finds no number in any string, and
    whose n-th uuid is [uuid-] followed by n strokes; used where a
    concrete host is needed and the inputs are numbers. *)
Fixpoint tally (n : nat) : string :=
  match n with
  | O => ""
  | S k => String "i" (tally k)
  end.

Definition sampleHost : Host :=
  {| parseFloatString := fun _ => PrimFloat.nan;
     numberToString := fun _ => "NaN";
     generateUUID := fun n => "uuid-" ++ tally n |}.

(** [String(v)], as used for property keys and template strings. *)
Definition ToString `{Host} (v : jsval) : string :=
  match v with
  | JUndefined => "undefined"
  | JNull => "null"
  | JBool true => "true"
  | JBool false => "false"
  | JNum n => numberToString n
  | JStr s => s
  | JObj _ => "[object Object]"
  end.

(** [console.warn] / [console.info] output: the fixed text of the
    message and the values interpolated into it. *)
Inductive logEntry : Type :=
| Warn (text : string) (args : list jsval).

(** ** applyTransformations *)

Record Vector3 : Type := mkVector3 { v_x : float; v_y : float; v_z : float }.

(** The transform-related state of a [THREE.Object3D]: [position],
    [rotation] (Euler angles, radians) and [scale]. *)
Record Object3DState : Type := mkObject3DState {
  o_position : Vector3;
  o_rotation : Vector3;
  o_scale : Vector3
}.

(** The state of a freshly constructed object. *)
Definition newObject3DState : Object3DState :=
  mkObject3DState (mkVector3 0 0 0) (mkVector3 0 0 0) (mkVector3 1 1 1).

(** One entry of a [transforms] array: [{ type, amount }] with
    [amount] an object. *)
Record transform : Type := mkTransform {
  t_type : string;
  t_amount : jsobject
}.

Section Transforms.
Context `{Host}.

Definition translationOf (amount : jsobject) : Vector3 :=
  mkVector3 (toValidFloat (prop amount "x") 0)
            (toValidFloat (prop amount "y") 0)
            (toValidFloat (prop amount "z") 0).

Definition rotationOf (amount : jsobject) : Vector3 :=
  mkVector3 (degToRad (validateAngle (prop amount "x") (-360) 360 0))
            (degToRad (validateAngle (prop amount "y") (-360) 360 0))
            (degToRad (validateAngle (prop amount "z") (-360) 360 0)).

Definition scaleOf (amount : jsobject) : Vector3 :=
  mkVector3 (toValidFloat (prop amount "x") 1)
            (toValidFloat (prop amount "y") 1)
            (toValidFloat (prop amount "z") 1).

(** The body of the [forEach] callback: [position.set], the three
    assignments to [rotation], or [scale.set]. *)
Definition applyTransformation (group : Object3DState) (t : transform)
  : Object3DState :=
  let amount := t_amount t in
  if String.eqb (t_type t) "translate" then
    mkObject3DState (translationOf amount) (o_rotation group) (o_scale group)
  else if String.eqb (t_type t) "rotate" then
    mkObject3DState (o_position group) (rotationOf amount) (o_scale group)
  else if String.eqb (t_type t) "scale" then
    mkObject3DState (o_position group) (o_rotation group) (scaleOf amount)
  else group.

Definition applyTransformations (group : Object3DState)
    (transforms : list transform) : Object3DState :=
  fold_left applyTransformation transforms group.

(** What a composition of the translations alone would give: the sum
    of the translation amounts, in declaration order.  This follows the
    wording "as normal matrix composition would" and is used only to
    compare with [applyTransformations]. *)
Definition composedTranslation (transforms : list transform) : Vector3 :=
  fold_left
    (fun acc t =>
       if String.eqb (t_type t) "translate" then
         mkVector3
           (PrimFloat.add (v_x acc) (v_x (translationOf (t_amount t))))
           (PrimFloat.add (v_y acc) (v_y (translationOf (t_amount t))))
           (PrimFloat.add (v_z acc) (v_z (translationOf (t_amount t))))
       else acc)
    transforms (mkVector3 0 0 0).

(** The last entry of a given type, if there is one. *)
Fixpoint lastOfType (ty : string) (transforms : list transform)
  : option transform :=
  match transforms with
  | [] => None
  | t :: rest =>
      match lastOfType ty rest with
      | Some t' => Some t'
      | None => if String.eqb (t_type t) ty then Some t else None
      end
  end.

End Transforms.

(** ** createLight *)

Record ShadowCamera : Type := mkShadowCamera {
  sc_left : float;
  sc_right : float;
  sc_bottom : float;
  sc_top : float
}.

(** The three light classes with their constructor arguments; the
    directional light also carries the bounds written to
    [light.shadow.camera]. *)
Inductive LightCore : Type :=
| PointLight (color : Color) (intensity distance decay : float)
| SpotLight (color : Color) (intensity distance angle penumbra decay : float)
| DirectionalLight (color : Color) (intensity : float) (shadowCamera : ShadowCamera).

Record Light : Type := mkLight {
  light_core : LightCore;
  light_visible : bool;
  light_castShadow : bool;
  light_shadowMapSize : float * float;
  light_position : Vector3;
  (** [light.target.position], for spot and directional lights *)
  light_target : option Vector3;
  (** [light.name]: the empty string unless a truthy id was given *)
  light_name : jsval
}.

(** The group returned by [createLight]: the light, the group's own
    [visible] flag and whether the light's target was added to it. *)
Record LightGroup : Type := mkLightGroup {
  lg_light : Light;
  lg_visible : bool;
  lg_hasTarget : bool
}.

Definition hasTarget (core : LightCore) : bool :=
  match core with
  | PointLight _ _ _ _ => false
  | _ => true
  end.

Section Lights.
Context `{Host}.

Definition readVector3 (v : jsval) (dx dy dz : float) : Vector3 :=
  mkVector3 (toValidFloat (optProp v "x") dx)
            (toValidFloat (optProp v "y") dy)
            (toValidFloat (optProp v "z") dz).

(** The [directionallight] case up to the writes to
    [light.shadow.camera]: the four bounds after the sign corrections,
    and the warnings printed on the way. *)
Definition directionalShadowBounds (lightData : jsobject)
  : ShadowCamera * list logEntry :=
  let shadowLeft := validateShadowProperty (prop lightData "shadowleft") (-5) in
  let shadowRight := validateShadowProperty (prop lightData "shadowright") 5 in
  let shadowBottom := validateShadowProperty (prop lightData "shadowbottom") (-5) in
  let shadowTop := validateShadowProperty (prop lightData "shadowtop") 5 in
  let '(shadowLeft, w1) :=
    if PrimFloat.ltb 0 shadowLeft
    then (PrimFloat.opp (Math_abs shadowLeft),
          [Warn "Correcting shadowleft to negative" [JNum shadowLeft]])
    else (shadowLeft, []) in
  let '(shadowRight, w2) :=
    if PrimFloat.ltb shadowRight 0
    then (Math_abs shadowRight,
          [Warn "Correcting shadowright to positive" [JNum shadowRight]])
    else (shadowRight, []) in
  let '(shadowBottom, w3) :=
    if PrimFloat.ltb 0 shadowBottom
    then (PrimFloat.opp (Math_abs shadowBottom),
          [Warn "Correcting shadowbottom to negative" [JNum shadowBottom]])
    else (shadowBottom, []) in
  let '(shadowTop, w4) :=
    if PrimFloat.ltb shadowTop 0
    then (Math_abs shadowTop,
          [Warn "Correcting shadowtop to positive" [JNum shadowTop]])
    else (shadowTop, []) in
  (mkShadowCamera shadowLeft shadowRight shadowBottom shadowTop,
   (w1 ++ w2 ++ w3 ++ w4)%list).

(** The [switch] on [lightData.type]: the light built, or [None] for
    the [default] branch. *)
Definition createLightCore (lightData : jsobject)
  : option LightCore * list logEntry :=
  let color :=
    parseColor (nullish (prop lightData "color")
                  (JObj [("r", JNum 255); ("g", JNum 255); ("b", JNum 255)])) in
  match prop lightData "type" with
  | JStr "pointlight" =>
      (Some (PointLight color
               (validateIntensity (prop lightData "intensity") 1)
               (validateDistance (prop lightData "distance") 1000)
               (validateDecay (prop lightData "decay") 2)), [])
  | JStr "spotlight" =>
      (Some (SpotLight color
               (validateIntensity (prop lightData "intensity") 1)
               (validateDistance (prop lightData "distance") 1000)
               (degToRad (validateAngle (prop lightData "angle") 0 180 45))
               (validatePenumbra (prop lightData "penumbra") 0.2)
               (validateDecay (prop lightData "decay") 2)), [])
  | JStr "directionallight" =>
      let '(camera, warnings) := directionalShadowBounds lightData in
      (Some (DirectionalLight color
               (validateIntensity (prop lightData "intensity") 1) camera),
       warnings)
  | other => (None, [Warn "Unsupported light type" [other]])
  end.

Definition createLight (lightData : jsobject) (lightId : jsval)
  : option LightGroup * list logEntry :=
  match createLightCore lightData with
  | (None, warnings) => (None, warnings)
  | (Some core, warnings) =>
      let visible := parseBoolean (prop lightData "enabled") true in
      let castShadow := parseBoolean (prop lightData "castshadow") false in
      let shadowMapSize :=
        validateShadowMapSize (prop lightData "shadowmapsize") 512 in
      let position := readVector3 (prop lightData "position") 0 0 0 in
      let target :=
        if hasTarget core
        then Some (readVector3 (prop lightData "target") 0 0 0)
        else None in
      let name := if truthy lightId then lightId else JStr "" in
      (Some (mkLightGroup
               (mkLight core visible castShadow
                  (shadowMapSize, shadowMapSize) position target name)
               visible (hasTarget core)),
       warnings)
  end.

End Lights.

(** ** Textures and materials *)

(** A loaded [THREE.Texture]: the id it was loaded under, its tiling
    factor [repeat], whether both wrap modes are [RepeatWrapping], and
    its [needsUpdate] flag. *)
Record Texture : Type := mkTexture {
  tex_id : string;
  tex_repeat : float * float;
  tex_wrapRepeat : bool;
  tex_needsUpdate : bool
}.

(** A three.js material.  [mat_texlength_s] and [mat_texlength_t] are
    the two properties the parser attaches to the materials it builds;
    they are absent ([None], read as [undefined]) on materials that
    three.js constructed or cloned on its own. *)
Record Material : Type := mkMaterial {
  mat_uuid : string;
  mat_color : Color;
  mat_specular : Color;
  mat_shininess : float;
  mat_emissive : Color;
  mat_transparent : bool;
  mat_opacity : float;
  mat_wireframe : bool;
  mat_doubleSide : bool;
  mat_map : option Texture;
  mat_bumpMap : option Texture;
  mat_bumpScale : float;
  mat_specularMap : option Texture;
  mat_flatShading : bool;
  mat_vertexColors : bool;
  mat_texlength_s : option float;
  mat_texlength_t : option float
}.

(** [material.clone()]: a new material with its own uuid and the
    standard properties of the original; properties attached from
    outside three.js are not carried over. *)
Definition cloneMaterial (m : Material) (uuid : string) : Material :=
  mkMaterial uuid (mat_color m) (mat_specular m) (mat_shininess m)
    (mat_emissive m) (mat_transparent m) (mat_opacity m) (mat_wireframe m)
    (mat_doubleSide m) (mat_map m) (mat_bumpMap m) (mat_bumpScale m)
    (mat_specularMap m) (mat_flatShading m) (mat_vertexColors m) None None.

(** An instance of the class [MyMaterials].  The three texture fields
    hold what the promises returned by [getTexture] resolve to. *)
Record MyMaterials : Type := mkMyMaterials {
  mm_materialId : string;
  mm_color : Color;
  mm_specular : Color;
  mm_emissive : Color;
  mm_shininess : float;
  mm_transparent : bool;
  mm_opacity : float;
  mm_wireframe : bool;
  mm_shading : bool;
  mm_twosided : bool;
  mm_textureref : option Texture;
  mm_texlength_s : float;
  mm_texlength_t : float;
  mm_bumpref : option Texture;
  mm_bumpscale : float;
  mm_specularref : option Texture
}.

(** The state of [MyContents] that the loaders and the graph parser
    share: the texture and material tables (the parser's [materials]
    is the same object as [MyContents.materials]), the two default
    materials and the number of material uuids handed out so far. *)
Record MyContents : Type := mkMyContents {
  mc_textures : gmap string Texture;
  mc_materials : gmap string Material;
  mc_defaultMaterial : Material;
  mc_defaultMaterialVertex : Material;
  mc_uuids : nat
}.

Section Materials.
Context `{Host}.

Definition white : jsval :=
  JObj [("r", JNum 255); ("g", JNum 255); ("b", JNum 255)].

Definition black : jsval :=
  JObj [("r", JNum 0); ("g", JNum 0); ("b", JNum 0)].

(** [getTexture(textures, ref)]: what the returned promise resolves
    to.  The table holds loaded textures only.  Under a name that the
    table inherits the method finds a function instead of a texture;
    the model has no value for it and covers the references that are
    no such names. *)
Definition getTexture (textures : gmap string Texture) (ref : jsval)
  : option Texture :=
  if negb (truthy ref) then None else textures !! ToString ref.

(** The constructor of [MyMaterials]. *)
Definition newMyMaterials (materialId : string) (materialData : jsobject)
    (textures : gmap string Texture) : MyMaterials :=
  {| mm_materialId := materialId;
     mm_color := parseColor (orElse (prop materialData "color") white);
     mm_specular := parseColor (orElse (prop materialData "specular") white);
     mm_emissive := parseColor (orElse (prop materialData "emissive") black);
     mm_shininess := toValidFloat (prop materialData "shininess") 30;
     mm_transparent := parseBoolean (prop materialData "transparent") false;
     mm_opacity := toValidOpacity (prop materialData "opacity") 1;
     mm_wireframe := parseBoolean (prop materialData "wireframe") false;
     mm_shading := parseBoolean (prop materialData "shading") false;
     mm_twosided := parseBoolean (prop materialData "twosided") false;
     mm_textureref := getTexture textures (prop materialData "textureref");
     mm_texlength_s := toValidFloat (prop materialData "texlength_s") 1;
     mm_texlength_t := toValidFloat (prop materialData "texlength_t") 1;
     mm_bumpref := getTexture textures (prop materialData "bumpref");
     mm_bumpscale := toValidFloat (prop materialData "bumpscale") 1;
     mm_specularref := getTexture textures (prop materialData "specularref") |}.

(** [isValid()]: the two colours are objects, hence truthy, and the
    value of the conjunction is that of [this.shininess >= 0]. *)
Definition isValid (m : MyMaterials) : bool :=
  PrimFloat.leb 0 (mm_shininess m).

(** [createThreeMaterialAsync()]: the material the promise resolves
    to, built under the given uuid.  A bound colour map is switched to
    repeat wrapping with an initial [repeat] of [(1, 1)].  The record
    shows each texture as the material holds it when the call returns.
    The texture is one object, which the table and every material
    bound to it share: the two assignments reach them all, and the
    model does not carry them over to the other records. *)
Definition createThreeMaterialAsync (m : MyMaterials) (uuid : string)
  : Material :=
  {| mat_uuid := uuid;
     mat_color := mm_color m;
     mat_specular := mm_specular m;
     mat_shininess := mm_shininess m;
     mat_emissive := mm_emissive m;
     mat_transparent := mm_transparent m;
     mat_opacity := mm_opacity m;
     mat_wireframe := mm_wireframe m;
     mat_doubleSide := mm_twosided m;
     mat_map :=
       match mm_textureref m with
       | Some t => Some (mkTexture (tex_id t) (1%float, 1%float) true
                           (tex_needsUpdate t))
       | None => None
       end;
     mat_bumpMap := mm_bumpref m;
     mat_bumpScale := mm_bumpscale m;
     mat_specularMap := mm_specularref m;
     mat_flatShading := mm_shading m;
     mat_vertexColors := false;
     mat_texlength_s := Some (mm_texlength_s m);
     mat_texlength_t := Some (mm_texlength_t m) |}.

(** The [for ... in] loop of [materialsRendering]: the entries for
    which [createThreeMaterialAsync] is called, in order, and the
    warnings for the entries skipped as invalid.  The table [materials]
    is the one at the time of the call: the [then] callbacks that fill
    it run only after the loop.  The test [this.materials[materialId]]
    also holds for an id that the table inherits. *)
Fixpoint scheduleMaterials (materialsData : list (string * jsobject))
    (textures : gmap string Texture) (materials : gmap string Material)
  : list (string * MyMaterials) * list logEntry :=
  match materialsData with
  | [] => ([], [])
  | (materialId, materialData) :: rest =>
      let '(pending, warnings) := scheduleMaterials rest textures materials in
      if String.eqb materialId "" || tableHas (dom materials) materialId
      then (pending, warnings)
      else
        let myMaterial := newMyMaterials materialId materialData textures in
        if isValid myMaterial
        then ((materialId, myMaterial) :: pending, warnings)
        else (pending,
              Warn "Invalid or missing data for material. Skipping material."
                [JStr materialId] :: warnings)
  end.

(** The [then] callbacks, once every promise has settled: each
    scheduled material is constructed and stored under its id. *)
Definition settleMaterials (pending : list (string * MyMaterials))
    (c : MyContents) : MyContents :=
  fold_left
    (fun c '(materialId, myMaterial) =>
       mkMyContents (mc_textures c)
         (<[materialId :=
              createThreeMaterialAsync myMaterial (generateUUID (mc_uuids c))]>
            (mc_materials c))
         (mc_defaultMaterial c) (mc_defaultMaterialVertex c)
         (S (mc_uuids c)))
    pending c.

(** [materialsRendering(materialsData)] up to the point where the
    awaited [Promise.all] resolves. *)
Definition materialsRendering (materialsData : list (string * jsobject))
    (c : MyContents) : MyContents * list logEntry :=
  match materialsData with
  | [] => (c, [Warn "'Materials' data not found in the provided scene file." []])
  | _ =>
      let '(pending, warnings) :=
        scheduleMaterials materialsData (mc_textures c) (mc_materials c) in
      (settleMaterials pending c, warnings)
  end.

End Materials.

(** ** createPrimitive *)

(** A [THREE.BufferGeometry], by the backing array of its [position]
    attribute (x, y, z per vertex).  The [uv] attribute, and with it
    the [adjust...UVs] helpers that only rewrite it, are not part of
    this model. *)
Record BufferGeometry : Type := mkGeometry { position_array : list float }.

Record Mesh : Type := mkMesh {
  mesh_geometry : BufferGeometry;
  mesh_material : Material;
  mesh_castShadow : bool;
  mesh_receiveShadow : bool
}.

(** The geometry generators of three.js that [createPrimitive] calls,
    each by the position array it produces. *)
Class Three : Type := {
  (** [new THREE.PlaneGeometry(width, height)] *)
  PlaneGeometry : float -> float -> list float;
  (** [new THREE.BoxGeometry(width, height, depth, partsX, partsY, partsZ)] *)
  BoxGeometry : float -> float -> float -> float -> float -> float -> list float;
  (** [new THREE.CylinderGeometry(top, base, height, slices, stacks, closed)] *)
  CylinderGeometry : float -> float -> float -> float -> float -> bool -> list float;
  (** [new THREE.SphereGeometry(radius, slices, stacks, thetaStart,
      thetaLength, phiStart, phiLength)] *)
  SphereGeometry :
    float -> float -> float -> float -> float -> float -> float -> list float;
  (** [geometry.translate(x, y, z)] *)
  translate : list float -> float -> float -> float -> list float;
  (** the [nurbs] case: the control-point grid read off the primitive
      and handed to [MyNurbsBuilder.build], which delegates to
      [NURBSSurface] and [ParametricGeometry]; the array that results
      when the loops over the control points and the knots end
      ([nurbsLoopsEnd] below) *)
  nurbsPositions : jsobject -> list float;
  (** the [polygon] case: the array that the vertex loop fills, with
      [Math.cos] and [Math.sin], when it ends ([polygonLoopsEnd]
      below) *)
  polygonPositions : jsobject -> list float
}.

(** [Math.fround]: rounding to the nearest binary32 value, which is
    what storing into a [Float32Array] does. *)
Definition Math_fround (x : float) : float :=
  match Prim2SF x with
  | S754_finite s m e =>
      SF2Prim (binary_normalize 24 128 (cond_Zopp s (Z.pos m)) e s)
  | _ => x
  end.

(** [new Float32Array(values)] *)
Definition Float32Array (values : list float) : list float :=
  List.map Math_fround values.

(** The vertices stored in a position array. *)
Fixpoint vertices (positions : list float) : list Vector3 :=
  match positions with
  | x :: y :: z :: rest => mkVector3 x y z :: vertices rest
  | _ => []
  end.

Record Box3 : Type := mkBox3 { box_min : Vector3; box_max : Vector3 }.

(** [geometry.computeBoundingBox()] of three.js: starting from the
    empty box, every vertex widens the box by [Math.min] / [Math.max]
    on each axis. *)
Definition computeBoundingBox (geometry : BufferGeometry) : Box3 :=
  fold_left
    (fun box p =>
       mkBox3
         (mkVector3 (Math_min (v_x (box_min box)) (v_x p))
                    (Math_min (v_y (box_min box)) (v_y p))
                    (Math_min (v_z (box_min box)) (v_z p)))
         (mkVector3 (Math_max (v_x (box_max box)) (v_x p))
                    (Math_max (v_y (box_max box)) (v_y p))
                    (Math_max (v_z (box_max box)) (v_z p))))
    (vertices (position_array geometry))
    (mkBox3 (mkVector3 PrimFloat.infinity PrimFloat.infinity PrimFloat.infinity)
            (mkVector3 PrimFloat.neg_infinity PrimFloat.neg_infinity
               PrimFloat.neg_infinity)).

(** The extent of the bounding box along x and along y. *)
Definition boxWidth (geometry : BufferGeometry) : float :=
  PrimFloat.sub (v_x (box_max (computeBoundingBox geometry)))
                (v_x (box_min (computeBoundingBox geometry))).

Definition boxHeight (geometry : BufferGeometry) : float :=
  PrimFloat.sub (v_y (box_max (computeBoundingBox geometry)))
                (v_y (box_min (computeBoundingBox geometry))).

(** [ToNumber] of a property that may be absent. *)
Definition numberOf (v : option float) : float :=
  match v with
  | Some n => n
  | None => PrimFloat.nan
  end.

(** [positions[i]] as a number. *)
Definition at_index (positions : list float) (i : nat) : float :=
  nth i positions PrimFloat.nan.

(** [edge1.cross(edge2).length() / 2] for the triangle stored in the
    first nine entries of a position array. *)
Definition triangleArea (positions : list float) : float :=
  let sub a b := PrimFloat.sub (at_index positions a) (at_index positions b) in
  let '(ax, ay, az) := (sub 3 0, sub 4 1, sub 5 2)%nat in
  let '(bx, byy, bz) := (sub 6 0, sub 7 1, sub 8 2)%nat in
  let cx := PrimFloat.sub (PrimFloat.mul ay bz) (PrimFloat.mul az byy) in
  let cy := PrimFloat.sub (PrimFloat.mul az bx) (PrimFloat.mul ax bz) in
  let cz := PrimFloat.sub (PrimFloat.mul ax byy) (PrimFloat.mul ay bx) in
  PrimFloat.div
    (PrimFloat.sqrt
       (PrimFloat.add (PrimFloat.add (PrimFloat.mul cx cx) (PrimFloat.mul cy cy))
          (PrimFloat.mul cz cz)))
    2.

(** [String(counter).padStart(2, '0')] *)
Definition padStart2 (s : string) : string :=
  if (String.length s <? 2)%nat then
    (if (String.length s <? 1)%nat then "00" else "0" ++ s)
  else s.

(** The loop [while (materials[id]) { counter++; id = ... }] started at
    [counter]: the first candidate id that is not in the table.  The
    candidates are distinct and at most [size materials] of them can
    be taken, which bounds the search. *)
Fixpoint freeMaterialId (fuel counter : nat) (idBase : string)
    (materials : gmap string Material) : string :=
  let id := idBase ++ "_" ++ padStart2 (pretty counter) in
  match fuel with
  | O => id
  | S fuel' =>
      if bool_decide (is_Some (materials !! id))
      then freeMaterialId fuel' (S counter) idBase materials
      else id
  end.

(** Registers a cloned material under a generated id, and counts the
    uuid the clone consumed. *)
Definition registerMaterial (idBase : string) (m : Material)
    (c : MyContents) : MyContents :=
  let id := freeMaterialId (size (mc_materials c)) 1 idBase (mc_materials c) in
  mkMyContents (mc_textures c) (<[id := m]> (mc_materials c))
    (mc_defaultMaterial c) (mc_defaultMaterialVertex c) (S (mc_uuids c)).

Section Primitives.
Context `{Host} `{Three}.
Local Open Scope float_scope.

Definition coordinate (primitiveData : jsobject) (point axis : string)
    (defaultValue : float) : float :=
  toValidFloat (optProp (prop primitiveData point) axis) defaultValue.

(** The [triangle] case: the three validated vertices stored as a
    [Float32Array]. *)
Definition triangleGeometry (primitiveData : jsobject) : BufferGeometry :=
  let c := coordinate primitiveData in
  mkGeometry
    (Float32Array
       [c "xyz1" "x" 0; c "xyz1" "y" 0; c "xyz1" "z" 0;
        c "xyz2" "x" 1; c "xyz2" "y" 0; c "xyz2" "z" 0;
        c "xyz3" "x" 0.5; c "xyz3" "y" 1; c "xyz3" "z" 0]).

Definition half_sum (a b : float) : float :=
  PrimFloat.div (PrimFloat.add a b) 2.

(** The geometry built by the [switch] for the kinds that fall through
    to the common tail of [createPrimitive]; [None] for a [type] that
    no case matches. *)
Definition primitiveGeometry (primitiveData : jsobject)
  : option BufferGeometry :=
  let c := coordinate primitiveData in
  let num k d := toValidFloat (prop primitiveData k) d in
  let type := prop primitiveData "type" in
  if strictEq type "rectangle" then
      let rectWidth := Math_abs (PrimFloat.sub (c "xy2" "x" 0.5) (c "xy1" "x" (-0.5))) in
      let rectHeight := Math_abs (PrimFloat.sub (c "xy2" "y" 0.5) (c "xy1" "y" (-0.5))) in
      let rectOffsetX := half_sum (c "xy1" "x" (-0.5)) (c "xy2" "x" 0.5) in
      let rectOffsetY := half_sum (c "xy1" "y" (-0.5)) (c "xy2" "y" 0.5) in
      Some (mkGeometry
              (translate (PlaneGeometry rectWidth rectHeight)
                 rectOffsetX rectOffsetY 0))
  else if strictEq type "triangle" then Some (triangleGeometry primitiveData)
  else if strictEq type "box" then
      let boxWidth := Math_abs (PrimFloat.sub (c "xyz2" "x" 1) (c "xyz1" "x" (-1))) in
      let boxHeight := Math_abs (PrimFloat.sub (c "xyz2" "y" 1) (c "xyz1" "y" (-1))) in
      let boxDepth := Math_abs (PrimFloat.sub (c "xyz2" "z" 1) (c "xyz1" "z" (-1))) in
      let offsetX := half_sum (c "xyz1" "x" (-1)) (c "xyz2" "x" 1) in
      let offsetY := half_sum (c "xyz1" "y" (-1)) (c "xyz2" "y" 1) in
      let offsetZ := half_sum (c "xyz1" "z" (-1)) (c "xyz2" "z" 1) in
      Some (mkGeometry
              (translate
                 (BoxGeometry boxWidth boxHeight boxDepth
                    (num "parts_x" 1) (num "parts_y" 1) (num "parts_z" 1))
                 offsetX offsetY offsetZ))
  else if strictEq type "cylinder" then
      Some (mkGeometry
              (CylinderGeometry (num "top" 1) (num "base" 1) (num "height" 2)
                 (num "slices" 8) (num "stacks" 1)
                 (parseBoolean (prop primitiveData "capsclose") false)))
  else if strictEq type "sphere" then
      Some (mkGeometry
              (SphereGeometry (num "radius" 1) (num "slices" 8) (num "stacks" 6)
                 (validateRadianAngle (prop primitiveData "thetastart") 0)
                 (validateRadianAngle (prop primitiveData "thetalength") 360)
                 (validateRadianAngle (prop primitiveData "phistart") 0)
                 (validateRadianAngle (prop primitiveData "philength") 180)))
  else if strictEq type "nurbs" then
    Some (mkGeometry (nurbsPositions primitiveData))
  else None.

(** [a / b || 1] *)
Definition quotientOrOne (a b : float) : float :=
  numOr (PrimFloat.div a b) 1.

(** The texture-repeat pass, entered when [meshMaterial.map] is bound:
    the two arguments of [map.repeat.set], or [None] when the pass
    leaves [repeat] alone. *)
Definition textureRepeat (type : jsval) (specialTextureHandling : bool)
    (primitiveData : jsobject) (geometry : BufferGeometry)
    (meshMaterial : Material) : option (float * float) :=
  let texlength_s := numberOf (mat_texlength_s meshMaterial) in
  let texlength_t := numberOf (mat_texlength_t meshMaterial) in
  if specialTextureHandling then
    if strictEq type "triangle" then
      let area := triangleArea (position_array geometry) in
      Some (PrimFloat.div area texlength_s, PrimFloat.div area texlength_t)
    else if strictEq type "nurbs" then
      Some (PrimFloat.div (toValidFloat (prop primitiveData "parts_u") 10) texlength_s,
            PrimFloat.div (toValidFloat (prop primitiveData "parts_v") 10) texlength_t)
    else None
  else
    let boundingBox := computeBoundingBox geometry in
    let texScaleS :=
      PrimFloat.sub (v_x (box_max boundingBox)) (v_x (box_min boundingBox)) in
    let texScaleT :=
      PrimFloat.sub (v_y (box_max boundingBox)) (v_y (box_min boundingBox)) in
    Some (quotientOrOne texScaleS texlength_s,
          quotientOrOne texScaleT texlength_t).

(** The material after the pass: [repeat] as set and [needsUpdate]
    raised.  The texture object is shared by every material that names
    it; the write is recorded on the material handed to the mesh. *)
Definition withRepeat (meshMaterial : Material)
    (repeat : option (float * float)) : Material :=
  match mat_map meshMaterial with
  | None => meshMaterial
  | Some t =>
      let t' :=
        mkTexture (tex_id t)
          (match repeat with Some r => r | None => tex_repeat t end)
          (tex_wrapRepeat t) true in
      mkMaterial (mat_uuid meshMaterial) (mat_color meshMaterial)
        (mat_specular meshMaterial) (mat_shininess meshMaterial)
        (mat_emissive meshMaterial) (mat_transparent meshMaterial)
        (mat_opacity meshMaterial) (mat_wireframe meshMaterial)
        (mat_doubleSide meshMaterial) (Some t') (mat_bumpMap meshMaterial)
        (mat_bumpScale meshMaterial) (mat_specularMap meshMaterial)
        (mat_flatShading meshMaterial) (mat_vertexColors meshMaterial)
        (mat_texlength_s meshMaterial) (mat_texlength_t meshMaterial)
  end.

(** The flag declared at the top of [createPrimitive]; no statement of
    the function assigns it again. *)
Definition specialTextureHandling : bool := false.

Definition withVertexColors (m : Material) : Material :=
  mkMaterial (mat_uuid m) (mat_color m) (mat_specular m) (mat_shininess m)
    (mat_emissive m) (mat_transparent m) (mat_opacity m) (mat_wireframe m)
    (mat_doubleSide m) (mat_map m) (mat_bumpMap m) (mat_bumpScale m)
    (mat_specularMap m) (mat_flatShading m) true
    (mat_texlength_s m) (mat_texlength_t m).

(** [createPrimitive(primitiveData, material, appMyContents)]: the
    mesh, or [None] with a warning for an unsupported [type], and the
    contents with the materials registered on the way. *)
Definition createPrimitive (primitiveData : jsobject)
    (material : option Material) (appMyContents : MyContents)
  : option Mesh * MyContents * list logEntry :=
  let type := prop primitiveData "type" in
  if strictEq type "polygon" then
    let geometry := mkGeometry (polygonPositions primitiveData) in
    let uuid := generateUUID (mc_uuids appMyContents) in
    let polygonMaterial :=
      match material with
      | Some m => withVertexColors (cloneMaterial m uuid)
      | None => cloneMaterial (mc_defaultMaterialVertex appMyContents) uuid
      end in
    (Some (mkMesh geometry polygonMaterial false false),
     registerMaterial "polygon" polygonMaterial appMyContents, [])
  else
    match primitiveGeometry primitiveData with
    | None => (None, appMyContents, [Warn "Unsupported primitive type" [type]])
    | Some geometry =>
        let '(meshMaterial, contents) :=
          match material with
          | Some m => (m, appMyContents)
          | None =>
              let m := cloneMaterial (mc_defaultMaterial appMyContents)
                         (generateUUID (mc_uuids appMyContents)) in
              (m, registerMaterial "default_mesh_material" m appMyContents)
          end in
        let meshMaterial :=
          match mat_map meshMaterial with
          | Some _ =>
              withRepeat meshMaterial
                (textureRepeat type specialTextureHandling primitiveData
                   geometry meshMaterial)
          | None => meshMaterial
          end in
        (Some (mkMesh geometry meshMaterial false false), contents, [])
    end.

(** *** The counting loops of createPrimitive

    A loop [for (let i = 0; i < n; i++)] counts in numbers: [i] takes
    the values 0, 1, 2, ... up to 2^53 and keeps that value, because
    2^53 + 1 rounds to 2^53.  So the loop ends exactly when one of
    these values fails the test: for the test [i < n] when [n] is at
    most 2^53 or is [NaN], and for the test [i <= n] when [n] is
    below 2^53 or is [NaN]. *)
Definition two53 : float := 9007199254740992.

(** [for (let i = 0; i < n; i++)] ends. *)
Definition endsBelow (n : float) : bool := negb (PrimFloat.ltb two53 n).

(** [for (let i = 0; i <= n; i++)] ends. *)
Definition endsUpTo (n : float) : bool := negb (PrimFloat.leb two53 n).

(** The [polygon] case: the loops over the vertices, [stack <=
    polygon_stacks] around [slice <= polygon_slices], and the loops
    over the indices, [stack < polygon_stacks] around [slice <
    polygon_slices], all end.  An inner loop is reached when the outer
    one runs at all. *)
Definition polygonLoopsEnd (primitiveData : jsobject) : bool :=
  let polygon_stacks := toValidFloat (prop primitiveData "stacks") 3 in
  let polygon_slices := toValidFloat (prop primitiveData "slices") 5 in
  endsUpTo polygon_stacks
  && (negb (PrimFloat.leb 0 polygon_stacks) || endsUpTo polygon_slices)
  && endsBelow polygon_stacks
  && (negb (PrimFloat.ltb 0 polygon_stacks) || endsBelow polygon_slices).

(** The [nurbs] case: the loop over the control points, [i <
    numControlPoints], and the four loops of [MyNurbsBuilder.build]
    over the knots, [i <= degree1] and [i <= degree2], all end. *)
Definition nurbsLoopsEnd (primitiveData : jsobject) : bool :=
  let degreeU := toValidFloat (prop primitiveData "degree_u") 3 in
  let degreeV := toValidFloat (prop primitiveData "degree_v") 3 in
  let numControlPoints := (degreeU + 1) * (degreeV + 1) in
  endsBelow numControlPoints && endsUpTo degreeU && endsUpTo degreeV.

(** The loops that [createPrimitive] and [MyNurbsBuilder] run for the
    primitive all end.  When they do, [createPrimitive] returns what
    the definition above says, the constructors of three.js being
    taken to return and the arrays to hold any number of elements;
    when they do not, it never returns. *)
Definition loopsEnd (primitiveData : jsobject) : bool :=
  let type := prop primitiveData "type" in
  if strictEq type "polygon" then polygonLoopsEnd primitiveData
  else if strictEq type "nurbs" then nurbsLoopsEnd primitiveData
  else true.

(** The numbers of segments that [createPrimitive] hands to the
    constructors of three.js, which count up to them in loops of their
    own, are all below 2^53. *)
Definition countsBounded (primitiveData : jsobject) : bool :=
  forallb (fun k => endsUpTo (toValidFloat (prop primitiveData k) 0))
    ["parts_x"; "parts_y"; "parts_z"; "slices"; "stacks";
     "parts_u"; "parts_v"].

End Primitives.

(** A stand-in for three.js that knows the four corners of a plane and
    how to translate; the other generators give an empty geometry. *)
Definition sampleThree : Three :=
  {| PlaneGeometry := fun w h =>
       let hw := PrimFloat.div w 2 in
       let hh := PrimFloat.div h 2 in
       Float32Array
         [PrimFloat.opp hw; hh; 0%float; hw; hh; 0%float;
          PrimFloat.opp hw; PrimFloat.opp hh; 0%float;
          hw; PrimFloat.opp hh; 0%float];
     BoxGeometry := fun _ _ _ _ _ _ => [];
     CylinderGeometry := fun _ _ _ _ _ _ => [];
     SphereGeometry := fun _ _ _ _ _ _ _ => [];
     translate := fun positions x y z =>
       Float32Array
         (flat_map
            (fun p => [PrimFloat.add (v_x p) x; PrimFloat.add (v_y p) y;
                       PrimFloat.add (v_z p) z])
            (vertices positions));
     nurbsPositions := fun _ => [];
     polygonPositions := fun _ => [] |}.

(** ** The node graph *)

(** One entry of a [lodNodes] array. *)
Record lodEntry : Type := mkLodEntry {
  le_nodeId : jsval;
  le_mindist : jsval
}.

(** What [createLOD] reads from its [lodData] argument. *)
Record lodData : Type := mkLodData {
  lod_lodNodes : option (list lodEntry);
  lod_transforms : option (list transform)
}.

(** A direct child of a node: its scalar and nested-object properties
    ([type], [nodeId] and the parameters of the primitive or light),
    and the two array-valued properties that make it a LOD. *)
Record childData : Type := mkChildData {
  cd_fields : jsobject;
  cd_lodNodes : option (list lodEntry);
  cd_transforms : option (list transform)
}.

(** [nodeData.children]: the properties other than [nodesList] and
    [lodsList] in enumeration order, and the two lists when they are
    arrays. *)
Record childrenData : Type := mkChildrenData {
  ch_direct : list (string * childData);
  ch_nodesList : option (list jsval);
  ch_lodsList : option (list jsval)
}.

(** An entry of the flat table [graphData].  [lodsList] names entries
    of the same table, which are read through [lodNodes] and
    [transforms].  An own property of [graphData] whose value is no
    object, such as [rootid], reads as an entry without any of these
    properties. *)
Record nodeData : Type := mkNodeData {
  nd_transforms : option (list transform);
  (** [nodeData.materialref?.materialId] *)
  nd_materialId : jsval;
  nd_castshadow : jsval;
  nd_receiveshadow : jsval;
  nd_children : option childrenData;
  nd_lodNodes : option (list lodEntry)
}.

(** The objects of the render tree.  [id] is the identity of the
    object: three.js numbers the objects it constructs, and two
    references are to the same object exactly when the ids agree.
    A [LOD] lists its levels as its array [levels] holds them, each
    with its distance.  [userData], in which [createNode] leaves the
    material of the node and which nothing reads, is not part of the
    model. *)
Inductive Object3D : Type :=
| Group (id : nat) (state : Object3DState)
    (castShadow receiveShadow : bool) (children : list Object3D)
| LOD (id : nat) (state : Object3DState) (levels : list (Object3D * float))
| MeshObject (id : nat) (mesh : Mesh)
| LightObject (id : nat) (lightGroup : LightGroup).

Definition object_id (o : Object3D) : nat :=
  match o with
  | Group id _ _ _ _ | LOD id _ _ | MeshObject id _ | LightObject id _ => id
  end.

(** Induction over render trees, with the hypothesis available for
    every child and every level. *)
Fixpoint Object3D_tree_ind (P : Object3D -> Prop)
    (HGroup : forall id st c r children,
        Forall P children -> P (Group id st c r children))
    (HLOD : forall id st levels,
        Forall (fun l => P l.1) levels -> P (LOD id st levels))
    (HMesh : forall id mesh, P (MeshObject id mesh))
    (HLight : forall id lightGroup, P (LightObject id lightGroup))
    (o : Object3D) : P o :=
  match o with
  | Group id st c r children =>
      HGroup id st c r children
        ((fix go (l : list Object3D) : Forall P l :=
            match l with
            | [] => List.Forall_nil P
            | x :: rest =>
                @List.Forall_cons _ _ x rest
                  (Object3D_tree_ind P HGroup HLOD HMesh HLight x) (go rest)
            end) children)
  | LOD id st levels =>
      HLOD id st levels
        ((fix go (l : list (Object3D * float)) : Forall (fun l => P l.1) l :=
            match l with
            | [] => List.Forall_nil _
            | x :: rest =>
                @List.Forall_cons _ _ x rest
                  (Object3D_tree_ind P HGroup HLOD HMesh HLight x.1) (go rest)
            end) levels)
  | MeshObject id mesh => HMesh id mesh
  | LightObject id lightGroup => HLight id lightGroup
  end.

(** [group.add(child)] *)
Definition add (group child : Object3D) : Object3D :=
  match group with
  | Group id st c r children => Group id st c r (children ++ [child])
  | other => other
  end.

(** The place that [addLevel] gives a new level: before the first
    level whose distance is greater. *)
Fixpoint insertLevel {A : Type} (level : A * float)
    (levels : list (A * float)) : list (A * float) :=
  match levels with
  | [] => [level]
  | l :: rest =>
      if PrimFloat.ltb level.2 l.2 then level :: l :: rest
      else l :: insertLevel level rest
  end.

(** [lod.addLevel(object, distance)]: three.js stores
    [Math.abs(distance)] and keeps [levels] in the order of the
    distances. *)
Definition addLevel (lod object : Object3D) (distance : float) : Object3D :=
  match lod with
  | LOD id st levels =>
      LOD id st (insertLevel (object, Math_abs distance) levels)
  | other => other
  end.

(** Clones the items of a list one after the other, threading the
    next free id. *)
Definition cloneEach {A : Type} (cloneOne : A -> nat -> A * nat)
  : list A -> nat -> list A * nat :=
  fix go (l : list A) (n : nat) : list A * nat :=
    match l with
    | [] => ([], n)
    | x :: rest =>
        let '(x', n1) := cloneOne x n in
        let '(rest', n2) := go rest n1 in
        (x' :: rest', n2)
    end.

(** [object.clone(true)]: a copy of the object and of everything below
    it, each copy a new object; meshes keep sharing geometry and
    material, and the copy of a LOD receives the copies of the levels
    in the order of [levels].  [next] is the id the first new object
    receives; the result carries the next free id. *)
Fixpoint clone (o : Object3D) (next : nat) : Object3D * nat :=
  match o with
  | Group _ st c r children =>
      let '(children', next') := cloneEach clone children (S next) in
      (Group next st c r children', next')
  | LOD _ st levels =>
      let '(levels', next') :=
        cloneEach (fun (level : Object3D * float) n =>
                     let '(x', n1) := clone level.1 n in ((x', level.2), n1))
          levels (S next) in
      (LOD next st levels', next')
  | MeshObject _ mesh => (MeshObject next mesh, S next)
  | LightObject _ lightGroup => (LightObject next lightGroup, S next)
  end.

(** [applyMaterialToNode(node, material, parentCastShadow,
    parentReceiveShadow)]: every mesh below [node] gets the material
    and the or-ed shadow flags. *)
Fixpoint applyMaterialToNode (node : Object3D) (material : Material)
    (parentCastShadow parentReceiveShadow : bool) : Object3D :=
  match node with
  | Group id st c r children =>
      Group id st c r
        (List.map (fun child => applyMaterialToNode child material
                                  parentCastShadow parentReceiveShadow)
           children)
  | LOD id st levels =>
      LOD id st
        (List.map (fun '(child, d) =>
                     (applyMaterialToNode child material
                        parentCastShadow parentReceiveShadow, d))
           levels)
  | MeshObject id mesh =>
      MeshObject id
        (mkMesh (mesh_geometry mesh) material
           (parentCastShadow || mesh_castShadow mesh)
           (parentReceiveShadow || mesh_receiveShadow mesh))
  | LightObject id lightGroup => LightObject id lightGroup
  end.

(** The state of a [GraphParser]: the contents it shares with
    [MyContents], the keys of the map [processedNodes], the table
    [nodes] and the number of objects constructed so far. *)
Record GraphParser : Type := mkGraphParser {
  gp_contents : MyContents;
  gp_processedNodes : gset string;
  gp_nodes : gmap string Object3D;
  gp_objects : nat
}.

(** The outcome of running a parser method with bounded recursion
    depth: the method did not return, because the depth was exhausted
    or because a loop of the method has no end, or it returned. *)
Inductive outcome (A : Type) : Type :=
| OutOfFuel
| Done (value : A) (parser : GraphParser).
Arguments OutOfFuel {A}.
Arguments Done {A} value parser.

(** A parser method: a function of the parser state. *)
Definition Build (A : Type) : Type := GraphParser -> outcome A.

#[global] Instance Build_ret : MRet Build := fun A a s => Done a s.

#[global] Instance Build_bind : MBind Build := fun A B k m s =>
  match m s with
  | OutOfFuel => OutOfFuel
  | Done a s' => k a s'
  end.

(** [new THREE.Group()] and the like: the id of the new object. *)
Definition newObject : Build nat := fun s =>
  Done (gp_objects s)
    (mkGraphParser (gp_contents s) (gp_processedNodes s) (gp_nodes s)
       (S (gp_objects s))).

(** A [for ... of] loop whose body updates a value. *)
Fixpoint forEach {A X : Type} (body : X -> A -> Build X) (items : list A)
    (x : X) : Build X :=
  match items with
  | [] => mret x
  | item :: rest => x' ← body x item; forEach body rest x'
  end.

(** [{ ...o, k: v }] *)
Fixpoint setProp (o : jsobject) (k : string) (v : jsval) : jsobject :=
  match o with
  | [] => [(k, v)]
  | (k', v') :: rest =>
      if String.eqb k k' then (k', v) :: rest else (k', v') :: setProp rest k v
  end.

Definition materialUUID (parentMaterial : option Material) : string :=
  match parentMaterial with
  | Some m => mat_uuid m
  | None => "null"
  end.

(** The template string [`${nodeId}_${materialUUID}`]. *)
Definition cacheKey (nodeId : string) (parentMaterial : option Material)
  : string :=
  nodeId ++ "_" ++ materialUUID parentMaterial.

Definition primitiveTypes : list string :=
  ["rectangle"; "triangle"; "box"; "cylinder"; "sphere"; "nurbs"; "polygon"].

Definition lightTypes : list string :=
  ["pointlight"; "spotlight"; "directionallight"].

(** [arr.includes(v)] for an array of strings and any value. *)
Definition includesValue (arr : list string) (v : jsval) : bool :=
  match v with
  | JStr s => includes arr s
  | _ => false
  end.

Section Graph.
Context `{Host} `{Three}.

(** The type of [createNode], as seen by the methods that call back
    into it. *)
Definition createNodeT : Type :=
  gmap string nodeData -> string -> option Material -> bool -> bool ->
  Build (option Object3D).

(** The body of the loop over [lodData.lodNodes]. *)
Definition addLodLevel (createNode : createNodeT)
    (graphData : gmap string nodeData) (parentMaterial : option Material)
    (parentCastShadow parentReceiveShadow : bool)
    (lod : Object3D) (lodEntry : lodEntry) : Build Object3D :=
  match le_mindist lodEntry with
  | JNum mindist =>
      if negb (truthy (le_nodeId lodEntry)) then mret lod
      else
        lodChild ← createNode graphData (ToString (le_nodeId lodEntry))
                     parentMaterial parentCastShadow parentReceiveShadow;
        match lodChild with
        | Some child => mret (addLevel lod child mindist)
        | None => mret lod
        end
  | _ => mret lod
  end.

(** [createLOD(graphData, lodData, parentMaterial, parentCastShadow,
    parentReceiveShadow)]; [lodData] is [None] when the caller passes
    [undefined]. *)
Definition createLOD (createNode : createNodeT)
    (graphData : gmap string nodeData) (data : option lodData)
    (parentMaterial : option Material)
    (parentCastShadow parentReceiveShadow : bool) : Build (option Object3D) :=
  match data with
  | Some {| lod_lodNodes := Some lodNodes; lod_transforms := transforms |} =>
      id ← newObject;
      let state :=
        match transforms with
        | Some ts => applyTransformations newObject3DState ts
        | None => newObject3DState
        end in
      lod ← forEach (addLodLevel createNode graphData parentMaterial
                       parentCastShadow parentReceiveShadow)
               lodNodes (LOD id state []);
      mret (Some lod)
  | _ => mret None
  end.

(** Runs [createPrimitive] on the contents held by the parser; the
    call does not return when a loop of the primitive has no end. *)
Definition buildPrimitive (primitiveData : jsobject)
    (parentMaterial : option Material) : Build (option Mesh) := fun s =>
  if loopsEnd primitiveData then
    let '(mesh, contents, _) :=
      createPrimitive primitiveData parentMaterial (gp_contents s) in
    Done mesh
      (mkGraphParser contents (gp_processedNodes s) (gp_nodes s)
         (gp_objects s))
  else OutOfFuel.

(** [referencedNode.clone(true)] *)
Definition cloneObject (o : Object3D) : Build Object3D := fun s =>
  let '(o', next) := clone o (gp_objects s) in
  Done o'
    (mkGraphParser (gp_contents s) (gp_processedNodes s) (gp_nodes s) next).

(** [handleChild(group, childData, graphData, parentMaterial,
    parentCastShadow, parentReceiveShadow)]: the group after the call. *)
Definition handleChild (createNode : createNodeT) (group : Object3D)
    (childData : childData) (graphData : gmap string nodeData)
    (parentMaterial : option Material)
    (parentCastShadow parentReceiveShadow : bool) : Build Object3D :=
  let type := prop (cd_fields childData) "type" in
  let nodeId := prop (cd_fields childData) "nodeId" in
  if strictEq type "lod" then
    lod ← createLOD createNode graphData
            (Some (mkLodData (cd_lodNodes childData) (cd_transforms childData)))
            parentMaterial parentCastShadow parentReceiveShadow;
    match lod with
    | Some l => mret (add group l)
    | None => mret group
    end
  else if strictEq type "noderef" then
    if negb (truthy nodeId) then mret group
    else
      referencedNode ← createNode graphData (ToString nodeId) parentMaterial
                         parentCastShadow parentReceiveShadow;
      match referencedNode with
      | Some node =>
          clonedNode ← cloneObject node;
          let clonedNode :=
            match parentMaterial with
            | Some m => applyMaterialToNode clonedNode m
                          parentCastShadow parentReceiveShadow
            | None => clonedNode
            end in
          mret (add group clonedNode)
      | None => mret group
      end
  else if includesValue primitiveTypes type then
    primitive ← buildPrimitive (cd_fields childData) parentMaterial;
    match primitive with
    | Some mesh =>
        id ← newObject;
        mret (add group
                (MeshObject id
                   (mkMesh (mesh_geometry mesh) (mesh_material mesh)
                      (parentCastShadow || mesh_castShadow mesh)
                      (parentReceiveShadow || mesh_receiveShadow mesh))))
    | None => mret group
    end
  else if includesValue lightTypes type then
    match createLight (cd_fields childData) (orElse nodeId (JStr "")) with
    | (Some lightGroup, _) =>
        id ← newObject;
        mret (add group (LightObject id lightGroup))
    | (None, _) => mret group
    end
  else mret group.

(** The part of [nodeData] that [createLOD] reads when an entry of the
    table is used as a LOD. *)
Definition asLodData (entry : nodeData) : lodData :=
  mkLodData (nd_lodNodes entry) (nd_transforms entry).

(** The body of the loop over the direct children. *)
Definition directChild (createNode : createNodeT)
    (graphData : gmap string nodeData) (nodeMaterial : option Material)
    (nodeCastShadow nodeReceiveShadow : bool)
    (group : Object3D) (child : string * childData) : Build Object3D :=
  let '(childId, childData) := child in
  if String.eqb childId "nodesList" || String.eqb childId "lodsList"
  then mret group
  else
    let childData :=
      if negb (truthy (prop (cd_fields childData) "nodeId"))
      then mkChildData (setProp (cd_fields childData) "nodeId" (JStr childId))
             (cd_lodNodes childData) (cd_transforms childData)
      else childData in
    handleChild createNode group childData graphData nodeMaterial
      nodeCastShadow nodeReceiveShadow.

(** The body of the loop over [nodesList]. *)
Definition listedNode (createNode : createNodeT)
    (graphData : gmap string nodeData) (nodeMaterial : option Material)
    (nodeCastShadow nodeReceiveShadow : bool)
    (group : Object3D) (childNodeId : jsval) : Build Object3D :=
  handleChild createNode group
    (mkChildData [("type", JStr "noderef"); ("nodeId", childNodeId)] None None)
    graphData nodeMaterial nodeCastShadow nodeReceiveShadow.

(** The body of the loop over [lodsList]. *)
Definition listedLod (createNode : createNodeT)
    (graphData : gmap string nodeData) (nodeMaterial : option Material)
    (nodeCastShadow nodeReceiveShadow : bool)
    (group : Object3D) (lodNodeId : jsval) : Build Object3D :=
  lod ← createLOD createNode graphData
          (asLodData <$> graphData !! ToString lodNodeId)
          nodeMaterial nodeCastShadow nodeReceiveShadow;
  match lod with
  | Some l => mret (add group l)
  | None => mret group
  end.

(** The three loops over [nodeData.children], in source order. *)
Definition expandChildren (createNode : createNodeT)
    (graphData : gmap string nodeData) (children : option childrenData)
    (nodeMaterial : option Material) (nodeCastShadow nodeReceiveShadow : bool)
    (group : Object3D) : Build Object3D :=
  match children with
  | None => mret group
  | Some ch =>
      group ← forEach (directChild createNode graphData nodeMaterial
                         nodeCastShadow nodeReceiveShadow)
                (ch_direct ch) group;
      group ← forEach (listedNode createNode graphData nodeMaterial
                         nodeCastShadow nodeReceiveShadow)
                (default [] (ch_nodesList ch)) group;
      forEach (listedLod createNode graphData nodeMaterial
                 nodeCastShadow nodeReceiveShadow)
        (default [] (ch_lodsList ch)) group
  end.

(** The two assignments that close [createNode]. *)
Definition cacheNode (key : string) (group : Object3D) : Build unit := fun s =>
  Done tt
    (mkGraphParser (gp_contents s) ({[ key ]} ∪ gp_processedNodes s)
       (<[key := group]> (gp_nodes s)) (gp_objects s)).

(** The material a node hands to its children.  A [materialId] that
    is a name the table inherits finds a function, which no value of
    the model stands for: the statements about [createNode] are about
    graphs without such an id ([plainMaterials]). *)
Definition resolveMaterial (materials : gmap string Material)
    (nodeData : nodeData) (parentMaterial : option Material)
  : option Material :=
  if truthy (nd_materialId nodeData) then
    match materials !! ToString (nd_materialId nodeData) with
    | Some m => Some m
    | None => parentMaterial
    end
  else parentMaterial.

(** What [graphData[nodeId]] yields under a name that the table
    inherits: a function, or the prototype, with none of the
    properties that [createNode] reads. *)
Definition inheritedNode : nodeData :=
  mkNodeData None JUndefined JUndefined JUndefined None None.

(** [graphData[nodeId]] as [createNode] reads it: the entry of the
    table, else what the table inherits under that name. *)
Definition lookupNode (graphData : gmap string nodeData) (nodeId : string)
  : option nodeData :=
  match graphData !! nodeId with
  | Some nodeData => Some nodeData
  | None => if includes inheritedNames nodeId then Some inheritedNode else None
  end.

(** The body of [createNode], with the recursive calls going through
    [createNode]. *)
Definition createNodeBody (createNode : createNodeT) : createNodeT :=
  fun graphData nodeId parentMaterial parentCastShadow parentReceiveShadow s =>
  let key := cacheKey nodeId parentMaterial in
  if decide (key ∈ gp_processedNodes s) then Done (gp_nodes s !! key) s
  else
    match lookupNode graphData nodeId with
    | None => Done None s
    | Some nodeData =>
        (id ← newObject;
         let state :=
           match nd_transforms nodeData with
           | Some ts => applyTransformations newObject3DState ts
           | None => newObject3DState
           end in
         let nodeMaterial :=
           resolveMaterial (mc_materials (gp_contents s)) nodeData
             parentMaterial in
         let nodeCastShadow :=
           parseBoolean (JBool parentCastShadow) false
           || parseBoolean (nd_castshadow nodeData) false in
         let nodeReceiveShadow :=
           parseBoolean (JBool parentReceiveShadow) false
           || parseBoolean (nd_receiveshadow nodeData) false in
         group ← expandChildren createNode graphData (nd_children nodeData)
                   nodeMaterial nodeCastShadow nodeReceiveShadow
                   (Group id state nodeCastShadow nodeReceiveShadow []);
         _ ← cacheNode key group;
         mret (Some group)) s
    end.

(** [createNode], unfolded to a recursion depth of [fuel]. *)
Fixpoint createNode (fuel : nat) : createNodeT :=
  match fuel with
  | O => fun _ _ _ _ _ _ => OutOfFuel
  | S fuel' => createNodeBody (createNode fuel')
  end.

(** [createNode] as a callback that does not return when it is called
    with [key] among the processed nodes. *)
Definition guardedBy (key : string) (createNode : createNodeT) : createNodeT :=
  fun graphData nodeId parentMaterial parentCastShadow parentReceiveShadow s =>
  if decide (key ∈ gp_processedNodes s) then OutOfFuel
  else createNode graphData nodeId parentMaterial parentCastShadow
         parentReceiveShadow s.

(** One step of the parser: a call of [createNode], [handleChild] or
    [createLOD] made on [s] has returned, leaving [s']. *)
Inductive parserStep (graphData : gmap string nodeData)
    (s s' : GraphParser) : Prop :=
  | createNode_step (fuel : nat) (nodeId : string)
      (parentMaterial : option Material) (cs rs : bool) (r : option Object3D) :
      createNode fuel graphData nodeId parentMaterial cs rs s = Done r s' ->
      parserStep graphData s s'
  | handleChild_step (fuel : nat) (group : Object3D) (childData : childData)
      (parentMaterial : option Material) (cs rs : bool) (group' : Object3D) :
      handleChild (createNode fuel) group childData graphData parentMaterial
        cs rs s = Done group' s' ->
      parserStep graphData s s'
  | createLOD_step (fuel : nat) (data : option lodData)
      (parentMaterial : option Material) (cs rs : bool) (lod : option Object3D) :
      createLOD (createNode fuel) graphData data parentMaterial cs rs s
      = Done lod s' ->
      parserStep graphData s s'.

(** [parseGraph(graphData, scene)]: the object added to the scene, if
    any.  [rootid] is [graphData.rootid]. *)
Definition parseGraph (fuel : nat) (rootid : jsval)
    (graphData : gmap string nodeData) : Build (option Object3D) :=
  if negb (truthy rootid) then mret None
  else createNode fuel graphData (ToString rootid) None false false.

(** *** The references between nodes *)

(** The node ids for which a loop over [lodNodes] calls [createNode]. *)
Definition lodRefs (lodNodes : option (list lodEntry)) : list string :=
  flat_map
    (fun e =>
       match le_mindist e with
       | JNum _ => if truthy (le_nodeId e) then [ToString (le_nodeId e)] else []
       | _ => []
       end)
    (default [] lodNodes).

(** The node ids for which [handleChild] calls [createNode], directly
    or through [createLOD]. *)
Definition childRefs (childData : childData) : list string :=
  let type := prop (cd_fields childData) "type" in
  let nodeId := prop (cd_fields childData) "nodeId" in
  if strictEq type "lod" then lodRefs (cd_lodNodes childData)
  else if strictEq type "noderef" then
    (if truthy nodeId then [ToString nodeId] else [])
  else [].

Definition directRefs (child : string * childData) : list string :=
  let '(childId, childData) := child in
  if String.eqb childId "nodesList" || String.eqb childId "lodsList" then []
  else
    childRefs
      (if negb (truthy (prop (cd_fields childData) "nodeId"))
       then mkChildData (setProp (cd_fields childData) "nodeId" (JStr childId))
              (cd_lodNodes childData) (cd_transforms childData)
       else childData).

Definition listedNodeRefs (childNodeId : jsval) : list string :=
  if truthy childNodeId then [ToString childNodeId] else [].

Definition listedLodRefs (graphData : gmap string nodeData)
    (lodNodeId : jsval) : list string :=
  match graphData !! ToString lodNodeId with
  | Some entry => lodRefs (nd_lodNodes entry)
  | None => []
  end.

(** The node ids that the body of [createNode] for [nodeId] passes to
    [createNode], in the order of the calls. *)
Definition references (graphData : gmap string nodeData) (nodeId : string)
  : list string :=
  match graphData !! nodeId with
  | Some {| nd_children := Some ch |} =>
      (flat_map directRefs (ch_direct ch)
       ++ flat_map listedNodeRefs (default [] (ch_nodesList ch))
       ++ flat_map (listedLodRefs graphData) (default [] (ch_lodsList ch)))%list
  | _ => []
  end.

(** No entry of the graph asks for its material under a name that the
    table of materials inherits. *)
Definition plainMaterials (graphData : gmap string nodeData) : Prop :=
  forall nodeId nodeData,
    graphData !! nodeId = Some nodeData ->
    truthy (nd_materialId nodeData) = true ->
    includes inheritedNames (ToString (nd_materialId nodeData)) = false.

(** [refersTo graphData a b]: node [a] references node [b]. *)
Definition refersTo (graphData : gmap string nodeData) (a b : string) : Prop :=
  b ∈ references graphData a.

(** Every primitive among the direct children of the node is built in
    finitely many steps: the loops of [createPrimitive] end, and the
    segment numbers are such that those of three.js do. *)
Definition nodeEnds (graphData : gmap string nodeData) (nodeId : string)
  : bool :=
  match graphData !! nodeId with
  | Some {| nd_children := Some ch |} =>
      forallb (fun child : string * childData =>
                 loopsEnd (cd_fields child.2)
                 && countsBounded (cd_fields child.2))
        (ch_direct ch)
  | _ => true
  end.

End Graph.

(** *** Predicates used in the statements about the graph builder *)

(** No underscore occurs in the string.  The uuids of three.js are
    made of hexadecimal digits and dashes, and so is ["null"] free of
    underscores; the last underscore of a cache key then separates the
    node id from the material part. *)
Fixpoint underscoreFree (s : string) : bool :=
  match s with
  | EmptyString => true
  | String c rest => negb (Ascii.eqb c "_") && underscoreFree rest
  end.

(** Every material of the table carries an underscore-free uuid. *)
Definition uuidsWellFormed (c : MyContents) : Prop :=
  forall k m, mc_materials c !! k = Some m -> underscoreFree (mat_uuid m) = true.

(** The ids of an object and of everything below it. *)
Fixpoint object_ids (o : Object3D) : list nat :=
  match o with
  | Group id _ _ _ children => id :: flat_map object_ids children
  | LOD id _ levels => id :: flat_map (fun l => object_ids l.1) levels
  | MeshObject id _ => [id]
  | LightObject id _ => [id]
  end.

(** The cached objects were constructed by this parser, and distinct
    keys hold distinct objects. *)
Definition cacheSound (s : GraphParser) : Prop :=
  (forall k o, gp_nodes s !! k = Some o -> object_id o < gp_objects s) /\
  (forall k k' o o',
      gp_nodes s !! k = Some o -> gp_nodes s !! k' = Some o' ->
      object_id o = object_id o' -> k = k').

(** [s'] was reached from [s]: objects were only added, and every
    cached object is the one cached in [s] or was constructed since. *)
Definition extends (s s' : GraphParser) : Prop :=
  gp_objects s <= gp_objects s' /\
  (forall k o, gp_nodes s' !! k = Some o ->
               gp_nodes s !! k = Some o \/ gp_objects s <= object_id o).

(** A computation that, from some recursion depth on, returns the same
    result whatever the depth. *)
Definition settles {A : Type} (c : nat -> outcome A) : Prop :=
  exists depth a s', forall fuel, depth <= fuel -> c fuel = Done a s'.

(** The state of a parser right after construction, over the given
    contents. *)
Definition newGraphParser (contents : MyContents) : GraphParser :=
  mkGraphParser contents ∅ ∅ 0.

(** A chain of references leads from the node into a cycle. *)
Definition reachesCycle `{Host} (graphData : gmap string nodeData)
    (n : string) : Prop :=
  exists c, rtc (refersTo graphData) n c /\ tc (refersTo graphData) c c.

(** No key of a node in [B] is in [processedNodes]. *)
Definition noneCached (B : string -> Prop) (s : GraphParser) : Prop :=
  forall n u, B n -> underscoreFree u = true ->
              n ++ "_" ++ u ∉ gp_processedNodes s.

(** The parser states from which a node of [B] is never found cached. *)
Definition clearOf (B : string -> Prop) (s : GraphParser) : Prop :=
  uuidsWellFormed (gp_contents s) /\ noneCached B s.

(** The material table holds well-formed uuids and [key] is not among
    the processed nodes. *)
Definition unmarked (key : string) (s : GraphParser) : Prop :=
  uuidsWellFormed (gp_contents s) /\ key ∉ gp_processedNodes s.

(** From [s], the two computations have the same outcome, and a state
    they return leaves [key] unmarked. *)
Definition agree {A : Type} (key : string) (c1 c2 : Build A)
    (s : GraphParser) : Prop :=
  c1 s = c2 s /\ forall a s', c1 s = Done a s' -> unmarked key s'.

(** The two callbacks agree on the nodes of [R], from every state that
    leaves [key] unmarked. *)
Definition agreeOn (key : string) (R : string -> Prop)
    (rec1 rec2 : createNodeT) (graphData : gmap string nodeData) : Prop :=
  forall n m cs rs s,
    R n -> underscoreFree (materialUUID m) = true -> unmarked key s ->
    agree key (rec1 graphData n m cs rs) (rec2 graphData n m cs rs) s.

(** [createNode] never returns on a node of [B], and leaves the states
    clear of [B] that way. *)
Definition stuckOn (B : string -> Prop) (createNode : createNodeT)
    (graphData : gmap string nodeData) : Prop :=
  forall n m cs rs s,
    underscoreFree (materialUUID m) = true -> clearOf B s ->
    (B n -> createNode graphData n m cs rs s = OutOfFuel) /\
    (forall r s', createNode graphData n m cs rs s = Done r s' -> clearOf B s').

(** A [createNode] that keeps the cache sound. *)
Definition keepsSound (createNode : createNodeT)
    (graphData : gmap string nodeData) : Prop :=
  forall n m cs rs s r s',
    cacheSound s -> createNode graphData n m cs rs s = Done r s' ->
    cacheSound s' /\ extends s s'.

(** From a sound [s], the children expansion that started right after
    the construction of the node's group ended in [s2]: [s2] is sound,
    and its cached objects are those of [s] or newer than the group. *)
Definition extendsFrom (s s2 : GraphParser) : Prop :=
  cacheSound s ->
  cacheSound s2 /\ S (gp_objects s) <= gp_objects s2 /\
  (forall k o, gp_nodes s2 !! k = Some o ->
               gp_nodes s !! k = Some o \/ S (gp_objects s) <= object_id o).

(** The ids handed out by a clone: the root gets [n], and every id of
    the copy lies between [n] and the next free id. *)
Definition freshCopy (o' : Object3D) (n n' : nat) : Prop :=
  object_id o' = n /\ n < n' /\
  forall i, i ∈ object_ids o' -> n <= i < n'.

(** [createNode] settles on the node [n], whatever the other
    arguments. *)
Definition settlesOn (createNode : nat -> createNodeT)
    (graphData : gmap string nodeData) (n : string) : Prop :=
  forall m cs rs s,
    settles (fun fuel => createNode fuel graphData n m cs rs s).

(** *** Sample graphs *)

Definition plainNode (children : option childrenData) : nodeData :=
  mkNodeData None JUndefined JUndefined JUndefined children None.

(** A root with a rectangle and two references to the same leaf. *)
Definition sampleGraph : gmap string nodeData :=
  <["root" :=
      plainNode
        (Some (mkChildrenData
                 [("floor", mkChildData [("type", JStr "rectangle")] None None)]
                 (Some [JStr "leaf"; JStr "leaf"]) None))]>
    (<["leaf" := plainNode None]> ∅).

(** A single node holding a polygon with infinitely many stacks; it
    refers to no node. *)
Definition endlessGraph : gmap string nodeData :=
  <["disc" :=
      plainNode
        (Some (mkChildrenData
                 [("rim", mkChildData [("type", JStr "polygon");
                                       ("stacks", JNum infinity)] None None)]
                 None None))]> ∅.

(** A node that lists itself. *)
Definition loopGraph : gmap string nodeData :=
  <["a" := plainNode (Some (mkChildrenData [] (Some [JStr "a"]) None))]> ∅.

(** *** Sample inputs *)

Definition translateBy (x y z : float) : transform :=
  mkTransform "translate" [("x", JNum x); ("y", JNum y); ("z", JNum z)].

Definition sampleDirectional : jsobject :=
  [("type", JStr "directionallight");
   ("shadowleft", JNum 4); ("shadowright", JNum (-6));
   ("shadowbottom", JNum (-3)); ("shadowtop", JNum 2)].

Definition emptyContents : MyContents :=
  let plain uuid wire vertex :=
    mkMaterial uuid (mkColor 1 0 0) (mkColor 0 0 0) 30 (mkColor 0 0 0)
      false 1 wire true None None 1 None false vertex None None in
  mkMyContents ∅ ∅ (plain "uuid-default" false false)
    (plain "uuid-default-vertex" true true) 0.

Definition sampleMaterials : list (string * jsobject) :=
  [("wood", [("shininess", JNum 10)]);
   ("broken", [("shininess", JNum (-1))])].

Definition sampleTexture : Texture :=
  mkTexture "wood" (1%float, 1%float) true false.

(** A material with a colour map and the given texture lengths. *)
Definition sampleTextured (texlength_s texlength_t : float) : Material :=
  mkMaterial "uuid-wood" (mkColor 1 1 1) (mkColor 1 1 1) 30 (mkColor 0 0 0)
    false 1 false false (Some sampleTexture) None 1 None false false
    (Some texlength_s) (Some texlength_t).

Definition point3 (x y z : float) : jsval :=
  JObj [("x", JNum x); ("y", JNum y); ("z", JNum z)].

(** The right triangle (0,0,0), (4,0,0), (0,2,0): area 4, bounding box
    4 wide and 2 high. *)
Definition sampleTriangle : jsobject :=
  [("type", JStr "triangle");
   ("xyz1", point3 0 0 0); ("xyz2", point3 4 0 0); ("xyz3", point3 0 2 0)].

(** The rectangle from (-1,-1) to (1,1). *)
Definition sampleRectangle : jsobject :=
  [("type", JStr "rectangle");
   ("xy1", JObj [("x", JNum (-1)); ("y", JNum (-1))]);
   ("xy2", JObj [("x", JNum 1); ("y", JNum 1)])].

(** ** Further definitions *)

(** Two numbers of opposite signs, neither of them zero. *)
Definition oppositeSigns (p : float * float) : Prop :=
  PrimFloat.ltb p.1 0 = true /\ PrimFloat.ltb 0 p.2 = true \/
  PrimFloat.ltb 0 p.1 = true /\ PrimFloat.ltb p.2 0 = true.

(** The meshes below an object: those below the children of a group
    in the order of the children, and those below the levels of a LOD
    in the order of [levels]. *)
Fixpoint meshesOf (o : Object3D) : list Mesh :=
  match o with
  | Group _ _ _ _ children => flat_map meshesOf children
  | LOD _ _ levels => flat_map (fun l => meshesOf l.1) levels
  | MeshObject _ mesh => [mesh]
  | LightObject _ _ => []
  end.

(** An object and everything below it without the identities: what a
    copy has in common with its original. *)
Fixpoint shapeOf (o : Object3D) : Object3D :=
  match o with
  | Group _ st c r children => Group 0 st c r (List.map shapeOf children)
  | LOD _ st levels =>
      LOD 0 st (List.map (fun l => (shapeOf l.1, l.2)) levels)
  | MeshObject _ mesh => MeshObject 0 mesh
  | LightObject _ lightGroup => LightObject 0 lightGroup
  end.

(** What [applyMaterialToNode] does to one mesh. *)
Definition withMaterial (material : Material)
    (parentCastShadow parentReceiveShadow : bool) (mesh : Mesh) : Mesh :=
  mkMesh (mesh_geometry mesh) material
    (parentCastShadow || mesh_castShadow mesh)
    (parentReceiveShadow || mesh_receiveShadow mesh).

(** The map [processedNodes] and the table [nodes] hold the same
    keys. *)
Definition cacheSynced (s : GraphParser) : Prop :=
  dom (gp_nodes s) = gp_processedNodes s.

(** The distance of the level that an entry of [lodNodes] asks for;
    [None] for an entry that [createLOD] skips. *)
Definition levelDistance (e : lodEntry) : option float :=
  match le_mindist e with
  | JNum mindist => if truthy (le_nodeId e) then Some mindist else None
  | _ => None
  end.

(** ** MyCamera and the cameras of MyApp *)

(** A [THREE.PerspectiveCamera] or [THREE.OrthographicCamera] by its
    constructor arguments. *)
Inductive Projection : Type :=
| PerspectiveCamera (fov aspect near far : float)
| OrthographicCamera (left right top bottom near far : float).

(** A camera with its [position] and the [target] that [MyCamera]
    attaches; the camera [MyApp] builds for itself has no [target]. *)
Record Camera : Type := mkCamera {
  cam_projection : Projection;
  cam_position : Vector3;
  cam_target : option Vector3
}.

(** The [OrbitControls] of the application: the camera they steer and
    their [target]. *)
Record OrbitControls : Type := mkOrbitControls {
  oc_object : Camera;
  oc_target : Vector3
}.

(** The camera-related state of [MyApp]. *)
Record MyApp : Type := mkMyApp {
  app_cameras : gmap string Camera;
  app_activeCameraName : jsval;
  app_activeCamera : option Camera;
  app_controls : option OrbitControls
}.

(** The constructor of [MyApp]. *)
Definition newMyApp : MyApp := mkMyApp ∅ JNull None None.

Section Cameras.
Context `{Host}.

(** [window.innerWidth / window.innerHeight] *)
Variable aspect : float.

(** [initDefaultCamera()] *)
Definition initDefaultCamera (app : MyApp) : MyApp :=
  let perspective1 :=
    mkCamera (PerspectiveCamera 75 aspect 0.1 1000) (mkVector3 10 10 3) None in
  mkMyApp (<["Perspective" := perspective1]> (app_cameras app))
    (app_activeCameraName app) (app_activeCamera app) (app_controls app).

(** [setActiveCamera(cameraName)].  When [cameras] has no such camera
    the read of [this.activeCamera.target] throws: [None]. *)
Definition setActiveCamera (app : MyApp) (cameraName : jsval) : option MyApp :=
  match app_cameras app !! ToString cameraName with
  | None => None
  | Some activeCamera =>
      let target := default (mkVector3 0 0 0) (cam_target activeCamera) in
      Some (mkMyApp (app_cameras app) cameraName (Some activeCamera)
              (Some (mkOrbitControls activeCamera target)))
  end.

(** The cameras of the application once [init()] has set up the
    default camera and made it the active one. *)
Definition initCameras : option MyApp :=
  setActiveCamera (initDefaultCamera newMyApp) (JStr "Perspective").

(** The camera that the constructor of [MyCamera] builds from
    [cameraData], and the warning for an unsupported [type]. *)
Definition cameraOf (cameraData : jsobject) : Camera * list logEntry :=
  let type := orElse (prop cameraData "type") (JStr "perspective") in
  let near := validateNear (prop cameraData "near") 0.1 in
  let far := validateFar (prop cameraData "far") near 2000 in
  let '(projection, warnings) :=
    if strictEq type "perspective" then
      let angle := validateAngle (prop cameraData "angle") 0 90 50 in
      (PerspectiveCamera (numOr angle 50) aspect near far, [])
    else if strictEq type "orthogonal" then
      let leftRight :=
        validateLeftRight (toValidFloat (prop cameraData "left") (-5))
          (toValidFloat (prop cameraData "right") 5) (-5) 5 in
      let bottomTop :=
        validateBottomTop (toValidFloat (prop cameraData "bottom") (-5))
          (toValidFloat (prop cameraData "top") 5) (-5) 5 in
      (OrthographicCamera leftRight.1 leftRight.2 bottomTop.2 bottomTop.1
         near far, [])
    else
      (PerspectiveCamera 50 aspect 0.1 2000,
       [Warn "Camera type not specified or unsupported. Defaulting to Perspective Camera." []]) in
  (mkCamera projection
     (readVector3 (prop cameraData "location") 10 10 10)
     (Some (readVector3 (prop cameraData "target") 0 0 0)),
   warnings).

(** [new MyCamera(app, id, cameraData)]: the application afterwards.
    A table that holds the camera "Perspective" and no other is
    emptied first. *)
Definition newMyCamera (app : MyApp) (id : string) (cameraData : jsobject)
  : MyApp * list logEntry :=
  let cameras :=
    if (size (app_cameras app) =? 1)%nat
       && bool_decide (is_Some (app_cameras app !! "Perspective"))
    then ∅ else app_cameras app in
  let '(camera, warnings) := cameraOf cameraData in
  (mkMyApp (<[id := camera]> cameras) (app_activeCameraName app)
     (app_activeCamera app) (app_controls app),
   warnings).

(** An argument of a constructor that defaults it to [{}], as the
    constructor reads it: an object by its properties, [undefined] as
    the default, any other primitive as a value without the properties
    read, and [null] not at all, the first property read throwing. *)
Definition fieldsOf (v : jsval) : option jsobject :=
  match v with
  | JObj fields => Some fields
  | JNull => None
  | _ => Some []
  end.

(** [!firstCameraId] *)
Definition unset (firstCameraId : option string) : bool :=
  match firstCameraId with
  | Some id => String.eqb id ""
  | None => true
  end.

(** The [for ... in] loop of [cameraRendering]: the application, the
    value of [firstCameraId] and the warnings after the loop; [None]
    when a constructor throws. *)
Fixpoint createCameras (entries : list (string * jsval)) (app : MyApp)
    (firstCameraId : option string)
  : option (MyApp * option string * list logEntry) :=
  match entries with
  | [] => Some (app, firstCameraId, [])
  | (id, data) :: rest =>
      if String.eqb id "initial" then createCameras rest app firstCameraId
      else
        let firstCameraId :=
          if unset firstCameraId then Some id else firstCameraId in
        match fieldsOf data with
        | None => None
        | Some fields =>
            let '(app', w) := newMyCamera app id fields in
            match createCameras rest app' firstCameraId with
            | Some (app'', first, ws) => Some (app'', first, (w ++ ws)%list)
            | None => None
            end
        end
  end.

(** [cameraRendering(cameraData)]; [None] when it throws. *)
Definition cameraRendering (cameraData : jsobject) (app : MyApp)
  : option (MyApp * list logEntry) :=
  let initialCameraId := nullish (prop cameraData "initial") JNull in
  match createCameras cameraData app None with
  | None => None
  | Some (app, firstCameraId, warnings) =>
      if truthy initialCameraId
         && bool_decide (is_Some (app_cameras app !! ToString initialCameraId))
      then
        match setActiveCamera app initialCameraId with
        | Some app' => Some (app', warnings)
        | None => None
        end
      else if negb (unset firstCameraId) then
        let first := default "" firstCameraId in
        match setActiveCamera app (JStr first) with
        | Some app' =>
            Some (app',
                  (warnings
                   ++ [Warn "No initial camera specified. Defaulting to the first camera"
                         [JStr first]])%list)
        | None => None
        end
      else
        let '(app1, w) := newMyCamera app "DefaultCamera" [] in
        match setActiveCamera app1 (JStr "DefaultCamera") with
        | Some app' =>
            Some (app',
                  (warnings
                   ++ [Warn "'Cameras' data not found in the provided scene file. Creating a default camera." []]
                   ++ w)%list)
        | None => None
        end
  end.

End Cameras.

(** The ids under which the document declares cameras, in the order of
    the loop. *)
Fixpoint declaredCameras (cameraData : jsobject) : list string :=
  match cameraData with
  | [] => []
  | (id, _) :: rest =>
      if String.eqb id "initial" then declaredCameras rest
      else id :: declaredCameras rest
  end.

(** The first id of the list that is not the empty string: the value
    of [firstCameraId] after the loop when it is truthy. *)
Fixpoint firstCamera (ids : list string) : option string :=
  match ids with
  | [] => None
  | id :: rest => if String.eqb id "" then firstCamera rest else Some id
  end.

(** The declared cameras from the first one on that is not called
    "Perspective". *)
Fixpoint afterDefaults (ids : list string) : list string :=
  match ids with
  | [] => []
  | id :: rest =>
      if String.eqb id "Perspective" then afterDefaults rest else ids
  end.

(** The camera that [cameraRendering] makes the active one when it
    does not throw: the one named by [initial] when that is truthy and
    names a camera of [table], else the first declared camera with a
    truthy id, else the camera "DefaultCamera". *)
Definition chosenCamera `{Host} (cameraData : jsobject)
    (table : list string) : jsval :=
  let initial := nullish (prop cameraData "initial") JNull in
  if truthy initial && bool_decide (ToString initial ∈ table) then initial
  else match firstCamera (declaredCameras cameraData) with
       | Some first => JStr first
       | None => JStr "DefaultCamera"
       end.

(** The value of [firstCameraId] after the loop over the ids [ids],
    from the value [first] before it. *)
Definition firstAfter (first : option string) (ids : list string)
  : option string :=
  fold_left (fun f id => if unset f then Some id else f) ids first.

(** A table to which the constructor of [MyCamera] adds without
    emptying it first, by its keys. *)
Definition settled (D : gset string) : Prop :=
  D <> ∅ /\ ~ (size D = 1 /\ "Perspective" ∈ D).

(** No camera of the document is declared as [null]. *)
Definition noNullCamera (cameraData : jsobject) : Prop :=
  forall id v, (id, v) ∈ cameraData -> id <> "initial" -> v <> JNull.

(** The document names cameras by names of their own: no camera is
    declared as "__proto__" and [initial] is no inherited name, so
    that the table is read and written by its entries alone. *)
Definition ownNames `{Host} (cameraData : jsobject) : Prop :=
  ("__proto__" ∉ declaredCameras cameraData) /\
  ToString (nullish (prop cameraData "initial") JNull) ∉ inheritedNames.

(** A document with two cameras. *)
Definition sampleCameras : jsobject :=
  [("initial", JStr "top");
   ("front", JObj [("type", JStr "perspective"); ("angle", JNum 60)]);
   ("top", JObj [("type", JStr "orthogonal"); ("left", JNum (-8))])].

(** A document whose first camera takes the name of the application's
    own. *)
Definition sampleShadowed : jsobject :=
  [("Perspective", JObj [("angle", JNum 60)]);
   ("top", JObj [("type", JStr "orthogonal")])].

(** ** MyTextures and texturesRendering *)

(** [String.prototype.trim], which the engine provides. *)
Class StringOps : Type := { trim : string -> string }.

Section Textures.
Context `{StringOps}.

(** [validateString(value, defaultValue)] *)
Definition validateString (value defaultValue : jsval) : jsval :=
  match value with
  | JStr s => if negb (String.eqb (trim s) "") then value else defaultValue
  | _ => defaultValue
  end.

(** The loop of the constructor of [MyTextures] over the levels
    [levels]: the paths pushed until the first level that is missing
    or invalid. *)
Fixpoint collectMipmaps (textureData : jsobject) (levels : list nat)
  : list jsval :=
  match levels with
  | [] => []
  | i :: rest =>
      let mipmapKey := "mipmap" ++ pretty i in
      let mipmapPath := validateString (prop textureData mipmapKey) JNull in
      if truthy mipmapPath
      then mipmapPath :: collectMipmaps textureData rest
      else []
  end.

(** An instance of the class [MyTextures]. *)
Record MyTextures : Type := mkMyTextures {
  mt_textureId : jsval;
  mt_filepath : jsval;
  mt_isVideo : bool;
  mt_mipmaps : list jsval
}.

(** [new MyTextures(textureId, textureData)] *)
Definition newMyTextures (textureId : string) (textureData : jsobject)
  : MyTextures :=
  {| mt_textureId := validateString (JStr textureId) JNull;
     mt_filepath := validateString (prop textureData "filepath") JNull;
     mt_isVideo := parseBoolean (prop textureData "isVideo") false;
     mt_mipmaps := collectMipmaps textureData (seq 0 8) |}.

(** The loader that [loadTextureAsync] hands the texture to:
    [loadVideoTexture], [loadCustomMipmaps], which falls back to
    [loadSingleTexture] on the file path, [loadSingleTexture], or none,
    the promise resolving to [null] after a warning. *)
Inductive Loader : Type :=
| loadVideoTexture (filepath : jsval)
| loadCustomMipmaps (mipmaps : list jsval) (filepath : jsval)
| loadSingleTexture (filepath : jsval)
| notLoaded.

(** [loadTextureAsync()] *)
Definition loadTextureAsync (t : MyTextures) : Loader * list logEntry :=
  if mt_isVideo t && truthy (mt_filepath t)
  then (loadVideoTexture (mt_filepath t), [])
  else if (0 <? length (mt_mipmaps t))%nat
  then (loadCustomMipmaps (mt_mipmaps t) (mt_filepath t), [])
  else if truthy (mt_filepath t)
  then (loadSingleTexture (mt_filepath t), [])
  else (notLoaded, [Warn "Invalid filepath or mipmaps. Texture not loaded." []]).

(** The [for ... in] loop of [texturesRendering] over the entries of
    [texturesData], with [textures] the keys of the table: the loads
    started, each under the id whose entry of the table it fills, and
    the warnings; [None] when a constructor throws.  The table is
    filled when the loads end, after the loop. *)
Fixpoint scheduleTextures (texturesData : jsobject) (textures : gset string)
  : option (list (string * Loader) * list logEntry) :=
  match texturesData with
  | [] => Some ([], [])
  | (textureId, textureData) :: rest =>
      if String.eqb textureId "" || tableHas textures textureId
      then scheduleTextures rest textures
      else
        match fieldsOf textureData with
        | None => None
        | Some fields =>
            let myTexture := newMyTextures textureId fields in
            let '(started, warnings) :=
              if truthy (mt_textureId myTexture)
                 && truthy (mt_filepath myTexture)
              then
                let '(loader, w) := loadTextureAsync myTexture in
                ([(textureId, loader)], w)
              else
                ([], [Warn "Invalid or missing data for texture ID. Skipping texture."
                        [JStr textureId]]) in
            match scheduleTextures rest textures with
            | Some (loads, ws) =>
                Some ((started ++ loads)%list, (warnings ++ ws)%list)
            | None => None
            end
        end
  end.

(** [texturesRendering(texturesData)] up to the wait for the loads. *)
Definition texturesRendering (texturesData : jsobject)
    (textures : gset string)
  : option (list (string * Loader) * list logEntry) :=
  if (length texturesData =? 0)%nat
  then Some ([], [Warn "'Textures' data not found in the provided scene file." []])
  else scheduleTextures texturesData textures.

End Textures.

(** A host whose [trim] removes nothing; used where a concrete host is
    needed and the strings have no white space at their ends. *)
Definition sampleStringOps : StringOps := {| trim := fun s => s |}.

(** A document with a texture that has two mipmap levels and a gap
    after them, a video, and a texture without file path. *)
Definition sampleTextures : jsobject :=
  [("wood", JObj [("filepath", JStr "wood.jpg");
                  ("mipmap0", JStr "wood0.jpg"); ("mipmap1", JStr "wood1.jpg");
                  ("mipmap3", JStr "wood3.jpg")]);
   ("screen", JObj [("filepath", JStr "clip.mp4"); ("isVideo", JBool true)]);
   ("bare", JObj [("mipmap0", JStr "bare0.jpg")])].

(** ** The labels of MyGuiInterface *)

(** A string as the sequence of its UTF-16 code units, which is what
    [length] and [substring] count: a character outside the basic
    plane takes two of them. *)
Definition codeUnits : Type := list N.

(** The three dots ["..."]. *)
Definition ellipsis : codeUnits := [46; 46; 46]%N.

(** [truncateString(str, maxLength)] on a string and an integer;
    [substring] counts a negative end as 0 and an end beyond the
    string as its length. *)
Definition truncateString (str : codeUnits) (maxLength : Z) : codeUnits :=
  if (maxLength <? Z.of_nat (length str))%Z
  then (take (Z.to_nat (maxLength - 3)) str ++ ellipsis)%list
  else str.

(** The texture references of the entry are no names that the table
    of textures inherits.  Under such a name [getTexture] finds a
    function, which the model of the materials does not represent. *)
Definition plainRefs `{Host} (materialData : jsobject) : bool :=
  forallb
    (fun k =>
       negb (truthy (prop materialData k))
       || negb (includes inheritedNames (ToString (prop materialData k))))
    ["textureref"; "bumpref"; "specularref"].

(** What a material was made with, its textures named by the id they
    were loaded under: a texture is one object, shared with the table
    and with the other materials that bind it, so that its wrapping
    and [repeat] are those of the last assignment to it. *)
Definition parametersOf (m : Material) :=
  (mat_color m, mat_specular m, mat_shininess m, mat_emissive m,
   mat_transparent m, mat_opacity m, mat_wireframe m, mat_doubleSide m,
   tex_id <$> mat_map m, tex_id <$> mat_bumpMap m, mat_bumpScale m,
   tex_id <$> mat_specularMap m, mat_flatShading m, mat_vertexColors m,
   mat_texlength_s m, mat_texlength_t m).

(** A material with the parameters of one that [MyMaterials] lets
    through: a shininess that is not negative, an opacity in [0, 1],
    texture lengths and a bump scale that are numbers, and a colour
    map, if any, that is a texture of the table [textures] set to
    repeat once in each direction. *)
Definition validMaterial (textures : gmap string Texture) (m : Material)
  : Prop :=
  PrimFloat.leb 0 (mat_shininess m) = true /\
  PrimFloat.leb 0 (mat_opacity m) = true /\
  PrimFloat.leb (mat_opacity m) 1 = true /\
  isNaN (mat_bumpScale m) = false /\
  (exists s t,
      mat_texlength_s m = Some s /\ mat_texlength_t m = Some t /\
      isNaN s = false /\ isNaN t = false) /\
  match mat_map m with
  | Some t =>
      tex_repeat t = (1%float, 1%float) /\ tex_wrapRepeat t = true /\
      exists k t0, textures !! k = Some t0 /\ tex_id t = tex_id t0
  | None => True
  end.

(** * Properties *)

(** ** Comparisons of binary64 numbers *)

Section FloatFacts.

Lemma SFcompare_swap (x y : spec_float) :
  SFcompare y x = option_map CompOpp (SFcompare x y).
Proof.
  destruct x as [sx|sx| |sx mx ex], y as [sy|sy| |sy my ey];
    try destruct sx; try destruct sy; simpl; try reflexivity.
  - rewrite (Z.compare_antisym ey ex).
    destruct (ey ?= ex)%Z eqn:E; simpl; try reflexivity.
    rewrite (Pos.compare_cont_antisym mx my Eq). reflexivity.
  - rewrite (Z.compare_antisym ey ex).
    destruct (ey ?= ex)%Z eqn:E; simpl; try reflexivity.
    rewrite (Pos.compare_cont_antisym mx my Eq). simpl.
    destruct (Pos.compare_cont Eq my mx); reflexivity.
Qed.

Lemma ltb_asym (a b : float) :
  PrimFloat.ltb a b = true -> PrimFloat.ltb b a = false.
Proof.
  rewrite !FloatAxioms.ltb_spec. unfold SFltb. rewrite (SFcompare_swap (Prim2SF a) (Prim2SF b)).
  destruct (SFcompare (Prim2SF a) (Prim2SF b)) as [[]|]; simpl; congruence.
Qed.

Lemma ltb_not_nan_l (a b : float) :
  PrimFloat.ltb a b = true -> isNaN a = false.
Proof.
  unfold isNaN, PrimFloat.is_nan. rewrite FloatAxioms.ltb_spec, FloatAxioms.eqb_spec.
  unfold SFltb, SFeqb.
  destruct (Prim2SF a) as [[]|[]| |[] m e], (Prim2SF b) as [[]|[]| |[] m' e'];
    simpl; rewrite ?Z.compare_refl, ?Pos.compare_cont_refl;
    intros; try discriminate; reflexivity.
Qed.

Lemma ltb_not_nan_r (a b : float) :
  PrimFloat.ltb a b = true -> isNaN b = false.
Proof.
  unfold isNaN, PrimFloat.is_nan. rewrite FloatAxioms.ltb_spec, FloatAxioms.eqb_spec.
  unfold SFltb, SFeqb.
  destruct (Prim2SF a) as [[]|[]| |[] m e], (Prim2SF b) as [[]|[]| |[] m' e'];
    simpl; rewrite ?Z.compare_refl, ?Pos.compare_cont_refl;
    intros; try discriminate; reflexivity.
Qed.

End FloatFacts.

(** Rewrites the comparisons of the context into their specification on
    [spec_float], evaluates the constants and splits on the shape of [v]. *)
Ltac sf_const c :=
  let r := eval vm_compute in (Prim2SF c) in
  change (Prim2SF c) with r in *.

Ltac sf_specs :=
  unfold isNaN, numTruthy, Math_abs, PrimFloat.is_nan in *;
  rewrite ?FloatAxioms.ltb_spec, ?FloatAxioms.leb_spec, ?FloatAxioms.eqb_spec, ?FloatAxioms.opp_spec, ?FloatAxioms.abs_spec in *;
  sf_const 0%float; sf_const 1%float; sf_const 2%float;
  unfold SFltb, SFleb, SFeqb in *.

Ltac sf_cases v :=
  sf_specs;
  destruct (Prim2SF v) as [[]|[]| |[] ? ?];
  cbn [SFcompare SFabs SFopp negb andb orb] in *;
  rewrite ?Z.compare_refl, ?Pos.compare_cont_refl in *;
  try discriminate; try reflexivity.

Section FloatSigns.

Lemma neg_nonzero (v : float) :
  PrimFloat.ltb v 0 = true -> PrimFloat.eqb v 0 = false.
Proof. intros Hv. sf_cases v. Qed.

Lemma pos_nonzero (v : float) :
  PrimFloat.ltb 0 v = true -> PrimFloat.eqb v 0 = false.
Proof. intros Hv. sf_cases v. Qed.

Lemma neg_below_one (v : float) :
  PrimFloat.ltb v 0 = true -> PrimFloat.ltb v 1 = true.
Proof. intros Hv. sf_cases v. Qed.

Lemma above_one_nonzero (v : float) :
  PrimFloat.ltb 1 v = true -> PrimFloat.eqb v 0 = false.
Proof. intros Hv. sf_cases v. Qed.

Lemma above_two_nonzero (v : float) :
  PrimFloat.ltb 2 v = true -> PrimFloat.eqb v 0 = false.
Proof. intros Hv. sf_cases v. Qed.

Lemma neg_leb_zero (v : float) :
  PrimFloat.ltb v 0 = true -> PrimFloat.leb v 0 = true.
Proof. intros Hv. sf_cases v. Qed.

Lemma pos_zero_leb (v : float) :
  PrimFloat.ltb 0 v = true -> PrimFloat.leb 0 v = true.
Proof. intros Hv. sf_cases v. Qed.

Lemma pos_not_leb_zero (v : float) :
  PrimFloat.ltb 0 v = true -> PrimFloat.leb v 0 = false.
Proof. intros Hv. sf_cases v. Qed.

Lemma neg_not_zero_leb (v : float) :
  PrimFloat.ltb v 0 = true -> PrimFloat.leb 0 v = false.
Proof. intros Hv. sf_cases v. Qed.

Lemma nan_no_order (v c : float) :
  isNaN v = true ->
  PrimFloat.ltb v c = false /\ PrimFloat.ltb c v = false /\
  PrimFloat.leb v c = false /\ PrimFloat.leb c v = false /\
  PrimFloat.eqb v c = false.
Proof.
  unfold isNaN, PrimFloat.is_nan.
  rewrite !FloatAxioms.ltb_spec, !FloatAxioms.leb_spec, !FloatAxioms.eqb_spec. unfold SFltb, SFleb, SFeqb.
  rewrite (SFcompare_swap (Prim2SF v) (Prim2SF c)).
  destruct (Prim2SF v) as [[]|[]| |[] m e]; simpl;
    rewrite ?Z.compare_refl, ?Pos.compare_cont_refl; try discriminate.
  intros _. repeat split; reflexivity.
Qed.

End FloatSigns.

(** ** Validation utilities *)

Section ValidationFacts.
Context `{Host}.

Lemma parseFloat_nonzero (n : float) :
  isNaN n = false -> PrimFloat.eqb n 0 = false -> parseFloat (JNum n) = n.
Proof. intros Hn Hz. simpl. rewrite Hn, Hz. reflexivity. Qed.

Lemma toValidFloat_not_nan (value : jsval) (d : float) :
  isNaN d = false -> isNaN (toValidFloat value d) = false.
Proof.
  intros Hd. unfold toValidFloat.
  destruct (isNaN (parseFloat value)) eqn:E; assumption.
Qed.

Lemma toValidOpacity_below (value : jsval) (d : float) :
  PrimFloat.ltb (parseFloat value) 0 = true -> toValidOpacity value d = 0%float.
Proof.
  intros Hlt. unfold toValidOpacity.
  rewrite (ltb_not_nan_l _ _ Hlt).
  assert (Hmin : Math_min (parseFloat value) 1 = parseFloat value).
  { unfold Math_min. rewrite (ltb_not_nan_l _ _ Hlt), (neg_below_one _ Hlt).
    reflexivity. }
  rewrite Hmin. unfold Math_max.
  rewrite (ltb_not_nan_l _ _ Hlt), Hlt. reflexivity.
Qed.

Lemma toValidOpacity_above (value : jsval) (d : float) :
  PrimFloat.ltb 1 (parseFloat value) = true -> toValidOpacity value d = 1%float.
Proof.
  intros Hgt. unfold toValidOpacity.
  rewrite (ltb_not_nan_r _ _ Hgt).
  assert (Hmin : Math_min (parseFloat value) 1 = 1%float).
  { unfold Math_min. rewrite (ltb_not_nan_r _ _ Hgt), (ltb_asym _ _ Hgt), Hgt.
    reflexivity. }
  rewrite Hmin. reflexivity.
Qed.

Lemma toValidFloat_ordered (value : jsval) (d c : float) :
  PrimFloat.ltb (parseFloat value) c = true \/
  PrimFloat.ltb c (parseFloat value) = true ->
  toValidFloat value d = parseFloat value.
Proof.
  intros Hc. unfold toValidFloat.
  destruct Hc as [Hc|Hc];
    [rewrite (ltb_not_nan_l _ _ Hc) | rewrite (ltb_not_nan_r _ _ Hc)];
    reflexivity.
Qed.

(** C4 (as amended): for an input whose numeric reading lies outside
    the range, [validatePenumbra] (range [0,1]) and [validateDecay]
    (range [0,2]) return the default, whereas [toValidOpacity] clamps to
    the nearest bound: [0] below the range and [1] above it, whatever
    the default. *)
Theorem out_of_range_policy (value : jsval) (d : float) :
  (PrimFloat.ltb (parseFloat value) 0 = true -> toValidOpacity value d = 0%float) /\
  (PrimFloat.ltb 1 (parseFloat value) = true -> toValidOpacity value d = 1%float) /\
  (PrimFloat.ltb (parseFloat value) 0 = true \/
   PrimFloat.ltb 1 (parseFloat value) = true -> validatePenumbra value d = d) /\
  (PrimFloat.ltb (parseFloat value) 0 = true \/
   PrimFloat.ltb 2 (parseFloat value) = true -> validateDecay value d = d).
Proof.
  split; [apply toValidOpacity_below|].
  split; [apply toValidOpacity_above|].
  split; intros Hout.
  - unfold validatePenumbra.
    assert (E : toValidFloat value d = parseFloat value).
    { destruct Hout as [Hc|Hc];
        [apply (toValidFloat_ordered value d 0) | apply (toValidFloat_ordered value d 1)];
        auto. }
    rewrite E. destruct Hout as [-> | ->]; [reflexivity |].
    rewrite orb_true_r. reflexivity.
  - unfold validateDecay.
    assert (E : toValidFloat value d = parseFloat value).
    { destruct Hout as [Hc|Hc];
        [apply (toValidFloat_ordered value d 0) | apply (toValidFloat_ordered value d 2)];
        auto. }
    rewrite E. destruct Hout as [-> | ->]; [reflexivity |].
    rewrite orb_true_r. reflexivity.
Qed.

(** C5 (as amended): the axis-pair validators return the defaults when
    either bound is exactly zero; when both bounds are negative or both
    are positive the magnitudes are kept and the signs normalised to
    (negative, positive); a pair of opposite signs is returned as it
    is, also when the low bound is the positive one. *)
Theorem axis_pair_policy (lo hi dlo dhi : float) :
  validateBottomTop lo hi dlo dhi = validateLeftRight lo hi dlo dhi /\
  (PrimFloat.eqb lo 0 = true \/ PrimFloat.eqb hi 0 = true ->
   validateLeftRight lo hi dlo dhi = (dlo, dhi)) /\
  ((PrimFloat.ltb lo 0 = true /\ PrimFloat.ltb hi 0 = true) \/
   (PrimFloat.ltb 0 lo = true /\ PrimFloat.ltb 0 hi = true) ->
   validateLeftRight lo hi dlo dhi
   = (PrimFloat.opp (Math_abs lo), Math_abs hi)) /\
  ((PrimFloat.ltb lo 0 = true /\ PrimFloat.ltb 0 hi = true) \/
   (PrimFloat.ltb 0 lo = true /\ PrimFloat.ltb hi 0 = true) ->
   validateLeftRight lo hi dlo dhi = (lo, hi)).
Proof.
  split; [reflexivity|]. unfold validateLeftRight.
  split; [|split].
  - intros [-> | ->]; [reflexivity | rewrite orb_true_r; reflexivity].
  - intros [[Hl Hh] | [Hl Hh]].
    + rewrite (neg_nonzero _ Hl), (neg_nonzero _ Hh), Hl, (neg_leb_zero _ Hh).
      reflexivity.
    + rewrite (pos_nonzero _ Hl), (pos_nonzero _ Hh), Hl, (pos_zero_leb _ Hh),
        (ltb_asym _ _ Hl). reflexivity.
  - intros [[Hl Hh] | [Hl Hh]].
    + rewrite (neg_nonzero _ Hl), (pos_nonzero _ Hh), Hl, (pos_not_leb_zero _ Hh),
        (ltb_asym _ _ Hl). reflexivity.
    + rewrite (pos_nonzero _ Hl), (neg_nonzero _ Hh), Hl, (neg_not_zero_leb _ Hh),
        (ltb_asym _ _ Hl). reflexivity.
Qed.

(** C6 (as amended): [parseBoolean] returns the supplied default only
    for values that are neither boolean, string nor number
    ([undefined], [null], objects).  A string other than "true" / "1"
    and the number zero yield [false] whatever the default. *)
Theorem parseBoolean_fallback :
  (forall (s : string) (d : bool),
      includes ["true"; "1"] (toLowerCase s) = false ->
      parseBoolean (JStr s) d = false) /\
  (forall (n : float) (d : bool),
      PrimFloat.eqb n 0 = true -> parseBoolean (JNum n) d = false) /\
  (forall (v : jsval) (d : bool),
      typeof v = TUndefined \/ typeof v = TObject -> parseBoolean v d = d).
Proof.
  split; [|split].
  - intros s d Hs. simpl. exact Hs.
  - intros n d Hn. simpl. rewrite Hn. reflexivity.
  - intros v d [Hv|Hv]; destruct v; simpl in *; try discriminate; reflexivity.
Qed.

End ValidationFacts.

Lemma out_of_range_policy_witness :
  @toValidOpacity sampleHost (JNum (-1)) 1 = 0%float /\
  @toValidOpacity sampleHost (JNum 3) 0.5 = 1%float /\
  @validatePenumbra sampleHost (JNum 3) 0.25 = 0.25%float /\
  @validateDecay sampleHost (JNum (-1)) 1.5 = 1.5%float.
Proof.
  split; [|split; [|split]].
  - apply (@out_of_range_policy sampleHost (JNum (-1)) 1). reflexivity.
  - apply (@out_of_range_policy sampleHost (JNum 3) 0.5). reflexivity.
  - apply (@out_of_range_policy sampleHost (JNum 3) 0.25). right. reflexivity.
  - apply (@out_of_range_policy sampleHost (JNum (-1)) 1.5). left. reflexivity.
Defined.

(** The opacity validator does not hand back its default on an
    out-of-range number: [-1] with default [1] gives [0], and [3] with
    default [0.5] gives [1]. *)
Lemma toValidOpacity_not_default :
  PrimFloat.ltb (-1) 0 = true /\
  @toValidOpacity sampleHost (JNum (-1)) 1 <> 1%float /\
  PrimFloat.ltb 1 3 = true /\
  @toValidOpacity sampleHost (JNum 3) 0.5 <> 0.5%float.
Proof.
  split; [reflexivity|]. split; [|split; [reflexivity|]]; intros E.
  - apply (f_equal (fun x => PrimFloat.eqb x 1)) in E.
    vm_compute in E. discriminate.
  - apply (f_equal (fun x => PrimFloat.eqb x 1)) in E.
    vm_compute in E. discriminate.
Qed.

Lemma axis_pair_policy_witness :
  validateLeftRight 0 5 (-5) 5 = ((-5)%float, 5%float) /\
  validateLeftRight 3 7 (-5) 5 = (PrimFloat.opp (Math_abs 3), Math_abs 7) /\
  validateLeftRight 3 (-7) (-5) 5 = (3%float, (-7)%float).
Proof.
  split; [|split].
  - apply (axis_pair_policy 0 5 (-5) 5). left. reflexivity.
  - apply (axis_pair_policy 3 7 (-5) 5). right. split; reflexivity.
  - apply (axis_pair_policy 3 (-7) (-5) 5). right. split; reflexivity.
Defined.

(** Two bounds of the same sign are not replaced by the defaults, and a
    positive low bound paired with a negative high bound is not
    sign-normalised. *)
Lemma axis_pair_not_defaults :
  validateLeftRight 3 7 (-5) 5 = ((-3)%float, 7%float) /\
  validateLeftRight 3 7 (-5) 5 <> ((-5)%float, 5%float) /\
  validateBottomTop 3 (-7) (-5) 5 = (3%float, (-7)%float) /\
  validateBottomTop 3 (-7) (-5) 5 <> ((-3)%float, 7%float).
Proof.
  split; [reflexivity|]. split; [|split; [reflexivity|]]; intros E.
  - apply (f_equal (fun p => PrimFloat.eqb (fst p) (-5))) in E.
    vm_compute in E. discriminate.
  - apply (f_equal (fun p => PrimFloat.eqb (fst p) 3)) in E.
    vm_compute in E. discriminate.
Qed.

Lemma parseBoolean_fallback_witness :
  parseBoolean (JStr "off") true = false /\
  parseBoolean (JNum 0) true = false /\
  parseBoolean JNull true = true.
Proof.
  destruct parseBoolean_fallback as (Hs & Hn & Ho).
  split; [|split].
  - apply Hs. reflexivity.
  - apply Hn. reflexivity.
  - apply Ho. right. reflexivity.
Defined.

(** A string that is none of "true" / "1" does not yield the default:
    with default [true], the string "off" gives [false]; so does the
    number zero. *)
Lemma parseBoolean_string_not_default :
  includes ["true"; "1"] (toLowerCase "off") = false /\
  parseBoolean (JStr "off") true = false /\
  parseBoolean (JStr "off") true <> true.
Proof. repeat split; discriminate. Qed.

(** ** applyTransformations *)

Section TransformFacts.
Context `{Host}.

Lemma applyTransformation_position (g : Object3DState) (t : transform) :
  o_position (applyTransformation g t)
  = if String.eqb (t_type t) "translate" then translationOf (t_amount t)
    else o_position g.
Proof.
  unfold applyTransformation.
  destruct (String.eqb (t_type t) "translate"); [reflexivity|].
  destruct (String.eqb (t_type t) "rotate"); [reflexivity|].
  destruct (String.eqb (t_type t) "scale"); reflexivity.
Qed.

Lemma applyTransformation_rotation (g : Object3DState) (t : transform) :
  o_rotation (applyTransformation g t)
  = if String.eqb (t_type t) "rotate" then rotationOf (t_amount t)
    else o_rotation g.
Proof.
  unfold applyTransformation.
  destruct (String.eqb (t_type t) "translate") eqn:E1.
  - apply String.eqb_eq in E1. rewrite E1. reflexivity.
  - destruct (String.eqb (t_type t) "rotate"); [reflexivity|].
    destruct (String.eqb (t_type t) "scale"); reflexivity.
Qed.

Lemma applyTransformation_scale (g : Object3DState) (t : transform) :
  o_scale (applyTransformation g t)
  = if String.eqb (t_type t) "scale" then scaleOf (t_amount t)
    else o_scale g.
Proof.
  unfold applyTransformation.
  destruct (String.eqb (t_type t) "translate") eqn:E1.
  - apply String.eqb_eq in E1. rewrite E1. reflexivity.
  - destruct (String.eqb (t_type t) "rotate") eqn:E2.
    + apply String.eqb_eq in E2. rewrite E2. reflexivity.
    + destruct (String.eqb (t_type t) "scale"); reflexivity.
Qed.

(** A component that each step either overwrites (entries of type
    [ty]) or leaves alone ends up with what the last such entry wrote. *)
Lemma fold_component {A : Type} (proj : Object3DState -> A)
    (ty : string) (value : jsobject -> A) :
  (forall g t, proj (applyTransformation g t)
               = if String.eqb (t_type t) ty then value (t_amount t)
                 else proj g) ->
  forall ts g,
    proj (applyTransformations g ts)
    = match lastOfType ty ts with
      | Some t => value (t_amount t)
      | None => proj g
      end.
Proof.
  intros Hstep ts. unfold applyTransformations.
  induction ts as [|t rest IH]; intros g; simpl; [reflexivity|].
  rewrite IH. destruct (lastOfType ty rest); [reflexivity|].
  rewrite Hstep. destruct (String.eqb (t_type t) ty); reflexivity.
Qed.

(** C2 (as amended): [applyTransformations] walks the [transforms]
    array in declaration order and every entry overwrites the
    position, the rotation or the scale of the group; the resulting
    state therefore holds, for each of the three, the value of the
    last entry of that type (or the group's previous value when there
    is none).  Earlier entries of the same type leave no trace: there
    is no composition. *)
Theorem applyTransformations_last_wins
    (group : Object3DState) (transforms : list transform) :
  let result := applyTransformations group transforms in
  o_position result
  = match lastOfType "translate" transforms with
    | Some t => translationOf (t_amount t)
    | None => o_position group
    end /\
  o_rotation result
  = match lastOfType "rotate" transforms with
    | Some t => rotationOf (t_amount t)
    | None => o_rotation group
    end /\
  o_scale result
  = match lastOfType "scale" transforms with
    | Some t => scaleOf (t_amount t)
    | None => o_scale group
    end.
Proof.
  simpl. split; [|split].
  - apply (fold_component o_position "translate" translationOf).
    apply applyTransformation_position.
  - apply (fold_component o_rotation "rotate" rotationOf).
    apply applyTransformation_rotation.
  - apply (fold_component o_scale "scale" scaleOf).
    apply applyTransformation_scale.
Qed.

End TransformFacts.

(** Two translations in a row: the group ends up at the second amount,
    [(0,1,0)], exactly as if the first entry had not been there, and
    not at the composed translation [(1,1,0)]. *)
Lemma applyTransformations_drops_entries :
  let ts := [translateBy 1 0 0; translateBy 0 1 0] in
  @applyTransformations sampleHost newObject3DState ts
  = @applyTransformations sampleHost newObject3DState [translateBy 0 1 0] /\
  o_position (@applyTransformations sampleHost newObject3DState ts)
  = mkVector3 0 1 0 /\
  @composedTranslation sampleHost ts = mkVector3 1 1 0 /\
  o_position (@applyTransformations sampleHost newObject3DState ts)
  <> @composedTranslation sampleHost ts.
Proof.
  simpl. split; [reflexivity|]. split; [reflexivity|]. split; [reflexivity|].
  intros E. apply (f_equal (fun v => PrimFloat.eqb (v_x v) 0)) in E.
  vm_compute in E. discriminate.
Qed.

(** ** createLight *)

Section LightFacts.
Context `{Host}.

Lemma forced_nonpositive (v : float) :
  isNaN v = false ->
  PrimFloat.leb
    (if PrimFloat.ltb 0 v then PrimFloat.opp (Math_abs v) else v) 0 = true.
Proof. intros Hn. destruct (PrimFloat.ltb 0 v) eqn:E; sf_cases v. Qed.

Lemma forced_nonnegative (v : float) :
  isNaN v = false ->
  PrimFloat.leb 0
    (if PrimFloat.ltb v 0 then Math_abs v else v) = true.
Proof. intros Hn. destruct (PrimFloat.ltb v 0) eqn:E; sf_cases v. Qed.

(** The bounds and warnings of [directionalShadowBounds], bound by bound. *)
Lemma directionalShadowBounds_eq (lightData : jsobject) :
  let l := toValidFloat (prop lightData "shadowleft") (-5) in
  let r := toValidFloat (prop lightData "shadowright") 5 in
  let b := toValidFloat (prop lightData "shadowbottom") (-5) in
  let t := toValidFloat (prop lightData "shadowtop") 5 in
  directionalShadowBounds lightData
  = (mkShadowCamera
       (if PrimFloat.ltb 0 l then PrimFloat.opp (Math_abs l) else l)
       (if PrimFloat.ltb r 0 then Math_abs r else r)
       (if PrimFloat.ltb 0 b then PrimFloat.opp (Math_abs b) else b)
       (if PrimFloat.ltb t 0 then Math_abs t else t),
     (if PrimFloat.ltb 0 l
      then [Warn "Correcting shadowleft to negative" [JNum l]] else [])
     ++ (if PrimFloat.ltb r 0
         then [Warn "Correcting shadowright to positive" [JNum r]] else [])
     ++ (if PrimFloat.ltb 0 b
         then [Warn "Correcting shadowbottom to negative" [JNum b]] else [])
     ++ (if PrimFloat.ltb t 0
         then [Warn "Correcting shadowtop to positive" [JNum t]] else []))%list.
Proof.
  simpl. unfold directionalShadowBounds, validateShadowProperty.
  destruct (PrimFloat.ltb 0 (toValidFloat (prop lightData "shadowleft") (-5)));
  destruct (PrimFloat.ltb (toValidFloat (prop lightData "shadowright") 5) 0);
  destruct (PrimFloat.ltb 0 (toValidFloat (prop lightData "shadowbottom") (-5)));
  destruct (PrimFloat.ltb (toValidFloat (prop lightData "shadowtop") 5) 0);
  reflexivity.
Qed.

(** C9: a [directionallight] declaration always yields a light group,
    whatever its shadow bounds.  The bounds written to the shadow
    camera obey the sign convention: [left] and [bottom] are at most
    zero (a positive input is replaced by minus its magnitude), [right]
    and [top] are at least zero (a negative input is replaced by its
    magnitude), and the warnings printed are exactly one per corrected
    bound. *)
Theorem createLight_directional (lightData : jsobject) (lightId : jsval) :
  prop lightData "type" = JStr "directionallight" ->
  let l := toValidFloat (prop lightData "shadowleft") (-5) in
  let r := toValidFloat (prop lightData "shadowright") 5 in
  let b := toValidFloat (prop lightData "shadowbottom") (-5) in
  let t := toValidFloat (prop lightData "shadowtop") 5 in
  exists group color intensity camera,
    createLight lightData lightId
    = (Some group,
       (if PrimFloat.ltb 0 l
        then [Warn "Correcting shadowleft to negative" [JNum l]] else [])
       ++ (if PrimFloat.ltb r 0
           then [Warn "Correcting shadowright to positive" [JNum r]] else [])
       ++ (if PrimFloat.ltb 0 b
           then [Warn "Correcting shadowbottom to negative" [JNum b]] else [])
       ++ (if PrimFloat.ltb t 0
           then [Warn "Correcting shadowtop to positive" [JNum t]] else []))%list /\
    light_core (lg_light group) = DirectionalLight color intensity camera /\
    sc_left camera
    = (if PrimFloat.ltb 0 l then PrimFloat.opp (Math_abs l) else l) /\
    sc_right camera = (if PrimFloat.ltb r 0 then Math_abs r else r) /\
    sc_bottom camera
    = (if PrimFloat.ltb 0 b then PrimFloat.opp (Math_abs b) else b) /\
    sc_top camera = (if PrimFloat.ltb t 0 then Math_abs t else t) /\
    PrimFloat.leb (sc_left camera) 0 = true /\
    PrimFloat.leb 0 (sc_right camera) = true /\
    PrimFloat.leb (sc_bottom camera) 0 = true /\
    PrimFloat.leb 0 (sc_top camera) = true.
Proof.
  intros Hty l r b t.
  unfold createLight, createLightCore. rewrite Hty.
  pose proof (directionalShadowBounds_eq lightData) as Hb. simpl in Hb.
  fold l r b t in Hb. rewrite Hb. simpl.
  eexists _, _, _, _. split; [reflexivity|]. split; [reflexivity|]. simpl.
  repeat (split; [reflexivity|]).
  split; [|split; [|split]].
  - apply forced_nonpositive, toValidFloat_not_nan. reflexivity.
  - apply forced_nonnegative, toValidFloat_not_nan. reflexivity.
  - apply forced_nonpositive, toValidFloat_not_nan. reflexivity.
  - apply forced_nonnegative, toValidFloat_not_nan. reflexivity.
Qed.

End LightFacts.

Lemma createLight_directional_witness :
  exists group color intensity camera,
    @createLight sampleHost sampleDirectional (JStr "sun")
    = (Some group,
       [Warn "Correcting shadowleft to negative" [JNum 4];
        Warn "Correcting shadowright to positive" [JNum (-6)]]) /\
    light_core (lg_light group) = DirectionalLight color intensity camera /\
    sc_left camera = (-4)%float /\ sc_right camera = 6%float /\
    sc_bottom camera = (-3)%float /\ sc_top camera = 2%float.
Proof.
  destruct (@createLight_directional sampleHost sampleDirectional (JStr "sun") eq_refl)
    as (group & color & intensity & camera & Hc & Hl & Hleft & Hright & Hbottom & Htop & _).
  exists group, color, intensity, camera.
  repeat split; assumption.
Defined.

(** ** Material loading *)

Section MaterialFacts.
Context `{Host}.

Lemma negative_shininess_invalid (materialId : string)
    (materialData : jsobject) (textures : gmap string Texture) :
  PrimFloat.ltb (parseFloat (prop materialData "shininess")) 0 = true ->
  isValid (newMyMaterials materialId materialData textures) = false.
Proof.
  intros Hneg. unfold isValid. simpl.
  rewrite (toValidFloat_ordered _ 30 0) by (left; exact Hneg).
  apply neg_not_zero_leb, Hneg.
Qed.

Lemma scheduleMaterials_pending (materialsData : list (string * jsobject))
    (textures : gmap string Texture) (materials : gmap string Material)
    (materialId : string) (m : MyMaterials) :
  (materialId, m) ∈ (scheduleMaterials materialsData textures materials).1 ->
  exists materialData,
    (materialId, materialData) ∈ materialsData /\
    m = newMyMaterials materialId materialData textures /\
    isValid m = true.
Proof.
  induction materialsData as [|[k d] rest IH]; simpl.
  - intros Hin. inversion Hin.
  - destruct (scheduleMaterials rest textures materials) as [pending warnings]
      eqn:Erest. simpl in IH.
    assert (Hrest : (materialId, m) ∈ pending ->
                    exists materialData,
                      (materialId, materialData) ∈ (k, d) :: rest /\
                      m = newMyMaterials materialId materialData textures /\
                      isValid m = true).
    { intros Hin. destruct (IH Hin) as (md & Hmd & Hm & Hv).
      exists md. split; [right; exact Hmd | split; assumption]. }
    destruct (String.eqb k "" || tableHas (dom materials) k);
      [exact Hrest|].
    destruct (isValid (newMyMaterials k d textures)) eqn:Ev; [|exact Hrest].
    simpl. intros Hin. apply elem_of_cons in Hin as [Heq|Hin]; [|auto].
    inversion Heq; subst. exists d. split; [left|split]; auto.
Qed.

Lemma settleMaterials_other (pending : list (string * MyMaterials))
    (c : MyContents) (materialId : string) :
  materialId ∉ pending.*1 ->
  mc_materials (settleMaterials pending c) !! materialId
  = mc_materials c !! materialId.
Proof.
  unfold settleMaterials. revert c.
  induction pending as [|[k m] rest IH]; intros c Hnot; simpl; [reflexivity|].
  rewrite fmap_cons, not_elem_of_cons in Hnot. destruct Hnot as [Hk Hrest].
  simpl in Hk. rewrite (IH _ Hrest). simpl. apply lookup_insert_ne.
  intros ->. apply Hk. reflexivity.
Qed.

Lemma unique_entry {A : Type} (l : list (string * A)) (k : string) (a b : A) :
  NoDup l.*1 -> (k, a) ∈ l -> (k, b) ∈ l -> a = b.
Proof.
  induction l as [|[k' x] rest IH]; intros Hnd Ha Hb.
  - inversion Ha.
  - rewrite fmap_cons in Hnd. apply NoDup_cons in Hnd as [Hk Hnd].
    apply elem_of_cons in Ha as [Ha|Ha], Hb as [Hb|Hb].
    + congruence.
    + inversion Ha; subst. exfalso. apply Hk.
      apply list_elem_of_fmap. exists (k', b). auto.
    + inversion Hb; subst. exfalso. apply Hk.
      apply list_elem_of_fmap. exists (k', a). auto.
    + auto.
Qed.

(** C8: a material entry whose [shininess] reads as a negative number
    fails [isValid()], no [createThreeMaterialAsync] call is scheduled
    for it, and its id is not a key of the materials table once all
    promises have settled (the ids of the document being distinct and
    the id not being in the table beforehand). *)
Theorem negative_shininess_skipped
    (materialsData : list (string * jsobject)) (c : MyContents)
    (materialId : string) (materialData : jsobject) :
  NoDup materialsData.*1 ->
  (materialId, materialData) ∈ materialsData ->
  PrimFloat.ltb (parseFloat (prop materialData "shininess")) 0 = true ->
  mc_materials c !! materialId = None ->
  isValid (newMyMaterials materialId materialData (mc_textures c)) = false /\
  (materialId ∉
    (scheduleMaterials materialsData (mc_textures c) (mc_materials c)).1.*1) /\
  (mc_materials (materialsRendering materialsData c).1) !! materialId = None.
Proof.
  intros Hnd Hin Hneg Hfresh.
  pose proof (negative_shininess_invalid materialId materialData
                (mc_textures c) Hneg) as Hinv.
  assert (Hnot : materialId ∉
    (scheduleMaterials materialsData (mc_textures c) (mc_materials c)).1.*1).
  { intros Hsched. apply list_elem_of_fmap in Hsched as ([k m] & Hk & Hm).
    simpl in Hk. subst k.
    apply scheduleMaterials_pending in Hm as (md & Hmd & -> & Hv).
    rewrite (unique_entry _ _ _ _ Hnd Hmd Hin) in Hv. congruence. }
  split; [exact Hinv|]. split; [exact Hnot|].
  unfold materialsRendering. destruct materialsData as [|e rest].
  - simpl. exact Hfresh.
  - destruct (scheduleMaterials (e :: rest) (mc_textures c) (mc_materials c))
      as [pending warnings] eqn:E. simpl in *.
    rewrite settleMaterials_other; assumption.
Qed.

End MaterialFacts.

Lemma negative_shininess_skipped_witness :
  @isValid (@newMyMaterials sampleHost "broken" [("shininess", JNum (-1))] ∅)
  = false /\
  ("broken" ∉
    (@scheduleMaterials sampleHost sampleMaterials ∅ ∅).1.*1) /\
  (mc_materials (@materialsRendering sampleHost sampleMaterials emptyContents).1)
    !! "broken" = None.
Proof.
  apply (@negative_shininess_skipped sampleHost sampleMaterials emptyContents
           "broken" [("shininess", JNum (-1))]).
  - apply NoDup_cons. split; [|apply NoDup_singleton].
    intros Hin. apply list_elem_of_singleton in Hin. discriminate.
  - apply elem_of_cons. right. apply list_elem_of_singleton. reflexivity.
  - reflexivity.
  - reflexivity.
Defined.

(** ** createPrimitive: the generated material ids *)

(** The decimal numeral of a positive number starts with a digit other
    than zero. *)
Lemma pretty_N_go_head (x : N) :
  forall s, (0 < x)%N ->
  exists c rest, pretty_N_go x s = String c rest /\ c <> "0"%char.
Proof.
  induction (N.lt_wf_0 x) as [x _ IH]. intros s Hpos.
  rewrite pretty_N_go_step by exact Hpos.
  destruct (decide (x `div` 10 = 0)%N) as [Hsmall|Hbig].
  - rewrite Hsmall, pretty_N_go_0.
    exists (pretty_N_char (x `mod` 10)), s. split; [reflexivity|].
    assert (x < 10)%N as Hlt by (apply N.div_small_iff; [lia | exact Hsmall]).
    rewrite N.mod_small by exact Hlt.
    assert (x = 1 \/ x = 2 \/ x = 3 \/ x = 4 \/ x = 5 \/ x = 6
            \/ x = 7 \/ x = 8 \/ x = 9)%N as Hx by lia.
    repeat (destruct Hx as [->|Hx]; [discriminate|]). subst x. discriminate.
  - apply IH; [apply N.div_lt; lia | apply N.neq_0_lt_0; exact Hbig].
Qed.

Lemma pretty_nat_head (n : nat) :
  exists c rest, pretty n = String c rest /\ (c = "0"%char -> n = 0).
Proof.
  unfold pretty, pretty_nat, pretty, pretty_N.
  destruct (decide (N.of_nat n = 0%N)) as [Hz|Hnz].
  - exists "0"%char, "". split; [reflexivity | lia].
  - destruct (pretty_N_go_head (N.of_nat n) "") as (c & rest & E & Hc); [lia|].
    exists c, rest. split; [exact E | intros ->; contradiction].
Qed.

(** [padStart(2, '0')] keeps the numerals of distinct counters
    distinct. *)
Lemma padStart2_pretty_inj (a b : nat) :
  padStart2 (pretty a) = padStart2 (pretty b) -> a = b.
Proof.
  destruct (pretty_nat_head a) as (ca & ra & Ea & Ha).
  destruct (pretty_nat_head b) as (cb & rb & Eb & Hb).
  unfold padStart2. rewrite Ea, Eb. cbn [String.length Nat.ltb Nat.leb].
  destruct ra as [|ca' ra], rb as [|cb' rb]; cbn [String.length Nat.ltb Nat.leb].
  - intros E. injection E as ->. apply (inj pretty). congruence.
  - intros E. injection E as <- _ _. rewrite Hb in Eb by reflexivity.
    discriminate Eb.
  - intros E. injection E as -> _ _. rewrite Ha in Ea by reflexivity.
    discriminate Ea.
  - intros E. apply (inj pretty). congruence.
Qed.

Lemma append_inv_head (a b c : string) : a ++ b = a ++ c -> b = c.
Proof.
  induction a as [|x a IH]; [exact id|].
  intros E. injection E as E. exact (IH E).
Qed.

Lemma candidate_inj (idBase : string) (a b : nat) :
  idBase ++ "_" ++ padStart2 (pretty a) = idBase ++ "_" ++ padStart2 (pretty b) ->
  a = b.
Proof.
  intros E. apply append_inv_head in E. injection E as E.
  exact (padStart2_pretty_inj a b E).
Qed.

(** The search for a free id inspects distinct candidates, so a bound
    of the number of taken candidates is enough for it to end on a free
    one. *)
Lemma freeMaterialId_free_from (idBase : string)
    (materials : gmap string Material) (fuel : nat) :
  forall (counter : nat) (taken : gmap string Material),
    size taken <= fuel ->
    (forall k, counter <= k ->
       is_Some (materials !! (idBase ++ "_" ++ padStart2 (pretty k))) ->
       is_Some (taken !! (idBase ++ "_" ++ padStart2 (pretty k)))) ->
    materials !! freeMaterialId fuel counter idBase materials = None.
Proof.
  induction fuel as [|fuel IH]; intros counter taken Hsize Htaken.
  - cbn [freeMaterialId].
    destruct (materials !! (idBase ++ "_" ++ padStart2 (pretty counter)))
      as [m|] eqn:E; [|reflexivity].
    destruct (Htaken counter) as [m' Hm']; [lia | rewrite E; eauto|].
    assert (size taken = 0) as Hzero by lia.
    apply map_size_empty_inv in Hzero. rewrite Hzero, lookup_empty in Hm'.
    discriminate.
  - cbn [freeMaterialId]. case_bool_decide as Hc.
    + apply (IH (S counter)
               (delete (idBase ++ "_" ++ padStart2 (pretty counter)) taken)).
      * assert (is_Some (taken !! (idBase ++ "_" ++ padStart2 (pretty counter))))
          as Hin by (apply Htaken; [lia | exact Hc]).
        pose proof (map_size_delete_Some _ taken Hin) as Hdel.
        destruct Hin as [m' Hm'].
        assert (size taken <> 0) as Hpos.
        { intros Hzero. apply map_size_empty_inv in Hzero.
          rewrite Hzero, lookup_empty in Hm'. discriminate. }
        lia.
      * intros k Hk Hsome. rewrite lookup_delete_ne.
        -- apply Htaken; [lia | exact Hsome].
        -- intros E. apply candidate_inj in E. lia.
    + destruct (materials !! (idBase ++ "_" ++ padStart2 (pretty counter)))
        as [m|] eqn:E; [|reflexivity].
      destruct Hc. eauto.
Qed.

Lemma freeMaterialId_free (idBase : string) (materials : gmap string Material)
    (counter : nat) :
  materials !! freeMaterialId (size materials) counter idBase materials = None.
Proof.
  apply (freeMaterialId_free_from idBase materials (size materials) counter
           materials); [lia | intros k _ Hk; exact Hk].
Qed.
(** [registerMaterial] adds an entry: no material of the table is
    replaced. *)
Lemma registerMaterial_keeps (idBase k : string) (m m' : Material)
    (c : MyContents) :
  mc_materials c !! k = Some m' ->
  mc_materials (registerMaterial idBase m c) !! k = Some m'.
Proof.
  intros Hk. unfold registerMaterial. cbn [mc_materials].
  rewrite lookup_insert_ne; [exact Hk|].
  intros E. subst k. rewrite freeMaterialId_free in Hk. discriminate.
Qed.

(** ** createPrimitive: the texture-repeat pass *)

Section PrimitiveFacts.
Context `{Host} `{Three}.

(** With the flag as the function sets it, the pass takes the
    bounding-box path for every kind, triangle and nurbs included. *)
Lemma textureRepeat_bounding_box (type : jsval) (primitiveData : jsobject)
    (geometry : BufferGeometry) (meshMaterial : Material) :
  textureRepeat type specialTextureHandling primitiveData geometry meshMaterial
  = Some (quotientOrOne (boxWidth geometry)
            (numberOf (mat_texlength_s meshMaterial)),
          quotientOrOne (boxHeight geometry)
            (numberOf (mat_texlength_t meshMaterial))).
Proof. reflexivity. Qed.

(** What [createPrimitive] returns for a kind of the common tail when
    the inherited material has a colour map. *)
Lemma createPrimitive_textured (primitiveData : jsobject) (m : Material)
    (appMyContents : MyContents) (geometry : BufferGeometry) (t : Texture) :
  primitiveGeometry primitiveData = Some geometry ->
  mat_map m = Some t ->
  exists mesh,
    createPrimitive primitiveData (Some m) appMyContents
    = (Some mesh, appMyContents, []) /\
    mesh_geometry mesh = geometry /\
    mat_map (mesh_material mesh)
    = Some (mkTexture (tex_id t)
              (quotientOrOne (boxWidth geometry) (numberOf (mat_texlength_s m)),
               quotientOrOne (boxHeight geometry) (numberOf (mat_texlength_t m)))
              (tex_wrapRepeat t) true).
Proof.
  intros Hg Hmap. unfold createPrimitive.
  assert (Hty : strictEq (prop primitiveData "type") "polygon" = false).
  { destruct (strictEq (prop primitiveData "type") "polygon") eqn:E;
      [|reflexivity].
    unfold primitiveGeometry in Hg.
    destruct (prop primitiveData "type") as [| | | |s|]; try discriminate.
    apply String.eqb_eq in E. subst s. discriminate. }
  rewrite Hty, Hg, Hmap. eexists. split; [reflexivity|].
  split; [reflexivity|].
  rewrite textureRepeat_bounding_box. unfold withRepeat. rewrite Hmap.
  reflexivity.
Qed.

Lemma positive_over_zero (a : float) :
  PrimFloat.ltb 0 a = true -> PrimFloat.div a 0 = PrimFloat.infinity.
Proof.
  intros Ha. apply Prim2SF_inj. rewrite FloatAxioms.div_spec.
  rewrite FloatAxioms.ltb_spec in Ha. unfold SFltb in Ha.
  sf_const 0%float. sf_const PrimFloat.infinity.
  destruct (Prim2SF a) as [[]|[]| |[] m e];
    cbn [SFcompare] in Ha; try discriminate; reflexivity.
Qed.

Lemma zero_over_zero (a : float) :
  PrimFloat.eqb a 0 = true \/ isNaN a = true ->
  isNaN (PrimFloat.div a 0) = true.
Proof.
  intros Ha. unfold isNaN, PrimFloat.is_nan in *.
  rewrite !FloatAxioms.eqb_spec in *. rewrite FloatAxioms.div_spec.
  unfold SFeqb in *. sf_const 0%float.
  destruct (Prim2SF a) as [[]|[]| |[] m e];
    cbn [SFcompare negb] in Ha;
    rewrite ?Z.compare_refl, ?Pos.compare_cont_refl in Ha;
    try reflexivity; destruct Ha; discriminate.
Qed.

(** The fallback of [a / b || 1] for [b = 0]: a positive [a] gives
    [Infinity], which is truthy and is kept; only a zero or [NaN]
    quotient operand gives [1]. *)
Lemma quotientOrOne_zero_divisor (a : float) :
  (PrimFloat.ltb 0 a = true -> quotientOrOne a 0 = PrimFloat.infinity) /\
  (PrimFloat.eqb a 0 = true \/ isNaN a = true -> quotientOrOne a 0 = 1%float).
Proof.
  unfold quotientOrOne, numOr, numTruthy. split; intros Ha.
  - rewrite (positive_over_zero a Ha). reflexivity.
  - apply zero_over_zero in Ha. unfold isNaN in Ha. rewrite Ha. reflexivity.
Qed.

(** C7 (as amended): on the bounding-box path each repeat component is
    [extent / texlength || 1].  For a texture length of zero the
    fallback to [1] is taken only when the bounding-box extent is zero
    (or [NaN]); for a positive extent the quotient is [Infinity], which
    is what is written to the map. *)
Theorem zero_texture_length_repeat (primitiveData : jsobject) (m : Material)
    (appMyContents : MyContents) (geometry : BufferGeometry) (t : Texture) :
  primitiveGeometry primitiveData = Some geometry ->
  mat_map m = Some t ->
  exists mesh t',
    (createPrimitive primitiveData (Some m) appMyContents).1.1 = Some mesh /\
    mat_map (mesh_material mesh) = Some t' /\
    (mat_texlength_s m = Some 0%float ->
     (PrimFloat.ltb 0 (boxWidth geometry) = true ->
      (tex_repeat t').1 = PrimFloat.infinity) /\
     (PrimFloat.eqb (boxWidth geometry) 0 = true \/
      isNaN (boxWidth geometry) = true ->
      (tex_repeat t').1 = 1%float)) /\
    (mat_texlength_t m = Some 0%float ->
     (PrimFloat.ltb 0 (boxHeight geometry) = true ->
      (tex_repeat t').2 = PrimFloat.infinity) /\
     (PrimFloat.eqb (boxHeight geometry) 0 = true \/
      isNaN (boxHeight geometry) = true ->
      (tex_repeat t').2 = 1%float)).
Proof.
  intros Hg Hmap.
  destruct (createPrimitive_textured primitiveData m appMyContents geometry t
              Hg Hmap) as (mesh & Hc & _ & Hm).
  exists mesh. eexists. rewrite Hc. split; [reflexivity|].
  split; [exact Hm|]. simpl.
  split; intros ->; simpl; apply quotientOrOne_zero_divisor.
Qed.

(** C3, as the code behaves: the flag that guards the triangle and
    nurbs computations is never raised, so for every kind of the common
    tail, triangle and nurbs included, [createPrimitive] sets the
    repeat of a bound map to the bounding-box width and height divided
    by the texture lengths (with the fallback to 1 on a falsy
    quotient). *)
Theorem triangle_repeat_is_bounding_box (primitiveData : jsobject)
    (m : Material) (appMyContents : MyContents) (geometry : BufferGeometry)
    (t : Texture) :
  primitiveGeometry primitiveData = Some geometry ->
  mat_map m = Some t ->
  specialTextureHandling = false /\
  exists mesh t',
    (createPrimitive primitiveData (Some m) appMyContents).1.1 = Some mesh /\
    mesh_geometry mesh = geometry /\
    mat_map (mesh_material mesh) = Some t' /\
    tex_repeat t'
    = (quotientOrOne (boxWidth geometry) (numberOf (mat_texlength_s m)),
       quotientOrOne (boxHeight geometry) (numberOf (mat_texlength_t m))).
Proof.
  intros Hg Hmap. split; [reflexivity|].
  destruct (createPrimitive_textured primitiveData m appMyContents geometry t
              Hg Hmap) as (mesh & Hc & Hgeo & Hm).
  exists mesh. eexists. rewrite Hc. split; [reflexivity|].
  split; [exact Hgeo|]. split; [exact Hm | reflexivity].
Qed.

End PrimitiveFacts.

(** The triangle of area 4 with a mapped material of texture lengths 1
    and 1: [createPrimitive] sets the map's repeat to (4, 2), the
    bounding-box width and height, where the triangle computation
    gives (area / texlength_s, area / texlength_t) = (4, 4). *)
Lemma triangle_repeat_is_bounding_box_witness :
  exists mesh t,
    (@createPrimitive sampleHost sampleThree sampleTriangle
       (Some (sampleTextured 1 1)) emptyContents).1.1 = Some mesh /\
    mat_map (mesh_material mesh) = Some t /\
    tex_repeat t = (4%float, 2%float) /\
    triangleArea (position_array (mesh_geometry mesh)) = 4%float /\
    @textureRepeat sampleHost (JStr "triangle") true sampleTriangle
      (mesh_geometry mesh) (sampleTextured 1 1)
    = Some (4%float, 4%float).
Proof.
  destruct (@triangle_repeat_is_bounding_box sampleHost sampleThree
              sampleTriangle (sampleTextured 1 1) emptyContents _ sampleTexture
              eq_refl eq_refl)
    as (_ & mesh & t & Hc & Hg & Hm & Hr).
  exists mesh, t. split; [exact Hc|]. split; [exact Hm|].
  rewrite Hr, Hg. repeat split; reflexivity.
Defined.

Lemma zero_texture_length_repeat_witness :
  exists mesh t',
    (@createPrimitive sampleHost sampleThree sampleRectangle
       (Some (sampleTextured 0 0)) emptyContents).1.1 = Some mesh /\
    mat_map (mesh_material mesh) = Some t' /\
    tex_repeat t' = (PrimFloat.infinity, PrimFloat.infinity).
Proof.
  destruct (@zero_texture_length_repeat sampleHost sampleThree sampleRectangle
              (sampleTextured 0 0) emptyContents _ sampleTexture
              eq_refl eq_refl)
    as (mesh & t' & Hc & Hm & Hs & Ht).
  exists mesh, t'. split; [exact Hc|]. split; [exact Hm|].
  destruct (Hs eq_refl) as [Hs1 _]. destruct (Ht eq_refl) as [Ht1 _].
  destruct (tex_repeat t') as [rs rt]. simpl in *.
  rewrite Hs1, Ht1 by reflexivity. reflexivity.
Defined.

(** A texture length of zero does not make the repeat component 1:
    for the 2 by 2 rectangle and [texlength_s = 0] the map's repeat is
    set to [(Infinity, 2)]. *)
Lemma zero_texture_length_not_one :
  exists mesh t,
    (@createPrimitive sampleHost sampleThree sampleRectangle
       (Some (sampleTextured 0 1)) emptyContents).1.1 = Some mesh /\
    mat_map (mesh_material mesh) = Some t /\
    tex_repeat t = (PrimFloat.infinity, 2%float) /\
    (tex_repeat t).1 <> 1%float.
Proof.
  eexists _, _. split; [reflexivity|]. split; [reflexivity|].
  split; [reflexivity|]. simpl. intros E.
  apply (f_equal (fun x => PrimFloat.eqb x 1)) in E. vm_compute in E.
  discriminate.
Qed.

(** ** The graph builder: termination on acyclic graphs *)

Lemma elem_of_flat_map {A B : Type} (f : A -> list B) (l : list A) (y : B) :
  y ∈ flat_map f l <-> exists x, x ∈ l /\ y ∈ f x.
Proof.
  rewrite list_elem_of_In, in_flat_map. split.
  - intros (x & Hx & Hy). exists x. rewrite !list_elem_of_In. auto.
  - intros (x & Hx & Hy). exists x.
    apply list_elem_of_In in Hx. apply list_elem_of_In in Hy. auto.
Qed.

Section Lookup.
Context `{Host}.
Variable graphData : gmap string nodeData.

Lemma lookupNode_own (n : string) (nd : nodeData) :
  lookupNode graphData n = Some nd ->
  graphData !! n = Some nd \/ graphData !! n = None /\ nd = inheritedNode.
Proof.
  unfold lookupNode. destruct (graphData !! n) as [nd'|];
    [intros E; left; exact E|].
  destruct (includes inheritedNames n); [|discriminate].
  intros E. inversion E. right. split; reflexivity.
Qed.

Lemma lookupNode_none (n : string) :
  lookupNode graphData n = None -> graphData !! n = None.
Proof.
  unfold lookupNode. destruct (graphData !! n); [discriminate | reflexivity].
Qed.

(** The references of a node are those of the children of the entry
    that [createNode] reads. *)
Lemma references_lookup (n : string) (nd : nodeData) :
  lookupNode graphData n = Some nd ->
  references graphData n
  = match nd_children nd with
    | Some ch =>
        (flat_map directRefs (ch_direct ch)
         ++ flat_map listedNodeRefs (default [] (ch_nodesList ch))
         ++ flat_map (listedLodRefs graphData) (default [] (ch_lodsList ch)))%list
    | None => []
    end.
Proof.
  intros E. unfold references.
  destruct (lookupNode_own n nd E) as [-> | [-> ->]]; [|reflexivity].
  destruct nd as [ts mid csh rsh [ch|] ln]; reflexivity.
Qed.

End Lookup.

Section Settling.
Context `{Host} `{Three}.

Lemma prop_setProp_eq (o : jsobject) (k : string) (v : jsval) :
  prop (setProp o k v) k = v.
Proof.
  induction o as [|[k' v'] rest IH]; simpl.
  - rewrite String.eqb_refl. reflexivity.
  - destruct (String.eqb k k') eqn:E; simpl; rewrite E; [reflexivity | exact IH].
Qed.

Lemma prop_setProp_ne (o : jsobject) (k k' : string) (v : jsval) :
  k <> k' -> prop (setProp o k v) k' = prop o k'.
Proof.
  intros Hne. induction o as [|[k0 v0] rest IH]; simpl.
  - destruct (String.eqb k' k) eqn:E; [|reflexivity].
    apply String.eqb_eq in E. congruence.
  - destruct (String.eqb k k0) eqn:E; simpl.
    + apply String.eqb_eq in E. subst k0.
      destruct (String.eqb k' k) eqn:E'; [|reflexivity].
      apply String.eqb_eq in E'. congruence.
    + destruct (String.eqb k' k0); [reflexivity | exact IH].
Qed.

(** The loops of a primitive do not depend on its [nodeId]. *)
Lemma loopsEnd_setProp (fields : jsobject) (v : jsval) :
  loopsEnd (setProp fields "nodeId" v) = loopsEnd fields.
Proof.
  unfold loopsEnd, polygonLoopsEnd, nurbsLoopsEnd.
  rewrite !prop_setProp_ne by discriminate. reflexivity.
Qed.

Lemma settles_done {A : Type} (a : A) (s : GraphParser) :
  settles (fun _ : nat => Done a s).
Proof. exists 0, a, s. reflexivity. Qed.

Lemma settles_const {A : Type} (o : outcome A) :
  o <> OutOfFuel -> settles (fun _ : nat => o).
Proof.
  destruct o as [|a s]; [congruence|]. intros _. apply settles_done.
Qed.

Lemma settles_bind {A B : Type} (m : nat -> Build A)
    (k : nat -> A -> Build B) (s : GraphParser) :
  settles (fun fuel => m fuel s) ->
  (forall a s', settles (fun fuel => k fuel a s')) ->
  settles (fun fuel => (m fuel ≫= k fuel) s).
Proof.
  intros (d1 & a & s1 & Hm) Hk.
  destruct (Hk a s1) as (d2 & b & s2 & Hk2).
  exists (Nat.max d1 d2), b, s2. intros fuel Hfuel.
  unfold mbind, Build_bind. rewrite Hm by lia. apply Hk2. lia.
Qed.

Lemma settles_forEach {A X : Type} (body : nat -> X -> A -> Build X)
    (items : list A) :
  (forall item, item ∈ items ->
                forall x s, settles (fun fuel => body fuel x item s)) ->
  forall x s, settles (fun fuel => forEach (body fuel) items x s).
Proof.
  induction items as [|item rest IH]; intros Hbody x s; simpl.
  - apply settles_done.
  - apply (settles_bind (fun fuel => body fuel x item)
             (fun fuel x' => forEach (body fuel) rest x')).
    + apply Hbody. left.
    + intros x' s'. apply IH. intros i Hi. apply Hbody. right. exact Hi.
Qed.

Variable rec : nat -> createNodeT.
Variable graphData : gmap string nodeData.

Lemma createLOD_settles (lodNodes : option (list lodEntry))
    (transforms : option (list transform)) (pm : option Material)
    (cs rs : bool) (s : GraphParser) :
  (forall n, n ∈ lodRefs lodNodes -> settlesOn rec graphData n) ->
  settles (fun fuel =>
             createLOD (rec fuel) graphData
               (Some (mkLodData lodNodes transforms)) pm cs rs s).
Proof.
  intros Hrefs. unfold createLOD.
  destruct lodNodes as [entries|]; [|apply settles_done].
  apply (settles_bind (fun _ => newObject)); [apply settles_done|].
  intros id s1.
  apply (settles_bind
           (fun fuel => forEach (addLodLevel (rec fuel) graphData pm cs rs)
                          entries _)
           (fun _ lod => mret (Some lod))); [|intros; apply settles_done].
  apply (settles_forEach
           (fun fuel => addLodLevel (rec fuel) graphData pm cs rs)).
  intros e He lod s2. unfold addLodLevel.
  destruct (le_mindist e) as [| | |d| |] eqn:Ed; try apply settles_done.
  destruct (truthy (le_nodeId e)) eqn:Et; simpl; [|apply settles_done].
  apply (settles_bind
           (fun fuel => rec fuel graphData (ToString (le_nodeId e)) pm cs rs)
           (fun _ lodChild =>
              match lodChild with
              | Some child => mret (addLevel lod child d)
              | None => mret lod
              end)).
  - apply Hrefs. unfold lodRefs. apply elem_of_flat_map.
    exists e. split; [exact He|]. rewrite Ed, Et. left.
  - intros [child|] s3; apply settles_done.
Qed.

Lemma handleChild_settles (group : Object3D) (cd : childData)
    (pm : option Material) (cs rs : bool) (s : GraphParser) :
  loopsEnd (cd_fields cd) = true ->
  (forall n, n ∈ childRefs cd -> settlesOn rec graphData n) ->
  settles (fun fuel => handleChild (rec fuel) group cd graphData pm cs rs s).
Proof.
  intros Hends Hrefs. unfold handleChild. unfold childRefs in Hrefs.
  destruct (strictEq (prop (cd_fields cd) "type") "lod").
  { apply (settles_bind
             (fun fuel => createLOD (rec fuel) graphData _ pm cs rs)
             (fun _ lod => match lod with
                           | Some l => mret (add group l)
                           | None => mret group
                           end)).
    - apply createLOD_settles. exact Hrefs.
    - intros [l|] s1; apply settles_done. }
  destruct (strictEq (prop (cd_fields cd) "type") "noderef").
  { destruct (truthy (prop (cd_fields cd) "nodeId")); simpl;
      [|apply settles_done].
    apply (settles_bind
             (fun fuel => rec fuel graphData
                            (ToString (prop (cd_fields cd) "nodeId")) pm cs rs)
             (fun _ referencedNode =>
                match referencedNode with
                | Some node =>
                    clonedNode ← cloneObject node;
                    mret (add group
                            match pm with
                            | Some m => applyMaterialToNode clonedNode m cs rs
                            | None => clonedNode
                            end)
                | None => mret group
                end)).
    - apply Hrefs. left.
    - intros [node|] s1; [|apply settles_done].
      apply settles_const. unfold mbind, Build_bind, cloneObject.
      destruct (clone node (gp_objects s1)). discriminate. }
  apply settles_const.
  destruct (includesValue primitiveTypes (prop (cd_fields cd) "type")).
  { unfold mbind, Build_bind, buildPrimitive. rewrite Hends.
    destruct (createPrimitive (cd_fields cd) pm (gp_contents s))
      as [[[mesh|] contents] warnings]; discriminate. }
  destruct (includesValue lightTypes (prop (cd_fields cd) "type"));
    [|discriminate].
  destruct (createLight (cd_fields cd)
              (orElse (prop (cd_fields cd) "nodeId") (JStr "")))
    as [[lightGroup|] warnings]; discriminate.
Qed.

Lemma expandChildren_settles (children : option childrenData)
    (nm : option Material) (cs rs : bool) (group : Object3D)
    (s : GraphParser) :
  (forall ch child, children = Some ch -> child ∈ ch_direct ch ->
                    loopsEnd (cd_fields child.2) = true) ->
  (forall n,
      n ∈ match children with
          | Some ch =>
              (flat_map directRefs (ch_direct ch)
               ++ flat_map listedNodeRefs (default [] (ch_nodesList ch))
               ++ flat_map (listedLodRefs graphData)
                    (default [] (ch_lodsList ch)))%list
          | None => []
          end -> settlesOn rec graphData n) ->
  settles (fun fuel =>
             expandChildren (rec fuel) graphData children nm cs rs group s).
Proof.
  intros Hends Hrefs. unfold expandChildren.
  destruct children as [ch|]; [|apply settles_done].
  apply (settles_bind
           (fun fuel => forEach (directChild (rec fuel) graphData nm cs rs)
                          (ch_direct ch) group)
           (fun fuel g1 =>
              g2 ← forEach (listedNode (rec fuel) graphData nm cs rs)
                     (default [] (ch_nodesList ch)) g1;
              forEach (listedLod (rec fuel) graphData nm cs rs)
                (default [] (ch_lodsList ch)) g2)).
  { apply (settles_forEach (fun fuel => directChild (rec fuel) graphData nm cs rs)).
    intros [childId cd] Hin g0 s0.
    assert (Hsub : forall n, n ∈ directRefs (childId, cd) -> settlesOn rec graphData n).
    { intros n Hn. apply Hrefs. apply elem_of_app. left.
      apply elem_of_flat_map. eauto. }
    unfold directChild. unfold directRefs in Hsub.
    destruct (String.eqb childId "nodesList" || String.eqb childId "lodsList");
      [apply settles_done|].
    apply handleChild_settles; [|exact Hsub].
    specialize (Hends ch (childId, cd) eq_refl Hin). simpl in Hends.
    destruct (negb (truthy (prop (cd_fields cd) "nodeId")));
      [simpl; rewrite loopsEnd_setProp|]; exact Hends. }
  intros g1 s1.
  apply (settles_bind
           (fun fuel => forEach (listedNode (rec fuel) graphData nm cs rs)
                          (default [] (ch_nodesList ch)) g1)
           (fun fuel g2 =>
              forEach (listedLod (rec fuel) graphData nm cs rs)
                (default [] (ch_lodsList ch)) g2)).
  { apply (settles_forEach (fun fuel => listedNode (rec fuel) graphData nm cs rs)).
    intros childNodeId Hin g0 s0. unfold listedNode.
    apply handleChild_settles; [reflexivity|]. intros n Hn. apply Hrefs.
    apply elem_of_app. right. apply elem_of_app. left.
    apply elem_of_flat_map. exists childNodeId. split; [exact Hin|].
    exact Hn. }
  intros g2 s2.
  apply (settles_forEach (fun fuel => listedLod (rec fuel) graphData nm cs rs)).
  intros lodNodeId Hin g0 s0. unfold listedLod.
  apply (settles_bind
           (fun fuel => createLOD (rec fuel) graphData
                          (asLodData <$> graphData !! ToString lodNodeId)
                          nm cs rs)
           (fun _ lod => match lod with
                         | Some l => mret (add g0 l)
                         | None => mret g0
                         end)).
  - destruct (graphData !! ToString lodNodeId) as [entry|] eqn:E; simpl;
      [|apply settles_done].
    apply createLOD_settles. intros n Hn. apply Hrefs.
    apply elem_of_app. right. apply elem_of_app. right.
    apply elem_of_flat_map. exists lodNodeId. split; [exact Hin|].
    unfold listedLodRefs. rewrite E. exact Hn.
  - intros [l|] s3; apply settles_done.
Qed.

Lemma nodeEnds_child (n : string) (nd : nodeData) (ch : childrenData)
    (child : string * childData) :
  nodeEnds graphData n = true -> graphData !! n = Some nd ->
  nd_children nd = Some ch -> child ∈ ch_direct ch ->
  loopsEnd (cd_fields child.2) = true.
Proof.
  unfold nodeEnds. intros Hn End Hch Hin. rewrite End in Hn.
  destruct nd as [ts mid csh rsh c ln].
  simpl in Hch. subst c. rewrite forallb_forall in Hn.
  apply list_elem_of_In in Hin. apply Hn in Hin.
  apply andb_prop in Hin as [Hl _]. exact Hl.
Qed.

Lemma createNodeBody_settles (n : string) :
  nodeEnds graphData n = true ->
  (forall n', refersTo graphData n n' -> settlesOn rec graphData n') ->
  forall m cs rs s,
    settles (fun fuel => createNodeBody (rec fuel) graphData n m cs rs s).
Proof.
  intros Hends Hrefs m cs rs s. unfold createNodeBody.
  destruct (decide (cacheKey n m ∈ gp_processedNodes s));
    [apply settles_done|].
  destruct (lookupNode graphData n) as [nd|] eqn:Elook; [|apply settles_done].
  apply (settles_bind (fun _ => newObject)); [apply settles_done|].
  intros id s1.
  apply (settles_bind
           (fun fuel => expandChildren (rec fuel) graphData (nd_children nd)
                          _ _ _ _)
           (fun _ group => _ ← cacheNode (cacheKey n m) group;
                           mret (Some group)));
    [|intros; apply settles_done].
  apply expandChildren_settles.
  - intros ch child Hch Hin.
    destruct (lookupNode_own graphData n nd Elook) as [End | [_ ->]];
      [|discriminate].
    exact (nodeEnds_child n nd ch child Hends End Hch Hin).
  - intros n' Hn'. apply Hrefs. unfold refersTo.
    rewrite (references_lookup graphData n nd Elook). exact Hn'.
Qed.

End Settling.

Section Termination.
Context `{Host} `{Three}.

(** With enough recursion depth, [createNode] returns on every node
    from which no infinite chain of references starts. *)
Lemma createNode_settles (graphData : gmap string nodeData) (n : string) :
  Acc (fun b a => refersTo graphData a b) n ->
  (forall c, rtc (refersTo graphData) n c -> nodeEnds graphData c = true) ->
  forall m cs rs s,
    settles (fun fuel => createNode fuel graphData n m cs rs s).
Proof.
  induction 1 as [n _ IH]. intros Hends m cs rs s.
  assert (Hrefs : forall n', refersTo graphData n n' ->
                             settlesOn createNode graphData n').
  { intros n' Hn'. unfold settlesOn. apply (IH n' Hn').
    intros c Hc. apply Hends. eapply rtc_l; [exact Hn' | exact Hc]. }
  destruct (createNodeBody_settles createNode graphData n
              (Hends n (rtc_refl _ _)) Hrefs m cs rs s)
    as (depth & r & s' & Hd).
  exists (S depth), r, s'. intros [|fuel] Hfuel; [lia|].
  simpl. apply Hd. lia.
Qed.

End Termination.

(** ** The graph builder: unbounded recursion on cyclic graphs *)

Lemma append_nil (b : string) : "" ++ b = b.
Proof. reflexivity. Qed.

Lemma append_cons (c : ascii) (a b : string) :
  String c a ++ b = String c (a ++ b).
Proof. reflexivity. Qed.

Lemma underscoreFree_app (a b : string) :
  underscoreFree (a ++ String "_" b) = false.
Proof.
  induction a as [|c a IH].
  - reflexivity.
  - rewrite append_cons. cbn [underscoreFree]. rewrite IH.
    apply andb_false_r.
Qed.

(** With underscore-free material parts, the cache key determines the
    node id and the material part. *)
Lemma cacheKey_inj (n n' u u' : string) :
  underscoreFree u = true -> underscoreFree u' = true ->
  n ++ "_" ++ u = n' ++ "_" ++ u' -> n = n' /\ u = u'.
Proof.
  intros Hu Hu'. change ("_" ++ u) with (String "_" u).
  change ("_" ++ u') with (String "_" u'). revert n'.
  induction n as [|c n IH]; intros [|c' n'] E;
    rewrite ?append_nil, ?append_cons in E.
  - injection E as E. auto.
  - injection E as Hc Hrest.
    rewrite Hrest, underscoreFree_app in Hu. discriminate.
  - injection E as Hc Hrest.
    rewrite <- Hrest, underscoreFree_app in Hu'. discriminate.
  - injection E as Hc Hrest. destruct (IH _ Hrest) as [-> ->].
    subst c'. auto.
Qed.

Lemma cacheKey_same_node (n u u' : string) :
  n ++ "_" ++ u = n ++ "_" ++ u' -> u = u'.
Proof.
  change ("_" ++ u) with (String "_" u).
  change ("_" ++ u') with (String "_" u').
  induction n as [|c n IH]; rewrite ?append_nil, ?append_cons;
    intros E; injection E as E; auto.
Qed.

Section Divergence.
Context `{Host} `{Three}.
Variable graphData : gmap string nodeData.
Variable B : string -> Prop.
Hypothesis B_closed :
  forall n, B n -> exists n', refersTo graphData n n' /\ B n'.
Hypothesis host_uuids : forall k, underscoreFree (generateUUID k) = true.

Lemma registerMaterial_uuids (idBase : string) (m : Material) (c : MyContents) :
  underscoreFree (mat_uuid m) = true -> uuidsWellFormed c ->
  uuidsWellFormed (registerMaterial idBase m c).
Proof.
  intros Hm Hc k m' Hk. unfold registerMaterial in Hk. simpl in Hk.
  apply lookup_insert_Some in Hk as [[_ <-]|[_ Hk]]; [exact Hm|].
  exact (Hc _ _ Hk).
Qed.

Lemma createPrimitive_uuids (primitiveData : jsobject)
    (material : option Material) (c : MyContents) :
  uuidsWellFormed c ->
  uuidsWellFormed (createPrimitive primitiveData material c).1.2.
Proof.
  intros Hc. unfold createPrimitive.
  destruct (strictEq (prop primitiveData "type") "polygon"); simpl.
  - apply registerMaterial_uuids; [|exact Hc].
    destruct material; simpl; apply host_uuids.
  - destruct (primitiveGeometry primitiveData); simpl; [|exact Hc].
    destruct material as [m|]; simpl; [exact Hc|].
    apply registerMaterial_uuids; [apply host_uuids | exact Hc].
Qed.

Lemma resolveMaterial_uuid (s : GraphParser) (nd : nodeData)
    (pm : option Material) :
  uuidsWellFormed (gp_contents s) ->
  underscoreFree (materialUUID pm) = true ->
  underscoreFree
    (materialUUID (resolveMaterial (mc_materials (gp_contents s)) nd pm)) = true.
Proof.
  intros Hc Hpm. unfold resolveMaterial.
  destruct (truthy (nd_materialId nd)); [|exact Hpm].
  destruct (mc_materials (gp_contents s) !! ToString (nd_materialId nd))
    as [m|] eqn:E; [|exact Hpm].
  simpl. exact (Hc _ _ E).
Qed.

(** A loop whose body is stuck on the references of its items. *)
Lemma forEach_stuck {A X : Type} (body : X -> A -> Build X)
    (refsOf : A -> list string) (items : list A) :
  (forall x item s, clearOf B s ->
     ((exists n, n ∈ refsOf item /\ B n) -> body x item s = OutOfFuel) /\
     (forall x' s', body x item s = Done x' s' -> clearOf B s')) ->
  forall x s, clearOf B s ->
    ((exists n, n ∈ flat_map refsOf items /\ B n) ->
     forEach body items x s = OutOfFuel) /\
    (forall x' s', forEach body items x s = Done x' s' -> clearOf B s').
Proof.
  intros Hbody. induction items as [|item rest IH]; intros x s Hs; simpl.
  - split.
    + intros (n & Hn & _). inversion Hn.
    + intros x' s' E. inversion E; subst. exact Hs.
  - destruct (Hbody x item s Hs) as [Hstuck Hkeep].
    unfold mbind, Build_bind.
    destruct (body x item s) as [|x1 s1] eqn:E.
    + split; [reflexivity | discriminate].
    + specialize (Hkeep _ _ eq_refl).
      destruct (IH x1 s1 Hkeep) as [IHstuck IHkeep].
      split; [|exact IHkeep].
      intros (n & Hn & HB). apply elem_of_app in Hn as [Hn|Hn].
      * assert (Habs : @Done X x1 s1 = OutOfFuel) by (apply Hstuck; eauto).
        discriminate.
      * apply IHstuck. eauto.
Qed.

Lemma clearOf_objects (s : GraphParser) (k : nat) :
  clearOf B s ->
  clearOf B (mkGraphParser (gp_contents s) (gp_processedNodes s) (gp_nodes s) k).
Proof. intros Hs. exact Hs. Qed.

Variable rec : createNodeT.
Hypothesis rec_stuck : stuckOn B rec graphData.

Lemma addLodLevel_stuck (pm : option Material) (cs rs : bool)
    (lod : Object3D) (e : lodEntry) (s : GraphParser) :
  underscoreFree (materialUUID pm) = true -> clearOf B s ->
  ((exists n, n ∈ lodRefs (Some [e]) /\ B n) ->
   addLodLevel rec graphData pm cs rs lod e s = OutOfFuel) /\
  (forall lod' s', addLodLevel rec graphData pm cs rs lod e s = Done lod' s' ->
                   clearOf B s').
Proof.
  intros Hpm Hs. unfold addLodLevel, lodRefs. simpl.
  assert (Hnone : forall l : Object3D,
             ((exists n : string, n ∈ @nil string /\ B n) ->
              @mret Build _ _ l s = OutOfFuel) /\
             (forall lod' s', @mret Build _ _ l s = Done lod' s' -> clearOf B s')).
  { intros l. split.
    - intros (n & Hn & _). inversion Hn.
    - intros lod' s' E. inversion E; subst. exact Hs. }
  destruct (le_mindist e) as [| | |d| |]; try apply Hnone.
  destruct (truthy (le_nodeId e)); simpl; [|apply Hnone].
  destruct (rec_stuck (ToString (le_nodeId e)) pm cs rs s Hpm Hs)
    as [Hstuck Hkeep].
  unfold mbind, Build_bind.
  destruct (rec graphData (ToString (le_nodeId e)) pm cs rs s)
    as [|r s1] eqn:E.
  - split; [reflexivity | discriminate].
  - specialize (Hkeep _ _ eq_refl). split.
    + intros (n & Hn & HB). rewrite ?app_nil_r in Hn.
      apply list_elem_of_singleton in Hn. subst n.
      specialize (Hstuck HB). discriminate.
    + intros lod' s' E'. destruct r; inversion E'; subst; exact Hkeep.
Qed.

Lemma lodRefs_flat_map (entries : list lodEntry) :
  lodRefs (Some entries) = flat_map (fun e => lodRefs (Some [e])) entries.
Proof.
  unfold lodRefs. simpl. induction entries as [|e rest IH]; simpl;
    [reflexivity|].
  rewrite app_nil_r, IH. reflexivity.
Qed.

Lemma createLOD_stuck (lodNodes : option (list lodEntry))
    (transforms : option (list transform)) (pm : option Material)
    (cs rs : bool) (s : GraphParser) :
  underscoreFree (materialUUID pm) = true -> clearOf B s ->
  ((exists n, n ∈ lodRefs lodNodes /\ B n) ->
   createLOD rec graphData (Some (mkLodData lodNodes transforms)) pm cs rs s
   = OutOfFuel) /\
  (forall lod s',
      createLOD rec graphData (Some (mkLodData lodNodes transforms)) pm cs rs s
      = Done lod s' -> clearOf B s').
Proof.
  intros Hpm Hs. unfold createLOD.
  destruct lodNodes as [entries|].
  - rewrite lodRefs_flat_map. unfold mbind, Build_bind, newObject.
    match goal with
    | |- context [forEach ?b entries ?x ?s1] =>
        destruct (forEach_stuck b (fun e => lodRefs (Some [e])) entries
                    (fun x0 item s0 Hs0 =>
                       addLodLevel_stuck pm cs rs x0 item s0 Hpm Hs0)
                    x s1 (clearOf_objects s _ Hs)) as [Hstuck Hkeep];
        destruct (forEach b entries x s1) as [|lod s2] eqn:E
    end.
    + split; [reflexivity | discriminate].
    + split.
      * intros HB. specialize (Hstuck HB). discriminate.
      * intros lod' s' E'. inversion E'; subst. exact (Hkeep _ _ eq_refl).
  - split.
    + intros (n & Hn & _). inversion Hn.
    + intros lod s' E. inversion E; subst. exact Hs.
Qed.

Lemma clearOf_contents (s : GraphParser) (c : MyContents) (k : nat) :
  clearOf B s -> uuidsWellFormed c ->
  clearOf B (mkGraphParser c (gp_processedNodes s) (gp_nodes s) k).
Proof. intros [_ Hn] Hc. split; assumption. Qed.

Lemma handleChild_stuck (group : Object3D) (cd : childData)
    (pm : option Material) (cs rs : bool) (s : GraphParser) :
  underscoreFree (materialUUID pm) = true -> clearOf B s ->
  ((exists n, n ∈ childRefs cd /\ B n) ->
   handleChild rec group cd graphData pm cs rs s = OutOfFuel) /\
  (forall group' s',
      handleChild rec group cd graphData pm cs rs s = Done group' s' ->
      clearOf B s').
Proof.
  intros Hpm Hs. unfold handleChild, childRefs.
  assert (Hnone : forall A (a : A) (s1 : GraphParser),
             clearOf B s1 ->
             ((exists n : string, n ∈ @nil string /\ B n) ->
              Done a s1 = OutOfFuel) /\
             (forall a' s', Done a s1 = Done a' s' -> clearOf B s')).
  { intros A a s1 Hs1. split.
    - intros (n & Hn & _). inversion Hn.
    - intros a' s' E. inversion E; subst. exact Hs1. }
  destruct (strictEq (prop (cd_fields cd) "type") "lod").
  { destruct (createLOD_stuck (cd_lodNodes cd) (cd_transforms cd) pm cs rs s
                Hpm Hs) as [Hstuck Hkeep].
    unfold mbind, Build_bind.
    destruct (createLOD rec graphData _ pm cs rs s) as [|lod s1] eqn:E.
    - split; [reflexivity | discriminate].
    - specialize (Hkeep _ _ eq_refl). split.
      + intros HB. specialize (Hstuck HB). discriminate.
      + intros g' s' E'. destruct lod; inversion E'; subst; exact Hkeep. }
  destruct (strictEq (prop (cd_fields cd) "type") "noderef").
  { destruct (truthy (prop (cd_fields cd) "nodeId")); simpl;
      [|apply Hnone; exact Hs].
    destruct (rec_stuck (ToString (prop (cd_fields cd) "nodeId")) pm cs rs s
                Hpm Hs) as [Hstuck Hkeep].
    unfold mbind, Build_bind.
    destruct (rec graphData (ToString (prop (cd_fields cd) "nodeId")) pm cs rs s)
      as [|r s1] eqn:E.
    - split; [reflexivity | discriminate].
    - specialize (Hkeep _ _ eq_refl). split.
      + intros (n & Hn & HB). apply list_elem_of_singleton in Hn. subst n.
        specialize (Hstuck HB). discriminate.
      + intros g' s' E'. destruct r as [node|].
        * unfold cloneObject in E'.
          destruct (clone node (gp_objects s1)) as [o' next].
          inversion E'; subst. apply clearOf_objects. exact Hkeep.
        * inversion E'; subst. exact Hkeep. }
  split; [intros (n & Hn & _); inversion Hn|].
  intros g' s'.
  destruct (includesValue primitiveTypes (prop (cd_fields cd) "type")).
  { unfold mbind, Build_bind, buildPrimitive, newObject.
    destruct (loopsEnd (cd_fields cd)); [|discriminate].
    pose proof (createPrimitive_uuids (cd_fields cd) pm (gp_contents s)
                  (proj1 Hs)) as Hc.
    destruct (createPrimitive (cd_fields cd) pm (gp_contents s))
      as [[[mesh|] contents] warnings]; simpl in Hc; intros E;
      inversion E; subst; apply (clearOf_contents s); assumption. }
  destruct (includesValue lightTypes (prop (cd_fields cd) "type")).
  { destruct (createLight (cd_fields cd)
                (orElse (prop (cd_fields cd) "nodeId") (JStr "")))
      as [[lightGroup|] warnings]; intros E; inversion E; subst;
      [apply clearOf_objects|]; exact Hs. }
  intros E. inversion E; subst. exact Hs.
Qed.

Lemma expandChildren_stuck (children : option childrenData)
    (nm : option Material) (cs rs : bool) (group : Object3D)
    (s : GraphParser) :
  underscoreFree (materialUUID nm) = true -> clearOf B s ->
  ((exists n,
       n ∈ match children with
           | Some ch =>
               (flat_map directRefs (ch_direct ch)
                ++ flat_map listedNodeRefs (default [] (ch_nodesList ch))
                ++ flat_map (listedLodRefs graphData)
                     (default [] (ch_lodsList ch)))%list
           | None => []
           end /\ B n) ->
   expandChildren rec graphData children nm cs rs group s = OutOfFuel) /\
  (forall group' s',
      expandChildren rec graphData children nm cs rs group s = Done group' s' ->
      clearOf B s').
Proof.
  intros Hnm Hs. unfold expandChildren.
  destruct children as [ch|].
  2:{ split.
      - intros (n & Hn & _). inversion Hn.
      - intros g' s' E. inversion E; subst. exact Hs. }
  assert (Hdirect : forall x item s0, clearOf B s0 ->
            ((exists n, n ∈ directRefs item /\ B n) ->
             directChild rec graphData nm cs rs x item s0 = OutOfFuel) /\
            (forall x' s', directChild rec graphData nm cs rs x item s0
                           = Done x' s' -> clearOf B s')).
  { intros x [childId cd] s0 Hs0. unfold directChild, directRefs.
    destruct (String.eqb childId "nodesList" || String.eqb childId "lodsList").
    - split.
      + intros (n & Hn & _). inversion Hn.
      + intros x' s' E. inversion E; subst. exact Hs0.
    - apply handleChild_stuck; assumption. }
  assert (Hlisted : forall x item s0, clearOf B s0 ->
            ((exists n, n ∈ listedNodeRefs item /\ B n) ->
             listedNode rec graphData nm cs rs x item s0 = OutOfFuel) /\
            (forall x' s', listedNode rec graphData nm cs rs x item s0
                           = Done x' s' -> clearOf B s')).
  { intros x item s0 Hs0. unfold listedNode.
    apply (handleChild_stuck x
             (mkChildData [("type", JStr "noderef"); ("nodeId", item)] None None)
             nm cs rs s0 Hnm Hs0). }
  assert (Hlod : forall x item s0, clearOf B s0 ->
            ((exists n, n ∈ listedLodRefs graphData item /\ B n) ->
             listedLod rec graphData nm cs rs x item s0 = OutOfFuel) /\
            (forall x' s', listedLod rec graphData nm cs rs x item s0
                           = Done x' s' -> clearOf B s')).
  { intros x item s0 Hs0. unfold listedLod, listedLodRefs.
    unfold mbind, Build_bind.
    destruct (graphData !! ToString item) as [entry|]; [|simpl].
    - destruct (createLOD_stuck (nd_lodNodes entry) (nd_transforms entry)
                  nm cs rs s0 Hnm Hs0) as [Hstuck Hkeep].
      change (asLodData <$> Some entry)
        with (Some (mkLodData (nd_lodNodes entry) (nd_transforms entry))).
      destruct (createLOD rec graphData _ nm cs rs s0) as [|lod s1] eqn:E.
      + split; [reflexivity | discriminate].
      + specialize (Hkeep _ _ eq_refl). split.
        * intros HB. specialize (Hstuck HB). discriminate.
        * intros x' s' E'. destruct lod; inversion E'; subst; exact Hkeep.
    - split.
      + intros (n & Hn & _). inversion Hn.
      + intros x' s' E. inversion E; subst. exact Hs0. }
  unfold mbind, Build_bind.
  destruct (forEach_stuck _ _ (ch_direct ch) Hdirect group s Hs) as [S1 K1].
  destruct (forEach (directChild rec graphData nm cs rs) (ch_direct ch) group s)
    as [|g1 s1] eqn:E1; [split; [reflexivity | discriminate]|].
  specialize (K1 _ _ eq_refl).
  destruct (forEach_stuck _ _ (default [] (ch_nodesList ch)) Hlisted g1 s1 K1)
    as [S2 K2].
  destruct (forEach (listedNode rec graphData nm cs rs)
              (default [] (ch_nodesList ch)) g1 s1)
    as [|g2 s2] eqn:E2; [split; [reflexivity | discriminate]|].
  specialize (K2 _ _ eq_refl).
  destruct (forEach_stuck _ _ (default [] (ch_lodsList ch)) Hlod g2 s2 K2)
    as [S3 K3].
  split; [|exact K3].
  intros (n & Hn & HB).
  apply elem_of_app in Hn as [Hn|Hn];
    [assert (Habs : @Done Object3D g1 s1 = OutOfFuel) by eauto; discriminate|].
  apply elem_of_app in Hn as [Hn|Hn];
    [assert (Habs : @Done Object3D g2 s2 = OutOfFuel) by eauto; discriminate|].
  apply S3. eauto.
Qed.

(** If the recursive calls are stuck on [B], so is the body. *)
Lemma createNodeBody_stuck : stuckOn B (createNodeBody rec) graphData.
Proof.
  intros n m cs rs s Hm Hs. unfold createNodeBody.
  destruct (decide (cacheKey n m ∈ gp_processedNodes s)) as [Hin|Hout].
  { split.
    - intros HB. exfalso. exact (proj2 Hs n _ HB Hm Hin).
    - intros r s' E. inversion E; subst. exact Hs. }
  destruct (lookupNode graphData n) as [nd|] eqn:Elook.
  2:{ split.
      - intros HB. destruct (B_closed n HB) as (n' & Hn' & _).
        unfold refersTo, references in Hn'.
        rewrite (lookupNode_none graphData n Elook) in Hn'. inversion Hn'.
      - intros r s' E. inversion E; subst. exact Hs. }
  unfold mbind, Build_bind, newObject, cacheNode.
  pose proof (resolveMaterial_uuid s nd m (proj1 Hs) Hm) as Hnm.
  match goal with
  | |- context [expandChildren rec graphData ?ch ?nm ?c ?r ?g ?s1] =>
      destruct (expandChildren_stuck ch nm c r g s1 Hnm
                  (clearOf_objects s _ Hs)) as [Hstuck Hkeep];
      destruct (expandChildren rec graphData ch nm c r g s1)
        as [|group s2] eqn:E
  end.
  { split; [reflexivity | discriminate]. }
  specialize (Hkeep _ _ eq_refl).
  assert (HnB : ~ B n).
  { intros HB. destruct (B_closed n HB) as (n' & Hn' & HB').
    unfold refersTo in Hn'.
    rewrite (references_lookup graphData n nd Elook) in Hn'.
    assert (Habs : @Done Object3D group s2 = OutOfFuel).
    { apply Hstuck. exists n'. split; [exact Hn' | exact HB']. }
    discriminate. }
  split; [intros HB; contradiction|].
  intros r s' E'. inversion E'; subst. split; [exact (proj1 Hkeep)|].
  intros b u HB Hu Hin. simpl in Hin.
  apply elem_of_union in Hin as [Hin|Hin].
  - apply elem_of_singleton in Hin. unfold cacheKey in Hin.
    apply cacheKey_inj in Hin as [-> _]; [contradiction | exact Hu | exact Hm].
  - exact (proj2 Hkeep b u HB Hu Hin).
Qed.

End Divergence.

Section Cycles.
Context `{Host} `{Three}.
Variable graphData : gmap string nodeData.

(** From a node that reaches a cycle another such node is referenced. *)
Lemma reachesCycle_closed (n : string) :
  reachesCycle graphData n ->
  exists n', refersTo graphData n n' /\ reachesCycle graphData n'.
Proof.
  intros (c & Hreach & Hcycle).
  destruct Hreach as [n|n y c Hstep Hrest].
  - inversion Hcycle as [? ? Hstep | ? y ? Hstep Hrest]; subst.
    + exists n. split; [exact Hstep|]. exists n. split; [apply rtc_refl|].
      exact Hcycle.
    + exists y. split; [exact Hstep|]. exists n.
      split; [apply tc_rtc; exact Hrest | exact Hcycle].
  - exists y. split; [exact Hstep|]. exists c. split; assumption.
Qed.

Lemma createNode_stuck (fuel : nat) :
  (forall k, underscoreFree (generateUUID k) = true) ->
  stuckOn (reachesCycle graphData) (createNode fuel) graphData.
Proof.
  intros Hhost. induction fuel as [|fuel IH].
  - intros n m cs rs s _ _. split; [reflexivity | discriminate].
  - apply (createNodeBody_stuck graphData (reachesCycle graphData)
             reachesCycle_closed Hhost (createNode fuel) IH).
Qed.

End Cycles.

(** ** The graph builder: acyclic graphs *)

Section Acyclic.
Context `{Host}.
Variable graphData : gmap string nodeData.

(** Only the entries of the table refer to nodes. *)
Lemma refersTo_dom (a b : string) :
  refersTo graphData a b -> a ∈ dom graphData.
Proof.
  unfold refersTo, references. intros Hin.
  destruct (graphData !! a) as [nd|] eqn:E.
  - apply elem_of_dom. eauto.
  - inversion Hin.
Qed.

(** The table is finite: a chain of references that never closes a
    cycle runs out of entries.  [X] holds the entries the chain has
    passed through. *)
Lemma acyclic_Acc_from (k : nat) :
  forall (X : gset string) (n : string),
    size (dom graphData ∖ X) <= k ->
    (forall x, x ∈ X -> tc (refersTo graphData) x n) ->
    (forall c, rtc (refersTo graphData) n c -> ~ tc (refersTo graphData) c c) ->
    Acc (fun b a => refersTo graphData a b) n.
Proof.
  induction k as [|k IH]; intros X n Hsize HX Hacyclic;
    constructor; intros y Hy.
  - assert (n ∈ dom graphData ∖ X) as Hn.
    { apply elem_of_difference. split; [eapply refersTo_dom; exact Hy|].
      intros Hin. apply (Hacyclic n); [apply rtc_refl | apply HX; exact Hin]. }
    assert (size (dom graphData ∖ X) = 0) as Hzero by lia.
    apply size_empty_inv in Hzero.
    destruct (not_elem_of_empty (C:=gset string) n). apply Hzero. exact Hn.
  - assert (n ∈ dom graphData) as Hdom by (eapply refersTo_dom; exact Hy).
    assert (n ∉ X) as Hfresh.
    { intros Hin. apply (Hacyclic n); [apply rtc_refl | apply HX; exact Hin]. }
    apply (IH (X ∪ {[ n ]})).
    + assert (dom graphData ∖ (X ∪ {[ n ]}) ⊂ dom graphData ∖ X) as Hsub.
      { split.
        - intros x Hx. apply elem_of_difference in Hx as [Hx1 Hx2].
          apply elem_of_difference. split; [exact Hx1|].
          intros Hin. apply Hx2. apply elem_of_union. left. exact Hin.
        - intros Hall.
          assert (n ∈ dom graphData ∖ (X ∪ {[ n ]})) as Hbad.
          { apply Hall. apply elem_of_difference. split; assumption. }
          apply elem_of_difference in Hbad as [_ Hbad]. apply Hbad.
          apply elem_of_union. right. apply elem_of_singleton. reflexivity. }
      apply subset_size in Hsub. lia.
    + intros x Hx. apply elem_of_union in Hx as [Hx|Hx].
      * eapply tc_r; [apply HX; exact Hx | exact Hy].
      * apply elem_of_singleton in Hx. subst x. apply tc_once. exact Hy.
    + intros c Hc. apply Hacyclic. eapply rtc_l; [exact Hy | exact Hc].
Qed.

(** In a graph without a cycle below [n], no infinite chain of
    references starts at [n]. *)
Lemma acyclic_Acc (n : string) :
  (forall c, rtc (refersTo graphData) n c -> ~ tc (refersTo graphData) c c) ->
  Acc (fun b a => refersTo graphData a b) n.
Proof.
  intros Hacyclic.
  apply (acyclic_Acc_from (size (dom graphData ∖ ∅)) ∅ n);
    [lia | | exact Hacyclic].
  intros x Hx. destruct (not_elem_of_empty (C:=gset string) x Hx).
Qed.

Lemma Acc_no_cycle (c : string) :
  Acc (fun b a => refersTo graphData a b) c -> ~ tc (refersTo graphData) c c.
Proof.
  induction 1 as [c _ IH]. intros Hcycle.
  inversion Hcycle as [? ? Hstep | ? y ? Hstep Hrest]; subst.
  - apply (IH c Hstep). exact Hcycle.
  - apply (IH y Hstep). eapply tc_r; [exact Hrest | exact Hstep].
Qed.

(** The converse: where no infinite chain starts, there is no cycle. *)
Lemma Acc_acyclic (n : string) :
  Acc (fun b a => refersTo graphData a b) n ->
  forall c, rtc (refersTo graphData) n c -> ~ tc (refersTo graphData) c c.
Proof.
  intros Hacc c Hreach. apply Acc_no_cycle.
  induction Hreach as [x | x y z Hstep _ IH]; [exact Hacc|].
  apply IH. apply (Acc_inv Hacc). exact Hstep.
Qed.

End Acyclic.

(** ** The graph builder: what every run keeps *)

Section StateInvariant.
Context `{Host} `{Three}.

(** A property of the cache that no step besides the two assignments
    closing [createNode] can break. *)
Variable P : GraphParser -> Prop.
Hypothesis P_frame : forall s c k,
  P s -> P (mkGraphParser c (gp_processedNodes s) (gp_nodes s) k).

Lemma forEach_keeps {A X : Type} (body : X -> A -> Build X) (items : list A) :
  (forall x item s x' s', P s -> body x item s = Done x' s' -> P s') ->
  forall x s x' s', P s -> forEach body items x s = Done x' s' -> P s'.
Proof.
  intros Hbody. induction items as [|item rest IH]; intros x s x' s' Hs E;
    simpl in E.
  - inversion E; subst. exact Hs.
  - unfold mbind, Build_bind in E.
    destruct (body x item s) as [|x1 s1] eqn:E1; [discriminate|].
    exact (IH _ _ _ _ (Hbody _ _ _ _ _ Hs E1) E).
Qed.

Variable rec : createNodeT.
Variable graphData : gmap string nodeData.
Hypothesis rec_keeps : forall n m cs rs s r s',
  P s -> rec graphData n m cs rs s = Done r s' -> P s'.

Lemma addLodLevel_keeps (pm : option Material) (cs rs : bool)
    (lod : Object3D) (e : lodEntry) (s : GraphParser) (lod' : Object3D)
    (s' : GraphParser) :
  P s -> addLodLevel rec graphData pm cs rs lod e s = Done lod' s' -> P s'.
Proof.
  intros Hs. unfold addLodLevel.
  assert (Hsame : forall l : Object3D,
             @mret Build _ _ l s = Done lod' s' -> P s').
  { intros l E. inversion E; subst. exact Hs. }
  destruct (le_mindist e) as [| | |d| |]; try apply Hsame.
  destruct (truthy (le_nodeId e)); simpl; [|apply Hsame].
  unfold mbind, Build_bind.
  destruct (rec graphData (ToString (le_nodeId e)) pm cs rs s)
    as [|r s1] eqn:E1; [discriminate|].
  intros E. pose proof (rec_keeps _ _ _ _ _ _ _ Hs E1).
  destruct r; inversion E; subst; assumption.
Qed.

Lemma createLOD_keeps (data : option lodData) (pm : option Material)
    (cs rs : bool) (s : GraphParser) (lod : option Object3D)
    (s' : GraphParser) :
  P s -> createLOD rec graphData data pm cs rs s = Done lod s' -> P s'.
Proof.
  intros Hs. unfold createLOD.
  assert (Hsame : @mret Build _ _ (@None Object3D) s = Done lod s' -> P s').
  { intros E. inversion E; subst. exact Hs. }
  destruct data as [[[entries|] transforms]|]; try exact Hsame.
  unfold mbind, Build_bind, newObject.
  match goal with
  | |- context [forEach ?b entries ?x ?s1] =>
      destruct (forEach b entries x s1) as [|l s2] eqn:E1; [discriminate|]
  end.
  intros E. inversion E; subst.
  eapply forEach_keeps; [| |exact E1].
  - intros x item s0 x' s0'. apply addLodLevel_keeps.
  - apply P_frame, Hs.
Qed.

Lemma handleChild_keeps (group : Object3D) (cd : childData)
    (pm : option Material) (cs rs : bool) (s : GraphParser)
    (group' : Object3D) (s' : GraphParser) :
  P s -> handleChild rec group cd graphData pm cs rs s = Done group' s' ->
  P s'.
Proof.
  intros Hs. unfold handleChild.
  assert (Hsame : forall l : Object3D,
             @mret Build _ _ l s = Done group' s' -> P s').
  { intros l E. inversion E; subst. exact Hs. }
  destruct (strictEq (prop (cd_fields cd) "type") "lod").
  { unfold mbind, Build_bind.
    destruct (createLOD rec graphData _ pm cs rs s) as [|lod s1] eqn:E1;
      [discriminate|].
    intros E. pose proof (createLOD_keeps _ _ _ _ _ _ _ Hs E1).
    destruct lod; inversion E; subst; assumption. }
  destruct (strictEq (prop (cd_fields cd) "type") "noderef").
  { destruct (truthy (prop (cd_fields cd) "nodeId")); simpl; [|apply Hsame].
    unfold mbind, Build_bind, cloneObject.
    destruct (rec graphData _ pm cs rs s) as [|[node|] s1] eqn:E1;
      [discriminate| |].
    - pose proof (rec_keeps _ _ _ _ _ _ _ Hs E1) as Hs1.
      destruct (clone node (gp_objects s1)) as [o' next].
      intros E. inversion E; subst. apply P_frame, Hs1.
    - intros E. inversion E; subst. exact (rec_keeps _ _ _ _ _ _ _ Hs E1). }
  destruct (includesValue primitiveTypes (prop (cd_fields cd) "type")).
  { unfold mbind, Build_bind, buildPrimitive, newObject.
    destruct (loopsEnd (cd_fields cd)); [|discriminate].
    destruct (createPrimitive (cd_fields cd) pm (gp_contents s))
      as [[[mesh|] contents] warnings]; intros E; inversion E; subst.
    - apply (P_frame (mkGraphParser contents (gp_processedNodes s)
                        (gp_nodes s) (gp_objects s))).
      apply P_frame, Hs.
    - apply P_frame, Hs. }
  destruct (includesValue lightTypes (prop (cd_fields cd) "type")).
  { destruct (createLight (cd_fields cd) _) as [[lightGroup|] warnings];
      [|apply Hsame].
    intros E. inversion E; subst. apply P_frame, Hs. }
  apply Hsame.
Qed.

Lemma expandChildren_keeps (children : option childrenData)
    (nm : option Material) (cs rs : bool) (group : Object3D)
    (s : GraphParser) (group' : Object3D) (s' : GraphParser) :
  P s ->
  expandChildren rec graphData children nm cs rs group s = Done group' s' ->
  P s'.
Proof.
  intros Hs. unfold expandChildren. destruct children as [ch|].
  2:{ intros E. inversion E; subst. exact Hs. }
  unfold mbind, Build_bind.
  destruct (forEach (directChild rec graphData nm cs rs) (ch_direct ch) group s)
    as [|g1 s1] eqn:E1; [discriminate|].
  destruct (forEach (listedNode rec graphData nm cs rs)
              (default [] (ch_nodesList ch)) g1 s1)
    as [|g2 s2] eqn:E2; [discriminate|].
  intros E3.
  apply forEach_keeps in E1; [|clear E1|exact Hs].
  2:{ intros x [childId cd] s0 x' s0' Hs0. unfold directChild.
      destruct (String.eqb childId "nodesList" || String.eqb childId "lodsList").
      - intros E. inversion E; subst. exact Hs0.
      - apply handleChild_keeps. exact Hs0. }
  apply forEach_keeps in E2; [|clear E2|exact E1].
  2:{ intros x item s0 x' s0' Hs0. apply handleChild_keeps. exact Hs0. }
  apply forEach_keeps in E3; [exact E3|clear E3|exact E2].
  intros x item s0 x' s0' Hs0. unfold listedLod, mbind, Build_bind.
  destruct (createLOD rec graphData _ nm cs rs s0) as [|lod s3] eqn:E;
    [discriminate|].
  intros E'. pose proof (createLOD_keeps _ _ _ _ _ _ _ Hs0 E).
  destruct lod; inversion E'; subst; assumption.
Qed.

(** The assignments keep the property when they write a key that the
    call did not find among the processed nodes. *)
Hypothesis P_cache : forall s0 s key group,
  P s0 -> key ∉ gp_processedNodes s0 -> P s ->
  P (mkGraphParser (gp_contents s) ({[ key ]} ∪ gp_processedNodes s)
       (<[key := group]> (gp_nodes s)) (gp_objects s)).

Lemma createNodeBody_keeps (n : string) (m : option Material) (cs rs : bool)
    (s : GraphParser) (r : option Object3D) (s' : GraphParser) :
  P s -> createNodeBody rec graphData n m cs rs s = Done r s' -> P s'.
Proof.
  intros Hs. unfold createNodeBody.
  destruct (decide (cacheKey n m ∈ gp_processedNodes s)) as [Hin|Hout].
  { intros E. inversion E; subst. exact Hs. }
  destruct (lookupNode graphData n) as [nd|].
  2:{ intros E. inversion E; subst. exact Hs. }
  unfold mbind, Build_bind, newObject, cacheNode.
  match goal with
  | |- context [expandChildren rec graphData ?ch ?nm ?c ?r0 ?g ?s1] =>
      destruct (expandChildren rec graphData ch nm c r0 g s1)
        as [|group s2] eqn:E1; [discriminate|]
  end.
  intros E. inversion E; subst. apply (P_cache s); [exact Hs | exact Hout |].
  eapply expandChildren_keeps; [|exact E1]. apply P_frame, Hs.
Qed.

End StateInvariant.

Section Kept.
Context `{Host} `{Three}.
Variable graphData : gmap string nodeData.

Lemma createNode_keeps (P : GraphParser -> Prop) :
  (forall s c k,
      P s -> P (mkGraphParser c (gp_processedNodes s) (gp_nodes s) k)) ->
  (forall s0 s key group,
      P s0 -> key ∉ gp_processedNodes s0 -> P s ->
      P (mkGraphParser (gp_contents s) ({[ key ]} ∪ gp_processedNodes s)
           (<[key := group]> (gp_nodes s)) (gp_objects s))) ->
  forall fuel n m cs rs s r s',
    P s -> createNode fuel graphData n m cs rs s = Done r s' -> P s'.
Proof.
  intros Hframe Hcache. induction fuel as [|fuel IH];
    intros n m cs rs s r s' Hs E; [discriminate|].
  simpl in E.
  exact (createNodeBody_keeps P Hframe (createNode fuel) graphData IH Hcache
           n m cs rs s r s' Hs E).
Qed.

(** No step of the parser breaks such a property. *)
Lemma parserStep_keeps (P : GraphParser -> Prop) :
  (forall s c k,
      P s -> P (mkGraphParser c (gp_processedNodes s) (gp_nodes s) k)) ->
  (forall s0 s key group,
      P s0 -> key ∉ gp_processedNodes s0 -> P s ->
      P (mkGraphParser (gp_contents s) ({[ key ]} ∪ gp_processedNodes s)
           (<[key := group]> (gp_nodes s)) (gp_objects s))) ->
  forall s s', rtc (parserStep graphData) s s' -> P s -> P s'.
Proof.
  intros Hframe Hcache s s' Hsteps.
  induction Hsteps as [s | s s1 s2 Hstep _ IH]; [auto|].
  intros Hs. apply IH.
  destruct Hstep as [fuel n m cs rs r E | fuel g cd pm cs rs g' E
                    | fuel data pm cs rs lod E].
  - exact (createNode_keeps P Hframe Hcache fuel n m cs rs s r s1 Hs E).
  - exact (handleChild_keeps P Hframe (createNode fuel) graphData
             (createNode_keeps P Hframe Hcache fuel) g cd pm cs rs s g' s1 Hs E).
  - exact (createLOD_keeps P Hframe (createNode fuel) graphData
             (createNode_keeps P Hframe Hcache fuel) data pm cs rs s lod s1 Hs E).
Qed.

(** An entry of the cache stays, with its object, whatever the parser
    does afterwards. *)
Lemma cached_stays (key : string) (o : Object3D) (s s' : GraphParser) :
  rtc (parserStep graphData) s s' ->
  key ∈ gp_processedNodes s /\ gp_nodes s !! key = Some o ->
  key ∈ gp_processedNodes s' /\ gp_nodes s' !! key = Some o.
Proof.
  apply (parserStep_keeps
           (fun s => key ∈ gp_processedNodes s /\ gp_nodes s !! key = Some o)).
  - intros s0 c k Hs0. exact Hs0.
  - intros s0 s1 key' group [Hin0 _] Hout [Hin Ho]. simpl.
    assert (key' <> key) as Hne by (intros ->; contradiction).
    split; [set_solver|]. rewrite lookup_insert_ne; [exact Ho | exact Hne].
Qed.

(** An object returned by [createNode] is the one cached under the key
    of the call. *)
Lemma createNode_cached (fuel : nat) (n : string) (m : option Material)
    (cs rs : bool) (s : GraphParser) (r : Object3D) (s1 : GraphParser) :
  createNode fuel graphData n m cs rs s = Done (Some r) s1 ->
  cacheKey n m ∈ gp_processedNodes s1 /\
  gp_nodes s1 !! cacheKey n m = Some r.
Proof.
  destruct fuel as [|fuel]; [discriminate|]. simpl. unfold createNodeBody.
  destruct (decide (cacheKey n m ∈ gp_processedNodes s)) as [Hin|Hout].
  { intros E. injection E as Hr <-. split; [exact Hin | exact Hr]. }
  destruct (lookupNode graphData n) as [nd|]; [|discriminate].
  unfold mbind, Build_bind, newObject, cacheNode.
  match goal with
  | |- context [expandChildren ?rec graphData ?ch ?nm ?c ?r0 ?g ?s0] =>
      destruct (expandChildren rec graphData ch nm c r0 g s0)
        as [|group s2]; [discriminate|]
  end.
  intros E. inversion E; subst. simpl. split; [set_solver|].
  apply lookup_insert_eq.
Qed.

Lemma createNode_synced (fuel : nat) (n : string) (m : option Material)
    (cs rs : bool) (s : GraphParser) (r : option Object3D) (s' : GraphParser) :
  cacheSynced s -> createNode fuel graphData n m cs rs s = Done r s' ->
  cacheSynced s'.
Proof.
  apply (createNode_keeps cacheSynced).
  - intros s0 c k Hs0. exact Hs0.
  - intros _ s0 key group _ _ Hs0. unfold cacheSynced in *. simpl.
    rewrite dom_insert_L, Hs0. reflexivity.
Qed.

End Kept.

Lemma newGraphParser_synced (c : MyContents) : cacheSynced (newGraphParser c).
Proof. unfold cacheSynced. simpl. apply dom_empty_L. Qed.

(** ** The graph builder: the key of a node while its children are
    expanded *)

Section Unmarked.
Context `{Host} `{Three}.
Variable graphData : gmap string nodeData.
Variable key : string.
Variable R : string -> Prop.
Hypothesis host_uuids : forall k, underscoreFree (generateUUID k) = true.

Lemma agree_same {A : Type} (c : Build A) (s : GraphParser) :
  (forall a s', c s = Done a s' -> unmarked key s') -> agree key c c s.
Proof. intros Hkeep. split; [reflexivity | exact Hkeep]. Qed.

Lemma agree_ret {A : Type} (a : A) (s : GraphParser) :
  unmarked key s -> agree key (mret a) (mret a) s.
Proof.
  intros Hs. apply agree_same. intros a' s' E. inversion E; subst. exact Hs.
Qed.

Lemma unmarked_frame (s : GraphParser) (c : MyContents) (k : nat) :
  unmarked key s -> uuidsWellFormed c ->
  unmarked key (mkGraphParser c (gp_processedNodes s) (gp_nodes s) k).
Proof. intros [_ Hk] Hc. split; assumption. Qed.

Lemma forEach_agree {A X : Type} (body1 body2 : X -> A -> Build X)
    (refsOf : A -> list string) (items : list A) :
  (forall x item s,
      (forall c, c ∈ refsOf item -> R c) -> unmarked key s ->
      agree key (body1 x item) (body2 x item) s) ->
  forall x s,
    (forall c, c ∈ flat_map refsOf items -> R c) -> unmarked key s ->
    agree key (forEach body1 items x) (forEach body2 items x) s.
Proof.
  intros Hbody. induction items as [|item rest IH]; intros x s HR Hs.
  - apply (agree_ret x s Hs).
  - simpl in HR. simpl. unfold agree at 1, mbind, Build_bind.
    destruct (Hbody x item s) as [Heq Hkeep]; [|exact Hs|].
    { intros c Hc. apply HR, elem_of_app. left. exact Hc. }
    rewrite <- Heq.
    destruct (body1 x item s) as [|x1 s1]; [split; [reflexivity | discriminate]|].
    apply IH; [|exact (Hkeep _ _ eq_refl)].
    intros c Hc. apply HR, elem_of_app. right. exact Hc.
Qed.

Variables rec1 rec2 : createNodeT.
Hypothesis rec_agree : agreeOn key R rec1 rec2 graphData.

Lemma addLodLevel_agree (pm : option Material) (cs rs : bool)
    (lod : Object3D) (e : lodEntry) (s : GraphParser) :
  underscoreFree (materialUUID pm) = true ->
  (forall c, c ∈ lodRefs (Some [e]) -> R c) -> unmarked key s ->
  agree key (addLodLevel rec1 graphData pm cs rs lod e)
    (addLodLevel rec2 graphData pm cs rs lod e) s.
Proof.
  intros Hpm HR Hs. unfold addLodLevel. unfold lodRefs in HR. simpl in HR.
  destruct (le_mindist e) as [| | |d| |]; try apply (agree_ret lod s Hs).
  destruct (truthy (le_nodeId e)); simpl; [|apply (agree_ret lod s Hs)].
  destruct (rec_agree (ToString (le_nodeId e)) pm cs rs s) as [Heq Hkeep];
    [|exact Hpm|exact Hs|].
  { apply HR. simpl. left. }
  unfold agree, mbind, Build_bind. rewrite <- Heq.
  destruct (rec1 graphData (ToString (le_nodeId e)) pm cs rs s) as [|r s1].
  - split; [reflexivity | discriminate].
  - split; [reflexivity|].
    intros a s' E. destruct r; inversion E; subst; exact (Hkeep _ _ eq_refl).
Qed.

Lemma createLOD_agree (lodNodes : option (list lodEntry))
    (transforms : option (list transform)) (pm : option Material)
    (cs rs : bool) (s : GraphParser) :
  underscoreFree (materialUUID pm) = true ->
  (forall c, c ∈ lodRefs lodNodes -> R c) -> unmarked key s ->
  agree key
    (createLOD rec1 graphData (Some (mkLodData lodNodes transforms)) pm cs rs)
    (createLOD rec2 graphData (Some (mkLodData lodNodes transforms)) pm cs rs)
    s.
Proof.
  intros Hpm HR Hs. unfold createLOD.
  destruct lodNodes as [entries|]; [|apply (agree_ret None s Hs)].
  rewrite lodRefs_flat_map in HR.
  unfold agree, mbind, Build_bind, newObject.
  match goal with
  | |- context [forEach ?b entries ?x ?s1] =>
      destruct (forEach_agree b
                  (addLodLevel rec2 graphData pm cs rs)
                  (fun e => lodRefs (Some [e])) entries
                  (fun x0 item s0 HR0 Hs0 =>
                     addLodLevel_agree pm cs rs x0 item s0 Hpm HR0 Hs0)
                  x s1 HR (unmarked_frame s _ _ Hs (proj1 Hs)))
        as [Heq Hkeep];
      rewrite <- Heq;
      destruct (forEach b entries x s1) as [|lod s2]
  end.
  - split; [reflexivity | discriminate].
  - split; [reflexivity|].
    intros a s' E. inversion E; subst. exact (Hkeep _ _ eq_refl).
Qed.

Lemma handleChild_agree (group : Object3D) (cd : childData)
    (pm : option Material) (cs rs : bool) (s : GraphParser) :
  underscoreFree (materialUUID pm) = true ->
  (forall c, c ∈ childRefs cd -> R c) -> unmarked key s ->
  agree key (handleChild rec1 group cd graphData pm cs rs)
    (handleChild rec2 group cd graphData pm cs rs) s.
Proof.
  intros Hpm HR Hs. unfold handleChild. unfold childRefs in HR.
  destruct (strictEq (prop (cd_fields cd) "type") "lod").
  { destruct (createLOD_agree (cd_lodNodes cd) (cd_transforms cd) pm cs rs s
                Hpm HR Hs) as [Heq Hkeep].
    unfold agree, mbind, Build_bind. rewrite <- Heq.
    destruct (createLOD rec1 graphData _ pm cs rs s) as [|lod s1].
    - split; [reflexivity | discriminate].
    - split; [reflexivity|].
      intros a s' E. destruct lod; inversion E; subst; exact (Hkeep _ _ eq_refl). }
  destruct (strictEq (prop (cd_fields cd) "type") "noderef").
  { destruct (truthy (prop (cd_fields cd) "nodeId")); simpl;
      [|apply (agree_ret group s Hs)].
    destruct (rec_agree (ToString (prop (cd_fields cd) "nodeId")) pm cs rs s)
      as [Heq Hkeep]; [|exact Hpm|exact Hs|].
    { apply HR. left. }
    unfold agree, mbind, Build_bind. rewrite <- Heq.
    destruct (rec1 graphData (ToString (prop (cd_fields cd) "nodeId")) pm cs rs s)
      as [|r s1].
    - split; [reflexivity | discriminate].
    - split; [reflexivity|].
      specialize (Hkeep _ _ eq_refl).
      intros a s' E. destruct r as [node|].
      + unfold cloneObject in E.
        destruct (clone node (gp_objects s1)) as [o' next].
        inversion E; subst. exact (unmarked_frame s1 _ _ Hkeep (proj1 Hkeep)).
      + inversion E; subst. exact Hkeep. }
  apply agree_same. intros g' s'.
  destruct (includesValue primitiveTypes (prop (cd_fields cd) "type")).
  { unfold mbind, Build_bind, buildPrimitive, newObject.
    destruct (loopsEnd (cd_fields cd)); [|discriminate].
    pose proof (createPrimitive_uuids host_uuids (cd_fields cd) pm
                  (gp_contents s) (proj1 Hs)) as Hc.
    destruct (createPrimitive (cd_fields cd) pm (gp_contents s))
      as [[[mesh|] contents] warnings]; simpl in Hc; intros E;
      inversion E; subst; apply (unmarked_frame s); assumption. }
  destruct (includesValue lightTypes (prop (cd_fields cd) "type")).
  { destruct (createLight (cd_fields cd)
                (orElse (prop (cd_fields cd) "nodeId") (JStr "")))
      as [[lightGroup|] warnings]; intros E; inversion E; subst;
      [apply (unmarked_frame s _ _ Hs (proj1 Hs)) | exact Hs]. }
  intros E. inversion E; subst. exact Hs.
Qed.

Lemma expandChildren_agree (children : option childrenData)
    (nm : option Material) (cs rs : bool) (group : Object3D)
    (s : GraphParser) :
  underscoreFree (materialUUID nm) = true ->
  (forall c,
      c ∈ match children with
          | Some ch =>
              (flat_map directRefs (ch_direct ch)
               ++ flat_map listedNodeRefs (default [] (ch_nodesList ch))
               ++ flat_map (listedLodRefs graphData)
                    (default [] (ch_lodsList ch)))%list
          | None => []
          end -> R c) ->
  unmarked key s ->
  agree key (expandChildren rec1 graphData children nm cs rs group)
    (expandChildren rec2 graphData children nm cs rs group) s.
Proof.
  intros Hnm HR Hs. unfold expandChildren.
  destruct children as [ch|]; [|apply (agree_ret group s Hs)].
  assert (Hdirect : forall x item s0,
            (forall c, c ∈ directRefs item -> R c) -> unmarked key s0 ->
            agree key (directChild rec1 graphData nm cs rs x item)
              (directChild rec2 graphData nm cs rs x item) s0).
  { intros x [childId cd] s0 HR0 Hs0. unfold directChild.
    unfold directRefs in HR0.
    destruct (String.eqb childId "nodesList" || String.eqb childId "lodsList").
    - apply (agree_ret x s0 Hs0).
    - apply handleChild_agree; assumption. }
  assert (Hlisted : forall x item s0,
            (forall c, c ∈ listedNodeRefs item -> R c) -> unmarked key s0 ->
            agree key (listedNode rec1 graphData nm cs rs x item)
              (listedNode rec2 graphData nm cs rs x item) s0).
  { intros x item s0 HR0 Hs0. unfold listedNode.
    apply (handleChild_agree x
             (mkChildData [("type", JStr "noderef"); ("nodeId", item)] None None)
             nm cs rs s0 Hnm HR0 Hs0). }
  assert (Hlod : forall x item s0,
            (forall c, c ∈ listedLodRefs graphData item -> R c) ->
            unmarked key s0 ->
            agree key (listedLod rec1 graphData nm cs rs x item)
              (listedLod rec2 graphData nm cs rs x item) s0).
  { intros x item s0 HR0 Hs0. unfold listedLod. unfold listedLodRefs in HR0.
    unfold agree, mbind, Build_bind.
    destruct (graphData !! ToString item) as [entry|]; [|simpl].
    - destruct (createLOD_agree (nd_lodNodes entry) (nd_transforms entry)
                  nm cs rs s0 Hnm HR0 Hs0) as [Heq Hkeep].
      change (asLodData <$> Some entry)
        with (Some (mkLodData (nd_lodNodes entry) (nd_transforms entry))).
      rewrite <- Heq.
      destruct (createLOD rec1 graphData _ nm cs rs s0) as [|lod s1].
      + split; [reflexivity | discriminate].
      + split; [reflexivity|].
        intros a s' E.
        destruct lod; inversion E; subst; exact (Hkeep _ _ eq_refl).
    - split; [reflexivity|]. intros a s' E. inversion E; subst. exact Hs0. }
  unfold agree, mbind, Build_bind.
  destruct (forEach_agree _ _ _ (ch_direct ch) Hdirect group s) as [Q1 K1];
    [|exact Hs|].
  { intros c Hc. apply HR, elem_of_app. left. exact Hc. }
  rewrite <- Q1.
  destruct (forEach (directChild rec1 graphData nm cs rs) (ch_direct ch) group s)
    as [|g1 s1]; [split; [reflexivity | discriminate]|].
  specialize (K1 _ _ eq_refl).
  destruct (forEach_agree _ _ _ (default [] (ch_nodesList ch)) Hlisted g1 s1)
    as [Q2 K2]; [|exact K1|].
  { intros c Hc. apply HR, elem_of_app. right. apply elem_of_app. left.
    exact Hc. }
  rewrite <- Q2.
  destruct (forEach (listedNode rec1 graphData nm cs rs)
              (default [] (ch_nodesList ch)) g1 s1)
    as [|g2 s2]; [split; [reflexivity | discriminate]|].
  specialize (K2 _ _ eq_refl).
  apply (forEach_agree _ _ _ (default [] (ch_lodsList ch)) Hlod g2 s2);
    [|exact K2].
  intros c Hc. apply HR, elem_of_app. right. apply elem_of_app. right.
  exact Hc.
Qed.

(** The expansion that the body runs for [n] is the same with both
    callbacks when the nodes that [n] refers to are in [R]. *)
Lemma createNodeBody_expands (n : string) (m : option Material)
    (cs rs : bool) (s : GraphParser) :
  underscoreFree (materialUUID m) = true ->
  (forall c, refersTo graphData n c -> R c) -> unmarked key s ->
  createNodeBody rec1 graphData n m cs rs s
  = createNodeBody rec2 graphData n m cs rs s /\
  (cacheKey n m <> key ->
   forall r s', createNodeBody rec1 graphData n m cs rs s = Done r s' ->
                unmarked key s').
Proof.
  intros Hm HR Hs. unfold createNodeBody.
  destruct (decide (cacheKey n m ∈ gp_processedNodes s)) as [Hin|Hout].
  { split; [reflexivity|]. intros _ r s' E. inversion E; subst. exact Hs. }
  destruct (lookupNode graphData n) as [nd|] eqn:Elook.
  2:{ split; [reflexivity|]. intros _ r s' E. inversion E; subst. exact Hs. }
  unfold mbind, Build_bind, newObject, cacheNode.
  pose proof (resolveMaterial_uuid s nd m (proj1 Hs) Hm) as Hnm.
  unfold refersTo in HR. rewrite (references_lookup graphData n nd Elook) in HR.
  match goal with
  | |- context [expandChildren rec1 graphData ?ch ?nm ?c ?r ?g ?s1] =>
      destruct (expandChildren_agree ch nm c r g s1 Hnm HR
                  (unmarked_frame s _ _ Hs (proj1 Hs))) as [Heq Hkeep];
      rewrite <- Heq;
      destruct (expandChildren rec1 graphData ch nm c r g s1) as [|group s2]
  end.
  { split; [reflexivity | discriminate]. }
  split; [reflexivity|].
  intros Hne r s' E. inversion E; subst.
  destruct (Hkeep _ _ eq_refl) as [Hc Hk]. split; [exact Hc|]. simpl.
  intros Hin. apply elem_of_union in Hin as [Hin|Hin]; [|contradiction].
  apply elem_of_singleton in Hin. apply Hne. symmetry. exact Hin.
Qed.

End Unmarked.

Section Guarded.
Context `{Host} `{Three}.
Variable graphData : gmap string nodeData.
Hypothesis host_uuids : forall k, underscoreFree (generateUUID k) = true.
Variable n0 : string.
Variable m0 : option Material.
Hypothesis m0_uuid : underscoreFree (materialUUID m0) = true.

(** A call on a node from which [n0] cannot be reached leaves the key
    of [n0] unmarked. *)
Lemma createNode_unmarked (fuel : nat) :
  agreeOn (cacheKey n0 m0) (fun c => ~ rtc (refersTo graphData) c n0)
    (createNode fuel) (createNode fuel) graphData.
Proof.
  induction fuel as [|fuel IH]; intros c m cs rs s HR Hm Hs.
  - apply agree_same. discriminate.
  - apply agree_same. simpl.
    destruct (createNodeBody_expands graphData (cacheKey n0 m0)
                (fun c => ~ rtc (refersTo graphData) c n0) host_uuids
                (createNode fuel) (createNode fuel) IH c m cs rs s Hm)
      as [_ Hkeep]; [|exact Hs|].
    { intros c' Hc' Hreach. apply HR. eapply rtc_l; [exact Hc' | exact Hreach]. }
    apply Hkeep. unfold cacheKey. intros Heq.
    apply cacheKey_inj in Heq as [-> _]; [|exact Hm|exact m0_uuid].
    apply HR. apply rtc_refl.
Qed.

(** On a node that is not reachable from itself, no call made while
    the children are expanded finds the key of the node. *)
Lemma createNode_guarded (fuel : nat) (cs rs : bool) (s : GraphParser) :
  ~ tc (refersTo graphData) n0 n0 -> unmarked (cacheKey n0 m0) s ->
  createNode (S fuel) graphData n0 m0 cs rs s
  = createNodeBody (guardedBy (cacheKey n0 m0) (createNode fuel))
      graphData n0 m0 cs rs s.
Proof.
  intros Hfree Hs. simpl.
  apply (createNodeBody_expands graphData (cacheKey n0 m0)
           (fun c => ~ rtc (refersTo graphData) c n0) host_uuids
           (createNode fuel) (guardedBy (cacheKey n0 m0) (createNode fuel))).
  - intros c m cs' rs' s0 HR Hm Hs0.
    destruct (createNode_unmarked fuel c m cs' rs' s0 HR Hm Hs0) as [_ Hkeep].
    split; [|exact Hkeep]. unfold guardedBy.
    destruct (decide (cacheKey n0 m0 ∈ gp_processedNodes s0)) as [Hin|_];
      [|reflexivity].
    destruct (proj2 Hs0 Hin).
  - exact m0_uuid.
  - intros c Hc Hreach. apply Hfree. eapply tc_rtc_r; [|exact Hreach].
    apply tc_once. exact Hc.
  - exact Hs.
Qed.

(** The guard does not make a callback return where it would not. *)
Lemma guardedBy_stuck (B : string -> Prop) (key : string)
    (rec : createNodeT) :
  stuckOn B rec graphData -> stuckOn B (guardedBy key rec) graphData.
Proof.
  intros Hrec n m cs rs s Hm Hs. unfold guardedBy.
  destruct (decide (key ∈ gp_processedNodes s)).
  - split; [reflexivity | discriminate].
  - exact (Hrec n m cs rs s Hm Hs).
Qed.

(** From a state in which no node that reaches a cycle is cached. *)
Lemma createNode_guarded_clear (fuel : nat) (cs rs : bool) (s : GraphParser) :
  clearOf (reachesCycle graphData) s ->
  cacheKey n0 m0 ∉ gp_processedNodes s ->
  createNode (S fuel) graphData n0 m0 cs rs s
  = createNodeBody (guardedBy (cacheKey n0 m0) (createNode fuel))
      graphData n0 m0 cs rs s.
Proof.
  intros Hclear Hout.
  assert (Hs : unmarked (cacheKey n0 m0) s) by (split; [apply Hclear | exact Hout]).
  assert (Hcycle : tc (refersTo graphData) n0 n0 -> reachesCycle graphData n0).
  { intros Hc. exists n0. split; [apply rtc_refl | exact Hc]. }
  pose proof (createNode_stuck graphData (S fuel) host_uuids n0 m0 cs rs s
                m0_uuid Hclear) as [Hstuck1 _].
  pose proof (createNodeBody_stuck graphData (reachesCycle graphData)
                (reachesCycle_closed graphData) host_uuids
                (guardedBy (cacheKey n0 m0) (createNode fuel))
                (guardedBy_stuck _ _ _ (createNode_stuck graphData fuel host_uuids))
                n0 m0 cs rs s m0_uuid Hclear) as [Hstuck2 _].
  destruct (createNode (S fuel) graphData n0 m0 cs rs s) as [|r s1] eqn:E1.
  - destruct (createNodeBody (guardedBy (cacheKey n0 m0) (createNode fuel))
                graphData n0 m0 cs rs s) as [|r s2] eqn:E2; [reflexivity|].
    rewrite <- E1, <- E2. apply createNode_guarded; [|exact Hs].
    intros Hc. specialize (Hstuck2 (Hcycle Hc)). discriminate.
  - rewrite <- E1. apply createNode_guarded; [|exact Hs].
    intros Hc. specialize (Hstuck1 (Hcycle Hc)). discriminate.
Qed.

End Guarded.

(** ** The graph builder: the entry is written after the expansion *)

Section TerminationTheorem.
Context `{Host} `{Three}.

(** C10: [createNode] stores its cache entry only after the children
    of the node have been expanded, so that the cache is no marker of
    the nodes being visited.  (1) On a cache miss, no call back into
    [createNode] made while the children are expanded finds the key of
    the node among the processed nodes: the call has the same outcome
    when every such call that finds the key is made not to return.
    This holds from every state in which no node that reaches a cycle
    is cached, as in a fresh parser.  (2) When the call has returned
    an object, the key is processed and holds that object.  (3) On
    every node below which the references form no cycle and the loops
    that build the primitives end, [createNode] returns, given enough
    recursion depth, and what it returns does not depend on the depth.
    (4) On a node that is reachable from itself, a
    fresh parser never returns, whatever the depth.  The graph is one
    that asks for no material under a name that the table of materials
    inherits. *)
Theorem createNode_caches_after_expansion (graphData : gmap string nodeData) :
  plainMaterials graphData ->
  (forall fuel n m cs rs s,
      (forall k, underscoreFree (generateUUID k) = true) ->
      underscoreFree (materialUUID m) = true ->
      uuidsWellFormed (gp_contents s) ->
      noneCached (reachesCycle graphData) s ->
      cacheKey n m ∉ gp_processedNodes s ->
      createNode (S fuel) graphData n m cs rs s
      = createNodeBody (guardedBy (cacheKey n m) (createNode fuel))
          graphData n m cs rs s) /\
  (forall fuel n m cs rs s r s',
      createNode fuel graphData n m cs rs s = Done (Some r) s' ->
      cacheKey n m ∈ gp_processedNodes s' /\
      gp_nodes s' !! cacheKey n m = Some r) /\
  (forall n,
      (forall c, rtc (refersTo graphData) n c ->
                 ~ tc (refersTo graphData) c c) ->
      (forall c, rtc (refersTo graphData) n c -> nodeEnds graphData c = true) ->
      forall m cs rs s,
      exists depth r s',
        forall fuel, depth <= fuel ->
                     createNode fuel graphData n m cs rs s = Done r s') /\
  (forall n m cs rs s,
      tc (refersTo graphData) n n ->
      (forall k, underscoreFree (generateUUID k) = true) ->
      underscoreFree (materialUUID m) = true ->
      uuidsWellFormed (gp_contents s) ->
      gp_processedNodes s = ∅ ->
      forall fuel, createNode fuel graphData n m cs rs s = OutOfFuel).
Proof.
  intros _. split; [|split; [|split]].
  - intros fuel n m cs rs s Hhost Hm Hc Hnone Hmiss.
    apply (createNode_guarded_clear graphData Hhost n m Hm fuel cs rs s);
      [split; assumption | exact Hmiss].
  - intros fuel n m cs rs s r s' E.
    exact (createNode_cached graphData fuel n m cs rs s r s' E).
  - intros n Hacyclic Hends m cs rs s.
    exact (createNode_settles graphData n (acyclic_Acc graphData n Hacyclic)
             Hends m cs rs s).
  - intros n m cs rs s Hcycle Hhost Hm Hc Hempty fuel.
    apply (createNode_stuck graphData fuel Hhost n m cs rs s Hm).
    + split; [exact Hc|]. intros b u _ _. rewrite Hempty. set_solver.
    + exists n. split; [apply rtc_refl | exact Hcycle].
Qed.

End TerminationTheorem.

Lemma tally_underscoreFree (n : nat) : underscoreFree (tally n) = true.
Proof. induction n as [|n IH]; [reflexivity | exact IH]. Qed.

Lemma sampleHost_uuids (k : nat) :
  underscoreFree (@generateUUID sampleHost k) = true.
Proof. apply tally_underscoreFree. Qed.

Lemma sampleGraph_wellFounded :
  Acc (fun b a => @refersTo sampleHost sampleGraph a b) "root".
Proof.
  constructor. intros y Hy. unfold refersTo in Hy.
  change (@references sampleHost sampleGraph "root")
    with ["leaf"; "leaf"] in Hy.
  assert (y = "leaf") as ->.
  { apply elem_of_cons in Hy as [Hy|Hy]; [exact Hy|].
    apply list_elem_of_singleton in Hy. exact Hy. }
  constructor. intros z Hz. unfold refersTo in Hz.
  change (@references sampleHost sampleGraph "leaf") with (@nil string) in Hz.
  inversion Hz.
Qed.

Lemma sampleGraph_below (c : string) :
  rtc (@refersTo sampleHost sampleGraph) "root" c -> c = "root" \/ c = "leaf".
Proof.
  intros Hreach. apply rtc_inv_r in Hreach as [->|(b & _ & Hstep)]; [auto|].
  unfold refersTo, references in Hstep.
  destruct (decide (b = "root")) as [->|Hb].
  - change (c ∈ ["leaf"; "leaf"]) in Hstep. right.
    apply elem_of_cons in Hstep as [?|Hstep]; [assumption|].
    apply list_elem_of_singleton in Hstep. exact Hstep.
  - destruct (decide (b = "leaf")) as [->|Hb'].
    + change (c ∈ @nil string) in Hstep. inversion Hstep.
    + unfold sampleGraph in Hstep.
      rewrite !lookup_insert_ne, lookup_empty in Hstep by congruence.
      inversion Hstep.
Qed.

Lemma sampleGraph_plain : @plainMaterials sampleHost sampleGraph.
Proof.
  intros n nd Hn. unfold sampleGraph in Hn.
  apply lookup_insert_Some in Hn as [[_ <-]|[_ Hn]]; [discriminate|].
  apply lookup_insert_Some in Hn as [[_ <-]|[_ Hn]]; [discriminate|].
  rewrite lookup_empty in Hn. discriminate.
Qed.

Lemma loopGraph_plain : @plainMaterials sampleHost loopGraph.
Proof.
  intros n nd Hn. unfold loopGraph in Hn.
  apply lookup_insert_Some in Hn as [[_ <-]|[_ Hn]]; [discriminate|].
  rewrite lookup_empty in Hn. discriminate.
Qed.

Lemma endlessGraph_plain : @plainMaterials sampleHost endlessGraph.
Proof.
  intros n nd Hn. unfold endlessGraph in Hn.
  apply lookup_insert_Some in Hn as [[_ <-]|[_ Hn]]; [discriminate|].
  rewrite lookup_empty in Hn. discriminate.
Qed.

Lemma createNode_caches_after_expansion_witness :
  (forall fuel,
      @createNode sampleHost sampleThree (S fuel) sampleGraph "root" None
        false false (newGraphParser emptyContents)
      = @createNodeBody sampleHost sampleThree
          (guardedBy (cacheKey "root" None)
             (@createNode sampleHost sampleThree fuel))
          sampleGraph "root" None false false (newGraphParser emptyContents)) /\
  (exists depth r s',
      forall fuel, depth <= fuel ->
        @createNode sampleHost sampleThree fuel sampleGraph "root" None
          false false (newGraphParser emptyContents) = Done r s') /\
  (forall fuel,
      @createNode sampleHost sampleThree fuel loopGraph "a" None
        false false (newGraphParser emptyContents) = OutOfFuel).
Proof.
  split; [|split].
  - intros fuel.
    destruct (@createNode_caches_after_expansion sampleHost sampleThree
                sampleGraph sampleGraph_plain) as (Hguard & _).
    apply Hguard.
    + exact sampleHost_uuids.
    + reflexivity.
    + intros k m Hk. simpl in Hk. rewrite lookup_empty in Hk. discriminate.
    + intros b u _ _. simpl. set_solver.
    + simpl. set_solver.
  - destruct (@createNode_caches_after_expansion sampleHost sampleThree
                sampleGraph sampleGraph_plain) as (_ & _ & Hterm & _).
    apply Hterm.
    + apply Acc_acyclic. exact sampleGraph_wellFounded.
    + intros c Hc. destruct (sampleGraph_below c Hc) as [-> | ->];
        vm_compute; reflexivity.
  - destruct (@createNode_caches_after_expansion sampleHost sampleThree
                loopGraph loopGraph_plain) as (_ & _ & _ & Hloop).
    apply Hloop.
    + apply tc_once. unfold refersTo.
      change (@references sampleHost loopGraph "a") with ["a"]. left.
    + exact sampleHost_uuids.
    + reflexivity.
    + intros k m Hk. simpl in Hk. rewrite lookup_empty in Hk. discriminate.
    + reflexivity.
Defined.

(** An acyclic graph on which [createNode] does not return: the only
    node refers to no node, and the loop over the stacks of its
    polygon has no end. *)
Lemma createNode_endless_on_acyclic :
  @plainMaterials sampleHost endlessGraph /\
  (forall c, rtc (@refersTo sampleHost endlessGraph) "disc" c ->
             ~ tc (@refersTo sampleHost endlessGraph) c c) /\
  (forall fuel,
      @createNode sampleHost sampleThree fuel endlessGraph "disc" None
        false false (newGraphParser emptyContents) = OutOfFuel).
Proof.
  split; [exact endlessGraph_plain|]. split.
  - apply Acc_acyclic. constructor. intros y Hy. unfold refersTo in Hy.
    change (@references sampleHost endlessGraph "disc") with (@nil string) in Hy.
    inversion Hy.
  - intros [|fuel]; [reflexivity|]. vm_compute. reflexivity.
Qed.

(** ** The graph builder: the cache and the clones *)

Section CloneFacts.

Lemma cloneEach_fresh {A : Type} (cloneOne : A -> nat -> A * nat)
    (ids : A -> list nat) (l : list A) :
  Forall (fun x => forall n, n < (cloneOne x n).2 /\
                    forall i, i ∈ ids (cloneOne x n).1 ->
                              n <= i < (cloneOne x n).2) l ->
  forall n,
    n <= (cloneEach cloneOne l n).2 /\
    forall i, i ∈ flat_map ids (cloneEach cloneOne l n).1 ->
              n <= i < (cloneEach cloneOne l n).2.
Proof.
  induction 1 as [|x rest Hx _ IH]; intros n; simpl.
  - split; [lia|]. intros i Hi. inversion Hi.
  - destruct (Hx n) as [Hlt Hids].
    destruct (cloneOne x n) as [x' n1] eqn:E1. simpl in *.
    destruct (IH n1) as [Hle Hrest].
    destruct (cloneEach cloneOne rest n1) as [rest' n2] eqn:E2. simpl in *.
    split; [lia|]. intros i Hi. apply elem_of_app in Hi as [Hi|Hi].
    + specialize (Hids i Hi). lia.
    + specialize (Hrest i Hi). lia.
Qed.

Lemma clone_fresh (o : Object3D) :
  forall n, freshCopy (clone o n).1 n (clone o n).2.
Proof.
  induction o as [id st c r children IH | id st levels IH | id mesh
                 | id lightGroup] using Object3D_tree_ind; intros n; simpl.
  - pose proof (cloneEach_fresh clone object_ids children) as Hall.
    destruct (Hall
                (Forall_impl _ _ _ IH
                   (fun x Hx k =>
                      conj (proj1 (proj2 (Hx k))) (proj2 (proj2 (Hx k)))))
                (S n)) as [Hle Hids].
    destruct (cloneEach clone children (S n)) as [children' n'] eqn:E.
    simpl in *. split; [reflexivity|]. split; [lia|].
    intros i Hi. apply elem_of_cons in Hi as [->|Hi]; [lia|].
    specialize (Hids i Hi). lia.
  - set (cloneLevel := fun (level : Object3D * float) k =>
                         let '(x', n1) := clone level.1 k in
                         ((x', level.2), n1)).
    pose proof (cloneEach_fresh cloneLevel (fun l => object_ids l.1) levels)
      as Hall.
    assert (Hlevels :
      Forall (fun x => forall k, k < (cloneLevel x k).2 /\
                        forall i, i ∈ object_ids (cloneLevel x k).1.1 ->
                                  k <= i < (cloneLevel x k).2) levels).
    { eapply Forall_impl; [exact IH|]. intros [x d] Hx k.
      unfold cloneLevel. simpl in *. specialize (Hx k).
      destruct (clone x k) as [x' n1]. simpl in *.
      destruct Hx as (_ & Hlt & Hids). split; assumption. }
    destruct (Hall Hlevels (S n)) as [Hle Hids].
    fold cloneLevel.
    destruct (cloneEach cloneLevel levels (S n)) as [levels' n'] eqn:E.
    simpl in *. split; [reflexivity|]. split; [lia|].
    intros i Hi. apply elem_of_cons in Hi as [->|Hi]; [lia|].
    specialize (Hids i Hi). lia.
  - split; [reflexivity|]. split; [lia|]. intros i Hi.
    apply list_elem_of_singleton in Hi. lia.
  - split; [reflexivity|]. split; [lia|]. intros i Hi.
    apply list_elem_of_singleton in Hi. lia.
Qed.

Lemma applyMaterialToNode_ids (o : Object3D) (m : Material) (cs rs : bool) :
  object_ids (applyMaterialToNode o m cs rs) = object_ids o.
Proof.
  induction o as [id st c r children IH | id st levels IH | id mesh
                 | id lightGroup] using Object3D_tree_ind; simpl;
    try reflexivity.
  - f_equal. induction IH as [|x rest Hx _ IHrest]; simpl; [reflexivity|].
    rewrite Hx, IHrest. reflexivity.
  - f_equal. induction IH as [|[x d] rest Hx _ IHrest]; simpl; [reflexivity|].
    simpl in Hx. rewrite Hx, IHrest. reflexivity.
Qed.

Lemma applyMaterialToNode_id (o : Object3D) (m : Material) (cs rs : bool) :
  object_id (applyMaterialToNode o m cs rs) = object_id o.
Proof. destruct o; reflexivity. Qed.

End CloneFacts.

Section CacheFacts.
Context `{Host} `{Three}.

Lemma extends_refl (s : GraphParser) : extends s s.
Proof. split; [lia|]. intros k o Hk. left. exact Hk. Qed.

Lemma extends_trans (s1 s2 s3 : GraphParser) :
  extends s1 s2 -> extends s2 s3 -> extends s1 s3.
Proof.
  intros [Hle1 H1] [Hle2 H2]. split; [lia|]. intros k o Hk.
  destruct (H2 k o Hk) as [Hk2|Hfresh]; [|right; lia].
  exact (H1 k o Hk2).
Qed.

(** A step that leaves the table [nodes] alone and only constructs
    objects. *)
Lemma sound_grow (s : GraphParser) (c : MyContents) (k : nat) :
  gp_objects s <= k -> cacheSound s ->
  cacheSound (mkGraphParser c (gp_processedNodes s) (gp_nodes s) k) /\
  extends s (mkGraphParser c (gp_processedNodes s) (gp_nodes s) k).
Proof.
  intros Hk [Hbound Hinj]. split; [split|split]; simpl.
  - intros key o Hkey. specialize (Hbound key o Hkey). lia.
  - exact Hinj.
  - exact Hk.
  - intros key o Hkey. left. exact Hkey.
Qed.

Lemma forEach_sound {A X : Type} (body : X -> A -> Build X) (items : list A) :
  (forall x item s x' s',
      cacheSound s -> body x item s = Done x' s' ->
      cacheSound s' /\ extends s s') ->
  forall x s x' s',
    cacheSound s -> forEach body items x s = Done x' s' ->
    cacheSound s' /\ extends s s'.
Proof.
  intros Hbody. induction items as [|item rest IH]; intros x s x' s' Hs E;
    simpl in E.
  - inversion E; subst. split; [exact Hs | apply extends_refl].
  - unfold mbind, Build_bind in E.
    destruct (body x item s) as [|x1 s1] eqn:E1; [discriminate|].
    destruct (Hbody _ _ _ _ _ Hs E1) as [Hs1 Hext1].
    destruct (IH _ _ _ _ Hs1 E) as [Hs' Hext].
    split; [exact Hs' | exact (extends_trans _ _ _ Hext1 Hext)].
Qed.

Lemma forEach_id {A : Type} (body : Object3D -> A -> Build Object3D)
    (items : list A) :
  (forall x item s x' s',
      body x item s = Done x' s' -> object_id x' = object_id x) ->
  forall x s x' s',
    forEach body items x s = Done x' s' -> object_id x' = object_id x.
Proof.
  intros Hbody. induction items as [|item rest IH]; intros x s x' s' E;
    simpl in E.
  - inversion E; subst. reflexivity.
  - unfold mbind, Build_bind in E.
    destruct (body x item s) as [|x1 s1] eqn:E1; [discriminate|].
    rewrite (IH _ _ _ _ E). exact (Hbody _ _ _ _ _ E1).
Qed.

Lemma add_id (group child : Object3D) :
  object_id (add group child) = object_id group.
Proof. destruct group; reflexivity. Qed.

Lemma addLevel_id (lod child : Object3D) (d : float) :
  object_id (addLevel lod child d) = object_id lod.
Proof. destruct lod; reflexivity. Qed.

Variable rec : createNodeT.
Variable graphData : gmap string nodeData.

Lemma createLOD_id_free (data : option lodData) (pm : option Material)
    (cs rs : bool) (g : Object3D) (s : GraphParser) (g' : Object3D)
    (s' : GraphParser) :
  (lod ← createLOD rec graphData data pm cs rs;
   match lod with
   | Some l => mret (add g l)
   | None => mret g
   end) s = Done g' s' ->
  object_id g' = object_id g.
Proof.
  unfold mbind, Build_bind.
  destruct (createLOD rec graphData data pm cs rs s) as [|[l|] s1];
    intros E; inversion E; subst; [apply add_id | reflexivity].
Qed.

Lemma handleChild_id (group : Object3D) (cd : childData)
    (pm : option Material) (cs rs : bool) (s : GraphParser)
    (group' : Object3D) (s' : GraphParser) :
  handleChild rec group cd graphData pm cs rs s = Done group' s' ->
  object_id group' = object_id group.
Proof.
  unfold handleChild.
  destruct (strictEq (prop (cd_fields cd) "type") "lod");
    [apply createLOD_id_free|].
  destruct (strictEq (prop (cd_fields cd) "type") "noderef").
  { destruct (truthy (prop (cd_fields cd) "nodeId")); simpl.
    - unfold mbind, Build_bind, cloneObject.
      destruct (rec graphData _ pm cs rs s) as [|[node|] s1];
        [discriminate| |].
      + destruct (clone node (gp_objects s1)). intros E. inversion E; subst.
        apply add_id.
      + intros E. inversion E; subst. reflexivity.
    - intros E. inversion E; subst. reflexivity. }
  destruct (includesValue primitiveTypes (prop (cd_fields cd) "type")).
  { unfold mbind, Build_bind, buildPrimitive, newObject.
    destruct (loopsEnd (cd_fields cd)); [|discriminate].
    destruct (createPrimitive (cd_fields cd) pm (gp_contents s))
      as [[[mesh|] contents] warnings]; intros E; inversion E; subst;
      [apply add_id | reflexivity]. }
  destruct (includesValue lightTypes (prop (cd_fields cd) "type")).
  { destruct (createLight (cd_fields cd) _) as [[lightGroup|] warnings];
      intros E; inversion E; subst; [apply add_id | reflexivity]. }
  intros E. inversion E; subst. reflexivity.
Qed.

Lemma expandChildren_id (children : option childrenData)
    (nm : option Material) (cs rs : bool) (group : Object3D)
    (s : GraphParser) (group' : Object3D) (s' : GraphParser) :
  expandChildren rec graphData children nm cs rs group s = Done group' s' ->
  object_id group' = object_id group.
Proof.
  unfold expandChildren. destruct children as [ch|];
    [|intros E; inversion E; subst; reflexivity].
  unfold mbind, Build_bind.
  destruct (forEach (directChild rec graphData nm cs rs) (ch_direct ch) group s)
    as [|g1 s1] eqn:E1; [discriminate|].
  destruct (forEach (listedNode rec graphData nm cs rs)
              (default [] (ch_nodesList ch)) g1 s1)
    as [|g2 s2] eqn:E2; [discriminate|].
  intros E3.
  apply forEach_id in E1, E2, E3.
  - congruence.
  - intros x item s0 x' s0'. apply createLOD_id_free.
  - intros x item s0 x' s0'. apply handleChild_id.
  - intros x [childId cd] s0 x' s0'. unfold directChild.
    destruct (String.eqb childId "nodesList" || String.eqb childId "lodsList").
    + intros E. inversion E; subst. reflexivity.
    + apply handleChild_id.
Qed.

Hypothesis rec_sound : keepsSound rec graphData.

Lemma addLodLevel_sound (pm : option Material) (cs rs : bool)
    (lod : Object3D) (e : lodEntry) (s : GraphParser) (lod' : Object3D)
    (s' : GraphParser) :
  cacheSound s -> addLodLevel rec graphData pm cs rs lod e s = Done lod' s' ->
  cacheSound s' /\ extends s s'.
Proof.
  intros Hs. unfold addLodLevel.
  assert (Hsame : forall l : Object3D,
             @mret Build _ _ l s = Done lod' s' ->
             cacheSound s' /\ extends s s').
  { intros l E. inversion E; subst. split; [exact Hs | apply extends_refl]. }
  destruct (le_mindist e) as [| | |d| |]; try apply Hsame.
  destruct (truthy (le_nodeId e)); simpl; [|apply Hsame].
  unfold mbind, Build_bind.
  destruct (rec graphData (ToString (le_nodeId e)) pm cs rs s)
    as [|r s1] eqn:E1; [discriminate|].
  intros E. destruct (rec_sound _ _ _ _ _ _ _ Hs E1).
  destruct r; inversion E; subst; auto.
Qed.

Lemma createLOD_sound (data : option lodData) (pm : option Material)
    (cs rs : bool) (s : GraphParser) (lod : option Object3D)
    (s' : GraphParser) :
  cacheSound s -> createLOD rec graphData data pm cs rs s = Done lod s' ->
  cacheSound s' /\ extends s s'.
Proof.
  intros Hs. unfold createLOD.
  assert (Hsame : @mret Build _ _ (@None Object3D) s = Done lod s' ->
                  cacheSound s' /\ extends s s').
  { intros E. inversion E; subst. split; [exact Hs | apply extends_refl]. }
  destruct data as [[[entries|] transforms]|]; try exact Hsame.
  unfold mbind, Build_bind, newObject.
  destruct (sound_grow s (gp_contents s) (S (gp_objects s))) as [Hs1 Hext1];
    [lia | exact Hs |].
  match goal with
  | |- context [forEach ?b entries ?x ?s1] =>
      destruct (forEach b entries x s1) as [|l s2] eqn:E1; [discriminate|]
  end.
  intros E. inversion E; subst.
  destruct (forEach_sound _ entries
              (fun x item s0 x' s0' => addLodLevel_sound pm cs rs x item s0 x' s0')
              _ _ _ _ Hs1 E1) as [Hs2 Hext2].
  split; [exact Hs2 | exact (extends_trans _ _ _ Hext1 Hext2)].
Qed.

Lemma handleChild_sound (group : Object3D) (cd : childData)
    (pm : option Material) (cs rs : bool) (s : GraphParser)
    (group' : Object3D) (s' : GraphParser) :
  cacheSound s ->
  handleChild rec group cd graphData pm cs rs s = Done group' s' ->
  cacheSound s' /\ extends s s'.
Proof.
  intros Hs. unfold handleChild.
  assert (Hsame : forall l : Object3D,
             @mret Build _ _ l s = Done group' s' ->
             cacheSound s' /\ extends s s').
  { intros l E. inversion E; subst. split; [exact Hs | apply extends_refl]. }
  destruct (strictEq (prop (cd_fields cd) "type") "lod").
  { unfold mbind, Build_bind.
    destruct (createLOD rec graphData _ pm cs rs s) as [|lod s1] eqn:E1;
      [discriminate|].
    intros E. destruct (createLOD_sound _ _ _ _ _ _ _ Hs E1).
    destruct lod; inversion E; subst; auto. }
  destruct (strictEq (prop (cd_fields cd) "type") "noderef").
  { destruct (truthy (prop (cd_fields cd) "nodeId")); simpl; [|apply Hsame].
    unfold mbind, Build_bind, cloneObject.
    destruct (rec graphData _ pm cs rs s) as [|[node|] s1] eqn:E1;
      [discriminate| |].
    - destruct (rec_sound _ _ _ _ _ _ _ Hs E1) as [Hs1 Hext1].
      pose proof (clone_fresh node (gp_objects s1)) as (_ & Hlt & _).
      destruct (clone node (gp_objects s1)) as [o' next]. simpl in Hlt.
      intros E. inversion E; subst.
      destruct (sound_grow s1 (gp_contents s1) next) as [Hs2 Hext2];
        [lia | exact Hs1 |].
      split; [exact Hs2 | exact (extends_trans _ _ _ Hext1 Hext2)].
    - intros E. inversion E; subst. exact (rec_sound _ _ _ _ _ _ _ Hs E1). }
  destruct (includesValue primitiveTypes (prop (cd_fields cd) "type")).
  { unfold mbind, Build_bind, buildPrimitive, newObject.
    destruct (loopsEnd (cd_fields cd)); [|discriminate].
    destruct (createPrimitive (cd_fields cd) pm (gp_contents s))
      as [[[mesh|] contents] warnings]; intros E; inversion E; subst;
      apply sound_grow; try lia; exact Hs. }
  destruct (includesValue lightTypes (prop (cd_fields cd) "type")).
  { destruct (createLight (cd_fields cd) _) as [[lightGroup|] warnings];
      [|apply Hsame].
    intros E. inversion E; subst. apply sound_grow; [simpl; lia | exact Hs]. }
  apply Hsame.
Qed.

Lemma expandChildren_sound (children : option childrenData)
    (nm : option Material) (cs rs : bool) (group : Object3D)
    (s : GraphParser) (group' : Object3D) (s' : GraphParser) :
  cacheSound s ->
  expandChildren rec graphData children nm cs rs group s = Done group' s' ->
  cacheSound s' /\ extends s s'.
Proof.
  intros Hs. unfold expandChildren. destruct children as [ch|].
  2:{ intros E. inversion E; subst. split; [exact Hs | apply extends_refl]. }
  unfold mbind, Build_bind.
  destruct (forEach (directChild rec graphData nm cs rs) (ch_direct ch) group s)
    as [|g1 s1] eqn:E1; [discriminate|].
  destruct (forEach (listedNode rec graphData nm cs rs)
              (default [] (ch_nodesList ch)) g1 s1)
    as [|g2 s2] eqn:E2; [discriminate|].
  intros E3.
  apply forEach_sound in E1 as [Hs1 Hext1]; [|clear E1|exact Hs].
  2:{ intros x [childId cd] s0 x' s0' Hs0. unfold directChild.
      destruct (String.eqb childId "nodesList" || String.eqb childId "lodsList").
      - intros E. inversion E; subst. split; [exact Hs0 | apply extends_refl].
      - apply handleChild_sound. exact Hs0. }
  apply forEach_sound in E2 as [Hs2 Hext2]; [|clear E2|exact Hs1].
  2:{ intros x item s0 x' s0' Hs0. apply handleChild_sound. exact Hs0. }
  apply forEach_sound in E3 as [Hs3 Hext3]; [|clear E3|exact Hs2].
  2:{ intros x item s0 x' s0' Hs0. unfold listedLod, mbind, Build_bind.
      destruct (createLOD rec graphData _ nm cs rs s0) as [|lod s3] eqn:E;
        [discriminate|].
      intros E'. destruct (createLOD_sound _ _ _ _ _ _ _ Hs0 E).
      destruct lod; inversion E'; subst; auto. }
  split; [exact Hs3|].
  exact (extends_trans _ _ _ Hext1 (extends_trans _ _ _ Hext2 Hext3)).
Qed.

(** On a cache miss with node data, the body returns the group it
    constructed first and caches it under the key. *)
Lemma createNodeBody_miss (n : string) (m : option Material) (cs rs : bool)
    (s : GraphParser) (r : option Object3D) (s' : GraphParser) :
  cacheKey n m ∉ gp_processedNodes s ->
  createNodeBody rec graphData n m cs rs s = Done r s' ->
  r = None /\ s' = s \/
  exists group s2,
    r = Some group /\ object_id group = gp_objects s /\
    extendsFrom s s2 /\
    s' = mkGraphParser (gp_contents s2)
           ({[ cacheKey n m ]} ∪ gp_processedNodes s2)
           (<[cacheKey n m := group]> (gp_nodes s2)) (gp_objects s2).
Proof.
  intros Hmiss. unfold createNodeBody.
  destruct (decide (cacheKey n m ∈ gp_processedNodes s)); [contradiction|].
  destruct (lookupNode graphData n) as [nd|].
  2:{ intros E. inversion E; subst. left. auto. }
  unfold mbind, Build_bind, newObject, cacheNode.
  match goal with
  | |- context [expandChildren rec graphData ?ch ?nm ?c ?r0 ?g ?s1] =>
      destruct (expandChildren rec graphData ch nm c r0 g s1)
        as [|group s2] eqn:E1; [discriminate|]
  end.
  intros E. inversion E; subst. right. exists group, s2.
  split; [reflexivity|]. split.
  - apply expandChildren_id in E1. exact E1.
  - split; [|reflexivity]. unfold extendsFrom. intros Hs.
    destruct (sound_grow s (gp_contents s) (S (gp_objects s))) as [Hs1 Hext1];
      [lia | exact Hs |].
    destruct (expandChildren_sound _ _ _ _ _ _ _ _ Hs1 E1)
      as [Hs2 [Hle2 Hnodes2]].
    simpl in Hle2, Hnodes2.
    split; [exact Hs2|]. split; [exact Hle2 | exact Hnodes2].
Qed.

Lemma createNodeBody_sound : keepsSound (createNodeBody rec) graphData.
Proof.
  intros n m cs rs s r s' Hs E.
  destruct (decide (cacheKey n m ∈ gp_processedNodes s)) as [Hin|Hout].
  { unfold createNodeBody in E.
    destruct (decide (cacheKey n m ∈ gp_processedNodes s)); [|contradiction].
    inversion E; subst. split; [exact Hs | apply extends_refl]. }
  destruct (createNodeBody_miss n m cs rs s r s' Hout E)
    as [[_ ->] | (group & s2 & -> & Hid & Hfrom & ->)].
  { split; [exact Hs | apply extends_refl]. }
  destruct (Hfrom Hs) as (Hs2 & Hobj & Hnodes).
  destruct Hs as [Hbound Hinj]. destruct Hs2 as [Hbound2 Hinj2].
  assert (Hother : forall k o, gp_nodes s2 !! k = Some o ->
                               object_id o <> gp_objects s).
  { intros k o Hk. destruct (Hnodes k o Hk) as [Hold|Hnew].
    - specialize (Hbound k o Hold). lia.
    - lia. }
  split; [split|split]; simpl.
  - intros k o Hk. apply lookup_insert_Some in Hk as [[_ <-]|[_ Hk]].
    + lia.
    + exact (Hbound2 k o Hk).
  - intros k k' o o' Hk Hk' Heq.
    apply lookup_insert_Some in Hk as [[<- <-]|[Hne Hk]];
      apply lookup_insert_Some in Hk' as [[<- <-]|[Hne' Hk']].
    + reflexivity.
    + exfalso. apply (Hother k' o' Hk'). congruence.
    + exfalso. apply (Hother k o Hk). congruence.
    + exact (Hinj2 k k' o o' Hk Hk' Heq).
  - lia.
  - intros k o Hk. apply lookup_insert_Some in Hk as [[_ <-]|[_ Hk]].
    + right. lia.
    + destruct (Hnodes k o Hk) as [Hold|Hnew]; [left; exact Hold | right; lia].
Qed.

End CacheFacts.

(** [addLevel] enters the level and keeps the others. *)
Lemma insertLevel_perm {A : Type} (level : A * float)
    (levels : list (A * float)) :
  insertLevel level levels ≡ₚ level :: levels.
Proof.
  induction levels as [|l rest IH]; simpl; [reflexivity|].
  destruct (PrimFloat.ltb level.2 l.2); [reflexivity|].
  rewrite IH. apply perm_swap.
Qed.

Section Memoisation.
Context `{Host} `{Three}.
Variable graphData : gmap string nodeData.

Lemma createNode_sound (fuel : nat) : keepsSound (createNode fuel) graphData.
Proof.
  induction fuel as [|fuel IH].
  - intros n m cs rs s r s' _ E. discriminate.
  - apply createNodeBody_sound. exact IH.
Qed.

Lemma parserStep_sound (s s' : GraphParser) :
  rtc (parserStep graphData) s s' -> cacheSound s -> cacheSound s'.
Proof.
  intros Hsteps. induction Hsteps as [s | s s1 s2 Hstep _ IH]; [auto|].
  intros Hs. apply IH.
  destruct Hstep as [fuel n m cs rs r E | fuel g cd pm cs rs g' E
                    | fuel data pm cs rs lod E].
  - exact (proj1 (createNode_sound fuel _ _ _ _ _ _ _ Hs E)).
  - exact (proj1 (handleChild_sound (createNode fuel) graphData
                    (createNode_sound fuel) g cd pm cs rs s g' s1 Hs E)).
  - exact (proj1 (createLOD_sound (createNode fuel) graphData
                    (createNode_sound fuel) data pm cs rs s lod s1 Hs E)).
Qed.

Lemma parserStep_synced (s s' : GraphParser) :
  rtc (parserStep graphData) s s' -> cacheSynced s -> cacheSynced s'.
Proof.
  apply (parserStep_keeps graphData cacheSynced).
  - intros s0 c k Hs0. exact Hs0.
  - intros _ s0 key group _ _ Hs0. unfold cacheSynced in *. simpl.
    rewrite dom_insert_L, Hs0. reflexivity.
Qed.


End Memoisation.

Lemma newGraphParser_sound (c : MyContents) : cacheSound (newGraphParser c).
Proof.
  split; simpl.
  - intros k o Hk. rewrite lookup_empty in Hk. discriminate.
  - intros k k' o o' Hk. rewrite lookup_empty in Hk. discriminate.
Qed.

(** * Further properties *)

(** ** Order and rounding of binary64 numbers *)

Section FloatOrder.

Lemma isNaN_spec (a : float) :
  isNaN a = match Prim2SF a with S754_nan => true | _ => false end.
Proof.
  unfold isNaN, PrimFloat.is_nan. rewrite FloatAxioms.eqb_spec. unfold SFeqb.
  destruct (Prim2SF a) as [[]|[]| |[] m e]; simpl;
    rewrite ?Z.compare_refl, ?Pos.compare_cont_refl; reflexivity.
Qed.

(** Two numbers are comparable. *)
Lemma SFcompare_numbers (a b : float) :
  isNaN a = false -> isNaN b = false ->
  exists c, SFcompare (Prim2SF a) (Prim2SF b) = Some c.
Proof.
  rewrite !isNaN_spec.
  destruct (Prim2SF a) as [[]|[]| |[] m e], (Prim2SF b) as [[]|[]| |[] m' e'];
    simpl; intros; try discriminate; eauto.
Qed.

Lemma leb_refl (a : float) : isNaN a = false -> PrimFloat.leb a a = true.
Proof.
  rewrite isNaN_spec, FloatAxioms.leb_spec. unfold SFleb.
  destruct (Prim2SF a) as [[]|[]| |[] m e]; simpl;
    rewrite ?Z.compare_refl, ?Pos.compare_cont_refl;
    intros; try discriminate; reflexivity.
Qed.

Lemma ltb_leb (a b : float) :
  PrimFloat.ltb a b = true -> PrimFloat.leb a b = true.
Proof.
  rewrite FloatAxioms.ltb_spec, FloatAxioms.leb_spec. unfold SFltb, SFleb.
  destruct (SFcompare (Prim2SF a) (Prim2SF b)) as [[]|];
    intros; try discriminate; reflexivity.
Qed.

Lemma leb_not_nan (a b : float) :
  PrimFloat.leb a b = true -> isNaN a = false /\ isNaN b = false.
Proof.
  rewrite !isNaN_spec, FloatAxioms.leb_spec. unfold SFleb.
  destruct (Prim2SF a) as [[]|[]| |[] m e], (Prim2SF b) as [[]|[]| |[] m' e'];
    simpl; intros; try discriminate; split; reflexivity.
Qed.

Lemma not_ltb_leb (a b : float) :
  isNaN a = false -> isNaN b = false ->
  PrimFloat.ltb a b = false -> PrimFloat.leb b a = true.
Proof.
  intros Ha Hb. destruct (SFcompare_numbers a b Ha Hb) as [c Hc].
  rewrite FloatAxioms.ltb_spec, FloatAxioms.leb_spec. unfold SFltb, SFleb.
  rewrite (SFcompare_swap (Prim2SF a) (Prim2SF b)), Hc.
  destruct c; simpl; intros; try discriminate; reflexivity.
Qed.

Lemma not_leb_ltb (a b : float) :
  isNaN a = false -> isNaN b = false ->
  PrimFloat.leb a b = false -> PrimFloat.ltb b a = true.
Proof.
  intros Ha Hb. destruct (SFcompare_numbers a b Ha Hb) as [c Hc].
  rewrite FloatAxioms.ltb_spec, FloatAxioms.leb_spec. unfold SFltb, SFleb.
  rewrite (SFcompare_swap (Prim2SF a) (Prim2SF b)), Hc.
  destruct c; simpl; intros; try discriminate; reflexivity.
Qed.

Lemma ltb_not_nan (a b : float) :
  PrimFloat.ltb a b = true -> isNaN a = false /\ isNaN b = false.
Proof. intros Hlt. apply leb_not_nan, ltb_leb, Hlt. Qed.

(** [Math.min] and [Math.max] of two numbers: one of the two, on the
    right side of both. *)
Lemma Math_min_numbers (a b : float) :
  isNaN a = false -> isNaN b = false ->
  (Math_min a b = a \/ Math_min a b = b) /\
  PrimFloat.leb (Math_min a b) a = true /\
  PrimFloat.leb (Math_min a b) b = true.
Proof.
  intros Ha Hb. unfold Math_min. rewrite Ha, Hb. simpl.
  destruct (PrimFloat.ltb a b) eqn:Eab.
  { split; [left; reflexivity|]. split; [apply leb_refl, Ha | apply ltb_leb, Eab]. }
  destruct (PrimFloat.ltb b a) eqn:Eba.
  { split; [right; reflexivity|]. split; [apply ltb_leb, Eba | apply leb_refl, Hb]. }
  destruct (PrimFloat.get_sign a).
  - split; [left; reflexivity|].
    split; [apply leb_refl, Ha | apply not_ltb_leb; assumption].
  - split; [right; reflexivity|].
    split; [apply not_ltb_leb; assumption | apply leb_refl, Hb].
Qed.

Lemma Math_max_numbers (a b : float) :
  isNaN a = false -> isNaN b = false ->
  (Math_max a b = a \/ Math_max a b = b) /\
  PrimFloat.leb a (Math_max a b) = true /\
  PrimFloat.leb b (Math_max a b) = true.
Proof.
  intros Ha Hb. unfold Math_max. rewrite Ha, Hb. simpl.
  destruct (PrimFloat.ltb b a) eqn:Eba.
  { split; [left; reflexivity|]. split; [apply leb_refl, Ha | apply ltb_leb, Eba]. }
  destruct (PrimFloat.ltb a b) eqn:Eab.
  { split; [right; reflexivity|]. split; [apply ltb_leb, Eab | apply leb_refl, Hb]. }
  destruct (PrimFloat.get_sign a).
  - split; [right; reflexivity|].
    split; [apply not_ltb_leb; assumption | apply leb_refl, Hb].
  - split; [left; reflexivity|].
    split; [apply leb_refl, Ha | apply not_ltb_leb; assumption].
Qed.

Lemma Math_min_nan (a b : float) :
  isNaN a = true \/ isNaN b = true -> isNaN (Math_min a b) = true.
Proof.
  intros Hn. unfold Math_min.
  destruct Hn as [-> | ->]; rewrite ?orb_true_r; reflexivity.
Qed.

Lemma Math_max_nan (a b : float) :
  isNaN a = true \/ isNaN b = true -> isNaN (Math_max a b) = true.
Proof.
  intros Hn. unfold Math_max.
  destruct Hn as [-> | ->]; rewrite ?orb_true_r; reflexivity.
Qed.

(** [Math.max(lo, m)] for [m] the smaller of a number and [hi]. *)
Lemma clamp_range (lo hi m : float) :
  PrimFloat.leb lo hi = true -> isNaN m = false ->
  PrimFloat.leb m hi = true ->
  PrimFloat.leb lo (Math_max lo m) = true /\
  PrimFloat.leb (Math_max lo m) hi = true.
Proof.
  intros Hlohi Hm Hmhi. destruct (leb_not_nan _ _ Hlohi) as [Hlo _].
  destruct (Math_max_numbers lo m Hlo Hm) as ([-> | ->] & Hl & _).
  - split; [exact Hl | exact Hlohi].
  - split; [exact Hl | exact Hmhi].
Qed.

End FloatOrder.

Section Rounding.

Lemma shr_1_nonneg (mrs : shr_record) :
  (0 <= shr_m mrs)%Z -> (0 <= shr_m (shr_1 mrs))%Z.
Proof.
  destruct mrs as [[|[p|p|]|p] r s]; simpl; intros Hm; try lia.
Qed.

Lemma iter_shr_1_nonneg (p : positive) :
  forall mrs, (0 <= shr_m mrs)%Z -> (0 <= shr_m (SpecFloat.iter_pos shr_1 p mrs))%Z.
Proof.
  induction p as [p IH|p IH|]; intros mrs Hm; simpl.
  - apply IH, IH, shr_1_nonneg, Hm.
  - apply IH, IH, Hm.
  - apply shr_1_nonneg, Hm.
Qed.

Lemma shr_fexp_nonneg (prec emax m e : Z) (l : location) :
  (0 <= m)%Z -> (0 <= shr_m (shr_fexp prec emax m e l).1)%Z.
Proof.
  intros Hm. unfold shr_fexp, shr.
  assert (Hrec : (0 <= shr_m (shr_record_of_loc m l))%Z).
  { destruct l as [|[]]; exact Hm. }
  destruct (fexp prec emax (Zdigits2 m + e) - e)%Z; simpl;
    [exact Hrec | apply iter_shr_1_nonneg, Hrec | exact Hrec].
Qed.

Lemma round_nearest_even_nonneg (m : Z) (l : location) :
  (0 <= m)%Z -> (0 <= round_nearest_even m l)%Z.
Proof.
  intros Hm. destruct l as [|[]]; simpl; try lia.
  destruct (Z.even m); lia.
Qed.

(** Rounding a non-negative mantissa gives a zero, a finite number or
    an infinity. *)
Lemma binary_round_aux_number (prec emax : Z) (s : bool) (m e : Z)
    (l : location) :
  (0 <= m)%Z -> binary_round_aux prec emax s m e l <> S754_nan.
Proof.
  intros Hm. unfold binary_round_aux.
  pose proof (shr_fexp_nonneg prec emax m e l Hm) as H1.
  destruct (shr_fexp prec emax m e l) as [mrs1 e1]. simpl in H1.
  pose proof (shr_fexp_nonneg prec emax
                (round_nearest_even (shr_m mrs1) (loc_of_shr_record mrs1))
                e1 loc_Exact
                (round_nearest_even_nonneg _ _ H1)) as H2.
  destruct (shr_fexp prec emax _ e1 loc_Exact) as [mrs2 e2]. simpl in H2.
  destruct (shr_m mrs2) as [|p|p]; [discriminate | | lia].
  destruct (e2 <=? emax - prec)%Z; discriminate.
Qed.

(** The product of a number and a finite number is a number. *)
Lemma mul_number (a c : float) (s : bool) (m : positive) (e : Z) :
  isNaN a = false -> Prim2SF c = S754_finite s m e ->
  isNaN (PrimFloat.mul a c) = false.
Proof.
  rewrite !isNaN_spec, FloatAxioms.mul_spec. intros Ha ->.
  destruct (Prim2SF a) as [sa|sa| |sa ma ea]; try discriminate;
    try reflexivity.
  unfold SF64mul, SFmul.
  pose proof (binary_round_aux_number prec emax (xorb sa s)
                (Z.pos (ma * m)) (ea + e) loc_Exact) as Hn.
  destruct (binary_round_aux prec emax (xorb sa s) (Z.pos (ma * m)) (ea + e)
              loc_Exact); try reflexivity.
  exfalso. apply Hn; [lia | reflexivity].
Qed.

(** The quotient of a number by a finite number other than zero is a
    number. *)
Lemma div_number (a c : float) (s : bool) (m : positive) (e : Z) :
  isNaN a = false -> Prim2SF c = S754_finite s m e ->
  isNaN (PrimFloat.div a c) = false.
Proof.
  rewrite !isNaN_spec, FloatAxioms.div_spec. intros Ha ->.
  destruct (Prim2SF a) as [sa|sa| |sa ma ea]; try discriminate;
    try reflexivity.
  unfold SF64div, SFdiv, SFdiv_core_binary.
  set (m' := match (ea - e - _)%Z with
             | Z0 => Z.pos ma
             | Z.pos _ => _
             | Z.neg _ => 0%Z
             end).
  assert (Hm' : (0 <= m')%Z).
  { unfold m'. destruct (ea - e - _)%Z; try lia.
    apply Z.shiftl_nonneg. lia. }
  pose proof (Z.div_pos m' (Z.pos m) Hm' ltac:(lia)) as Hq.
  unfold Z.div in Hq. destruct (Z.div_eucl m' (Z.pos m)) as [q r].
  simpl in Hq.
  pose proof (binary_round_aux_number prec emax (xorb sa s) q
                (Z.min (fexp prec emax
                          (Zdigits2 (Z.pos ma) + ea - (Zdigits2 (Z.pos m) + e)))
                   (ea - e))
                (new_location (Z.pos m) r) Hq) as Hn.
  match goal with
  | |- match ?x with _ => _ end = false =>
      destruct x eqn:E; try reflexivity
  end.
  exfalso. apply Hn. reflexivity.
Qed.

End Rounding.

(** ** Validation utilities: the ranges of the results *)

Section ValidatorRanges.
Context `{Host}.

Lemma nonzero_sign (x : float) :
  isNaN x = false -> PrimFloat.eqb x 0 = false ->
  PrimFloat.ltb x 0 = true \/ PrimFloat.ltb 0 x = true.
Proof.
  intros Hn Hz. destruct (PrimFloat.ltb x 0) eqn:E; [left; reflexivity|].
  right. sf_cases x.
Qed.

Lemma magnitude_signs (x : float) :
  isNaN x = false -> PrimFloat.eqb x 0 = false ->
  PrimFloat.ltb (PrimFloat.opp (Math_abs x)) 0 = true /\
  PrimFloat.ltb 0 (Math_abs x) = true.
Proof. intros Hn Hz. split; sf_cases x. Qed.

Lemma div_nan_l (a c : float) :
  isNaN a = true -> isNaN (PrimFloat.div a c) = true.
Proof.
  rewrite !isNaN_spec, FloatAxioms.div_spec.
  destruct (Prim2SF a); try discriminate. reflexivity.
Qed.

Lemma Number_isInteger_number (n : float) :
  Number_isInteger n = true -> isNaN n = false.
Proof.
  rewrite isNaN_spec. unfold Number_isInteger.
  destruct (Prim2SF n); try discriminate; reflexivity.
Qed.

(** The result of a validator whose range is bounded below by zero:
    the reading when it is not below zero, the default otherwise. *)
Lemma floor_zero (x d : float) :
  isNaN x = false -> PrimFloat.leb 0 d = true ->
  PrimFloat.leb 0 (if PrimFloat.ltb x 0 then d else x) = true.
Proof.
  intros Hx Hd. destruct (PrimFloat.ltb x 0) eqn:E; [exact Hd|].
  apply not_ltb_leb; [exact Hx | reflexivity | exact E].
Qed.

Lemma within (x lo hi d : float) :
  isNaN x = false -> isNaN lo = false -> isNaN hi = false ->
  PrimFloat.leb lo d = true -> PrimFloat.leb d hi = true ->
  let r := if PrimFloat.ltb x lo || PrimFloat.ltb hi x then d else x in
  PrimFloat.leb lo r = true /\ PrimFloat.leb r hi = true.
Proof.
  intros Hx Hlo Hhi Hd1 Hd2. simpl.
  destruct (PrimFloat.ltb x lo) eqn:E1; simpl; [split; assumption|].
  destruct (PrimFloat.ltb hi x) eqn:E2; [split; assumption|].
  split; apply not_ltb_leb; assumption.
Qed.

Lemma validateNear_range (value : jsval) (d : float) :
  PrimFloat.leb 0 d = true -> PrimFloat.leb 0 (validateNear value d) = true.
Proof.
  intros Hd. unfold validateNear.
  destruct (PrimFloat.leb 0 (toValidFloat value d)) eqn:E; assumption.
Qed.

Lemma validateDistance_range (value : jsval) (d : float) :
  PrimFloat.leb 0 d = true -> PrimFloat.leb 0 (validateDistance value d) = true.
Proof.
  intros Hd. apply floor_zero; [|exact Hd].
  apply toValidFloat_not_nan. apply (leb_not_nan _ _ Hd).
Qed.

Lemma validateIntensity_range (value : jsval) (d : float) :
  PrimFloat.leb 0 d = true -> PrimFloat.leb 0 (validateIntensity value d) = true.
Proof.
  intros Hd. apply floor_zero; [|exact Hd].
  apply toValidFloat_not_nan. apply (leb_not_nan _ _ Hd).
Qed.

Lemma validateDecay_range (value : jsval) (d : float) :
  PrimFloat.leb 0 d = true -> PrimFloat.leb d 2 = true ->
  PrimFloat.leb 0 (validateDecay value d) = true /\
  PrimFloat.leb (validateDecay value d) 2 = true.
Proof.
  intros Hd Hd2. apply within; try assumption; try reflexivity.
  apply toValidFloat_not_nan. apply (leb_not_nan _ _ Hd).
Qed.

Lemma validatePenumbra_range (value : jsval) (d : float) :
  PrimFloat.leb 0 d = true -> PrimFloat.leb d 1 = true ->
  PrimFloat.leb 0 (validatePenumbra value d) = true /\
  PrimFloat.leb (validatePenumbra value d) 1 = true.
Proof.
  intros Hd Hd1. apply within; try assumption; try reflexivity.
  apply toValidFloat_not_nan. apply (leb_not_nan _ _ Hd).
Qed.

Lemma toValidOpacity_range (value : jsval) (d : float) :
  PrimFloat.leb 0 d = true -> PrimFloat.leb d 1 = true ->
  PrimFloat.leb 0 (toValidOpacity value d) = true /\
  PrimFloat.leb (toValidOpacity value d) 1 = true.
Proof.
  intros Hd Hd1. unfold toValidOpacity.
  destruct (isNaN (parseFloat value)) eqn:En; [split; assumption|].
  destruct (Math_min_numbers (parseFloat value) 1 En eq_refl)
    as (Hcase & _ & Hle).
  apply clamp_range; [reflexivity | | exact Hle].
  destruct Hcase as [-> | ->]; [exact En | reflexivity].
Qed.

(** X1: [validateNear], [validateDistance] and [validateIntensity]
    return a value that is at least zero for every input, as soon as
    their default is. *)
Theorem validators_nonnegative (value : jsval) (d : float) :
  PrimFloat.leb 0 d = true ->
  PrimFloat.leb 0 (validateNear value d) = true /\
  PrimFloat.leb 0 (validateDistance value d) = true /\
  PrimFloat.leb 0 (validateIntensity value d) = true.
Proof.
  intros Hd.
  split; [apply validateNear_range, Hd|].
  split; [apply validateDistance_range, Hd | apply validateIntensity_range, Hd].
Qed.

(** X24: [validateDecay] returns a value in [0, 2], and
    [validatePenumbra] and [toValidOpacity] one in [0, 1], for every
    input, as soon as their default lies in that range. *)
Theorem validators_bounded (value : jsval) (d : float) :
  PrimFloat.leb 0 d = true ->
  (PrimFloat.leb d 2 = true ->
   PrimFloat.leb 0 (validateDecay value d) = true /\
   PrimFloat.leb (validateDecay value d) 2 = true) /\
  (PrimFloat.leb d 1 = true ->
   PrimFloat.leb 0 (validatePenumbra value d) = true /\
   PrimFloat.leb (validatePenumbra value d) 1 = true /\
   PrimFloat.leb 0 (toValidOpacity value d) = true /\
   PrimFloat.leb (toValidOpacity value d) 1 = true).
Proof.
  intros Hd. split.
  - intros Hd2. apply validateDecay_range; assumption.
  - intros Hd1.
    destruct (validatePenumbra_range value d Hd Hd1) as [Hp0 Hp1].
    destruct (toValidOpacity_range value d Hd Hd1) as [Ho0 Ho1].
    repeat split; assumption.
Qed.

Lemma validateAngle_range (value : jsval) (lo hi d : float) :
  PrimFloat.ltb lo d = true -> PrimFloat.ltb d hi = true ->
  PrimFloat.ltb lo (validateAngle value lo hi d) = true /\
  PrimFloat.ltb (validateAngle value lo hi d) hi = true /\
  (PrimFloat.leb (toValidFloat value d) lo = true \/
   PrimFloat.leb hi (toValidFloat value d) = true ->
   validateAngle value lo hi d = d).
Proof.
  intros Hlo Hhi.
  destruct (ltb_not_nan _ _ Hlo) as [Hlon Hdn].
  destruct (ltb_not_nan _ _ Hhi) as [_ Hhin].
  pose proof (toValidFloat_not_nan value d Hdn) as Hx.
  unfold validateAngle.
  destruct (PrimFloat.leb (toValidFloat value d) lo) eqn:E1; simpl.
  { split; [exact Hlo|]. split; [exact Hhi | reflexivity]. }
  destruct (PrimFloat.leb hi (toValidFloat value d)) eqn:E2.
  { split; [exact Hlo|]. split; [exact Hhi | reflexivity]. }
  split; [apply not_leb_ltb; assumption|].
  split; [apply not_leb_ltb; assumption|].
  intros [Habs|Habs]; discriminate.
Qed.

(** X2: [validateAngle] returns an angle strictly between the two
    bounds whenever the default lies strictly between them; a reading
    on a bound or beyond gives the default, and so does every input
    that is not a number, one whose reading is [NaN]. *)
Theorem validateAngle_in_range (value : jsval) (lo hi d : float) :
  PrimFloat.ltb lo d = true -> PrimFloat.ltb d hi = true ->
  PrimFloat.ltb lo (validateAngle value lo hi d) = true /\
  PrimFloat.ltb (validateAngle value lo hi d) hi = true /\
  (PrimFloat.leb (toValidFloat value d) lo = true \/
   PrimFloat.leb hi (toValidFloat value d) = true ->
   validateAngle value lo hi d = d) /\
  (isNaN (parseFloat value) = true -> validateAngle value lo hi d = d).
Proof.
  intros Hlo Hhi.
  destruct (validateAngle_range value lo hi d Hlo Hhi) as (H1 & H2 & H3).
  split; [exact H1|]. split; [exact H2|]. split; [exact H3|].
  intros Hnan. unfold validateAngle, toValidFloat. rewrite Hnan.
  destruct (PrimFloat.leb d lo || PrimFloat.leb hi d); reflexivity.
Qed.

Lemma degToRad_number (x : float) :
  isNaN x = false -> isNaN (degToRad x) = false.
Proof.
  intros Hx. unfold degToRad. eapply mul_number; [exact Hx|].
  vm_compute. reflexivity.
Qed.

(** X3: [validateRadianAngle] returns a number between -2 pi and 2 pi
    for every input, provided the default is a number. *)
Theorem validateRadianAngle_clamped (value : jsval) (d : float) :
  isNaN d = false ->
  PrimFloat.leb (PrimFloat.mul (PrimFloat.opp Math_PI) 2)
    (validateRadianAngle value d) = true /\
  PrimFloat.leb (validateRadianAngle value d) (PrimFloat.mul Math_PI 2) = true.
Proof.
  intros Hdn. pose proof (toValidFloat_not_nan value d Hdn) as Hx.
  unfold validateRadianAngle.
  pose proof (degToRad_number _ Hx) as Hrad.
  destruct (Math_min_numbers (degToRad (toValidFloat value d))
              (PrimFloat.mul Math_PI 2) Hrad eq_refl) as (Hcase & _ & Hle).
  apply clamp_range; [reflexivity | | exact Hle].
  destruct Hcase as [-> | ->]; [exact Hrad | reflexivity].
Qed.

(** X4: each channel of [parseColor] is the reading of the channel
    divided by 255 and clamped to [0, 1]: a number of that interval
    when the reading is a number, where an absent channel reads as 0,
    and [NaN] when it is not. *)
Theorem parseColor_channels (color : jsval) :
  Forall
    (fun '(k, c) =>
       if isNaN (parseFloat (nullish (optProp color k) (JNum 0)))
       then isNaN c = true
       else PrimFloat.leb 0 c = true /\ PrimFloat.leb c 1 = true)
    [("r", c_r (parseColor color)); ("g", c_g (parseColor color));
     ("b", c_b (parseColor color))].
Proof.
  assert (Hchan : forall x,
    if isNaN x
    then isNaN (Math_max 0 (Math_min 1 (PrimFloat.div x 255))) = true
    else PrimFloat.leb 0 (Math_max 0 (Math_min 1 (PrimFloat.div x 255))) = true /\
         PrimFloat.leb (Math_max 0 (Math_min 1 (PrimFloat.div x 255))) 1 = true).
  { intros x. destruct (isNaN x) eqn:En.
    - apply Math_max_nan. right. apply Math_min_nan. right.
      apply div_nan_l, En.
    - assert (Hq : isNaN (PrimFloat.div x 255) = false).
      { eapply div_number; [exact En|]. vm_compute. reflexivity. }
      destruct (Math_min_numbers 1 (PrimFloat.div x 255) eq_refl Hq)
        as (Hcase & Hle & _).
      apply clamp_range; [reflexivity | | exact Hle].
      destruct Hcase as [-> | ->]; [reflexivity | exact Hq]. }
  repeat constructor; simpl; apply Hchan.
Qed.

Lemma validateShadowMapSize_range (value : jsval) (d : float) :
  Number_isInteger d = true -> PrimFloat.ltb 0 d = true ->
  Number_isInteger (validateShadowMapSize value d) = true /\
  PrimFloat.ltb 0 (validateShadowMapSize value d) = true /\
  (typeof value <> TNumber -> validateShadowMapSize value d = d).
Proof.
  intros Hint Hpos. unfold validateShadowMapSize.
  destruct value as [| |b|n|s|fields];
    try (split; [exact Hint|]; split; [exact Hpos | reflexivity]).
  destruct (Number_isInteger n) eqn:En; simpl.
  2:{ split; [exact Hint|]. split; [exact Hpos|]. intros Hty. contradiction. }
  destruct (PrimFloat.leb n 0) eqn:El.
  { split; [exact Hint|]. split; [exact Hpos|]. intros Hty. contradiction. }
  split; [exact En|]. split.
  - apply not_leb_ltb; [apply Number_isInteger_number, En | reflexivity | exact El].
  - intros Hty. contradiction.
Qed.

(** X5: [validateShadowMapSize] returns a positive integer whenever
    its default is one; an input that is not a number, a numeric
    string included, gives the default. *)
Theorem validateShadowMapSize_positive_integer (value : jsval) (d : float) :
  Number_isInteger d = true -> PrimFloat.ltb 0 d = true ->
  Number_isInteger (validateShadowMapSize value d) = true /\
  PrimFloat.ltb 0 (validateShadowMapSize value d) = true /\
  (typeof value <> TNumber -> validateShadowMapSize value d = d).
Proof. apply validateShadowMapSize_range. Qed.

Lemma validateLeftRight_opposite (lo hi dlo dhi : float) :
  isNaN lo = false -> isNaN hi = false ->
  PrimFloat.ltb dlo 0 = true -> PrimFloat.ltb 0 dhi = true ->
  oppositeSigns (validateLeftRight lo hi dlo dhi).
Proof.
  intros Hlo Hhi Hdlo Hdhi.
  { unfold oppositeSigns, validateLeftRight.
    destruct (PrimFloat.eqb lo 0) eqn:Zlo; simpl; [left; split; assumption|].
    destruct (PrimFloat.eqb hi 0) eqn:Zhi; simpl; [left; split; assumption|].
    destruct (magnitude_signs lo Hlo Zlo) as [Hneg _].
    destruct (magnitude_signs hi Hhi Zhi) as [_ Hposi].
    destruct (PrimFloat.ltb lo 0) eqn:Llo; simpl.
    - destruct (PrimFloat.leb hi 0) eqn:Lhi; simpl.
      + left. split; assumption.
      + rewrite (ltb_asym _ _ Llo). simpl. left. split; [exact Llo|].
        apply not_leb_ltb; [exact Hhi | reflexivity | exact Lhi].
    - destruct (nonzero_sign lo Hlo Zlo) as [Habs|Hp]; [congruence|].
      rewrite Hp. simpl.
      destruct (PrimFloat.leb 0 hi) eqn:Lhi; simpl.
      + left. split; assumption.
      + right. split; [exact Hp|].
        apply not_leb_ltb; [reflexivity | exact Hhi | exact Lhi]. }
Qed.

(** X6: on two numbers, and with defaults of which the first is
    negative and the second positive, [validateLeftRight] and
    [validateBottomTop] return two numbers other than zero and of
    opposite signs. *)
Theorem axis_pair_opposite_signs (lo hi dlo dhi : float) :
  isNaN lo = false -> isNaN hi = false ->
  PrimFloat.ltb dlo 0 = true -> PrimFloat.ltb 0 dhi = true ->
  oppositeSigns (validateLeftRight lo hi dlo dhi) /\
  oppositeSigns (validateBottomTop lo hi dlo dhi).
Proof.
  intros Hlo Hhi Hdlo Hdhi.
  split; apply validateLeftRight_opposite; assumption.
Qed.

End ValidatorRanges.

Lemma validators_nonnegative_witness :
  PrimFloat.leb 0 (@validateNear sampleHost (JNum (-3)) 0.1) = true /\
  PrimFloat.leb 0 (@validateDistance sampleHost (JNum (-3)) 1000) = true /\
  PrimFloat.leb 0 (@validateIntensity sampleHost (JStr "bright") 1) = true.
Proof.
  destruct (@validators_nonnegative sampleHost (JNum (-3)) 0.1 eq_refl)
    as (Hnear & _).
  destruct (@validators_nonnegative sampleHost (JNum (-3)) 1000 eq_refl)
    as (_ & Hdistance & _).
  destruct (@validators_nonnegative sampleHost (JStr "bright") 1 eq_refl)
    as (_ & _ & Hintensity).
  split; [exact Hnear|]. split; [exact Hdistance | exact Hintensity].
Defined.

Lemma validators_bounded_witness :
  PrimFloat.leb (@validateDecay sampleHost (JNum 7) 2) 2 = true /\
  PrimFloat.leb (@validatePenumbra sampleHost (JNum 7) 0.2) 1 = true /\
  PrimFloat.leb (@toValidOpacity sampleHost (JNum 7) 1) 1 = true.
Proof.
  destruct (@validators_bounded sampleHost (JNum 7) 2 eq_refl)
    as (Hdecay & _).
  destruct (@validators_bounded sampleHost (JNum 7) 0.2 eq_refl)
    as (_ & Hpenumbra).
  destruct (@validators_bounded sampleHost (JNum 7) 1 eq_refl)
    as (_ & Hunit).
  split; [apply Hdecay; reflexivity|]. split.
  - apply Hpenumbra. reflexivity.
  - apply Hunit. reflexivity.
Defined.

Lemma validateAngle_in_range_witness :
  PrimFloat.ltb 0 (@validateAngle sampleHost (JNum 90) 0 90 50) = true /\
  PrimFloat.ltb (@validateAngle sampleHost (JNum 90) 0 90 50) 90 = true /\
  @validateAngle sampleHost (JNum 90) 0 90 50 = 50%float /\
  @validateAngle sampleHost JUndefined 0 90 50 = 50%float.
Proof.
  destruct (@validateAngle_in_range sampleHost (JNum 90) 0 90 50
              eq_refl eq_refl) as (Hlo & Hhi & Hd & _).
  destruct (@validateAngle_in_range sampleHost JUndefined 0 90 50
              eq_refl eq_refl) as (_ & _ & _ & Hnan).
  split; [exact Hlo|]. split; [exact Hhi|].
  split; [apply Hd; right; reflexivity | apply Hnan; reflexivity].
Defined.

Lemma validateRadianAngle_clamped_witness :
  PrimFloat.leb (@validateRadianAngle sampleHost (JNum 720) 180)
    (PrimFloat.mul Math_PI 2) = true.
Proof.
  apply (@validateRadianAngle_clamped sampleHost (JNum 720) 180). reflexivity.
Defined.

Lemma validateShadowMapSize_positive_integer_witness :
  Number_isInteger (@validateShadowMapSize (JNum 0.5) 512) = true /\
  @validateShadowMapSize (JStr "1024") 512 = 512%float.
Proof.
  destruct (validateShadowMapSize_positive_integer (JNum 0.5) 512
              eq_refl eq_refl) as (Hint & _).
  destruct (validateShadowMapSize_positive_integer (JStr "1024") 512
              eq_refl eq_refl) as (_ & _ & Hd).
  split; [exact Hint|]. apply Hd. discriminate.
Defined.

Lemma axis_pair_opposite_signs_witness :
  oppositeSigns (validateLeftRight 3 7 (-5) 5) /\
  oppositeSigns (validateBottomTop 3 (-7) (-5) 5).
Proof.
  split.
  - apply (axis_pair_opposite_signs 3 7 (-5) 5); reflexivity.
  - apply (axis_pair_opposite_signs 3 (-7) (-5) 5); reflexivity.
Defined.

(** ** applyTransformations: composition *)

Section TransformLaws.
Context `{Host}.

Lemma Object3DState_eq (a b : Object3DState) :
  o_position a = o_position b -> o_rotation a = o_rotation b ->
  o_scale a = o_scale b -> a = b.
Proof. destruct a, b. simpl. intros -> -> ->. reflexivity. Qed.

(** X7: applying two [transforms] arrays one after the other is
    applying their concatenation, and applying the same array a second
    time changes nothing: the state reached depends on the last entry
    of each type only. *)
Theorem applyTransformations_idempotent (group : Object3DState)
    (ts us : list transform) :
  applyTransformations (applyTransformations group ts) us
  = applyTransformations group (ts ++ us) /\
  applyTransformations (applyTransformations group ts) ts
  = applyTransformations group ts.
Proof.
  split.
  - unfold applyTransformations. symmetry. apply fold_left_app.
  - apply Object3DState_eq.
    + rewrite !(fold_component o_position "translate" translationOf
                  applyTransformation_position).
      destruct (lastOfType "translate" ts); reflexivity.
    + rewrite !(fold_component o_rotation "rotate" rotationOf
                  applyTransformation_rotation).
      destruct (lastOfType "rotate" ts); reflexivity.
    + rewrite !(fold_component o_scale "scale" scaleOf
                  applyTransformation_scale).
      destruct (lastOfType "scale" ts); reflexivity.
Qed.

End TransformLaws.

(** ** createLight: the lights it builds *)

Section LightRanges.
Context `{Host}.

(** The [switch] of [createLight] as a chain of comparisons. *)
Lemma createLightCore_cases (lightData : jsobject) :
  createLightCore lightData
  = let color :=
      parseColor (nullish (prop lightData "color")
                    (JObj [("r", JNum 255); ("g", JNum 255); ("b", JNum 255)])) in
    let type := prop lightData "type" in
    if strictEq type "pointlight" then
      (Some (PointLight color
               (validateIntensity (prop lightData "intensity") 1)
               (validateDistance (prop lightData "distance") 1000)
               (validateDecay (prop lightData "decay") 2)), [])
    else if strictEq type "spotlight" then
      (Some (SpotLight color
               (validateIntensity (prop lightData "intensity") 1)
               (validateDistance (prop lightData "distance") 1000)
               (degToRad (validateAngle (prop lightData "angle") 0 180 45))
               (validatePenumbra (prop lightData "penumbra") 0.2)
               (validateDecay (prop lightData "decay") 2)), [])
    else if strictEq type "directionallight" then
      (Some (DirectionalLight color
               (validateIntensity (prop lightData "intensity") 1)
               (directionalShadowBounds lightData).1),
       (directionalShadowBounds lightData).2)
    else (None, [Warn "Unsupported light type" [type]]).
Proof.
  unfold createLightCore. cbv zeta.
  destruct (directionalShadowBounds lightData) as [camera warnings].
  generalize (parseColor (nullish (prop lightData "color")
                (JObj [("r", JNum 255); ("g", JNum 255); ("b", JNum 255)]))).
  generalize (validateIntensity (prop lightData "intensity") 1).
  generalize (validateDistance (prop lightData "distance") 1000).
  generalize (validateDecay (prop lightData "decay") 2).
  generalize (degToRad (validateAngle (prop lightData "angle") 0 180 45)).
  generalize (validatePenumbra (prop lightData "penumbra") 0.2).
  intros pen ang dec dist int col.
  destruct (prop lightData "type") as [| |b|n|s|fields]; try reflexivity.
  unfold strictEq.
  repeat (destruct s as [|[[] [] [] [] [] [] [] []] s]; try reflexivity).
Qed.

End LightRanges.

Section LightFacts2.
Context `{Host}.

(** [createLight] builds a light exactly for the three types that
    [handleChild] sends to it. *)
Lemma createLight_some (lightData : jsobject) (lightId : jsval) :
  includesValue lightTypes (prop lightData "type") = true ->
  exists core,
    createLightCore lightData = (Some core, (createLightCore lightData).2) /\
    (createLight lightData lightId).1
    = Some (mkLightGroup
              (mkLight core
                 (parseBoolean (prop lightData "enabled") true)
                 (parseBoolean (prop lightData "castshadow") false)
                 (validateShadowMapSize (prop lightData "shadowmapsize") 512,
                  validateShadowMapSize (prop lightData "shadowmapsize") 512)
                 (readVector3 (prop lightData "position") 0 0 0)
                 (if hasTarget core
                  then Some (readVector3 (prop lightData "target") 0 0 0)
                  else None)
                 (if truthy lightId then lightId else JStr ""))
              (parseBoolean (prop lightData "enabled") true)
              (hasTarget core)).
Proof.
  intros Hty. unfold createLight. rewrite createLightCore_cases. cbv zeta.
  destruct (prop lightData "type") as [| |b|n|s|fields]; try discriminate.
  unfold includesValue, lightTypes, includes in Hty. simpl in Hty.
  unfold strictEq.
  destruct (String.eqb s "pointlight"); [eexists; split; reflexivity|].
  destruct (String.eqb s "spotlight"); [eexists; split; reflexivity|].
  destruct (String.eqb s "directionallight"); [eexists; split; reflexivity|].
  discriminate.
Qed.

Lemma createLight_none (lightData : jsobject) (lightId : jsval) :
  includesValue lightTypes (prop lightData "type") = false ->
  createLight lightData lightId
  = (None, [Warn "Unsupported light type" [prop lightData "type"]]).
Proof.
  intros Hty. unfold createLight. rewrite createLightCore_cases. cbv zeta.
  destruct (prop lightData "type") as [| |b|n|s|fields]; try reflexivity.
  unfold includesValue, lightTypes, includes in Hty. simpl in Hty.
  unfold strictEq.
  destruct (String.eqb s "pointlight"); [discriminate|].
  destruct (String.eqb s "spotlight"); [discriminate|].
  destruct (String.eqb s "directionallight"); [discriminate|].
  reflexivity.
Qed.

(** The parameters of the light built by the [switch]. *)
Lemma createLightCore_ranges (lightData : jsobject) (core : LightCore)
    (warnings : list logEntry) :
  createLightCore lightData = (Some core, warnings) ->
  match core with
  | PointLight _ intensity distance decay =>
      PrimFloat.leb 0 intensity = true /\ PrimFloat.leb 0 distance = true /\
      PrimFloat.leb 0 decay = true /\ PrimFloat.leb decay 2 = true
  | SpotLight _ intensity distance angle penumbra decay =>
      PrimFloat.leb 0 intensity = true /\ PrimFloat.leb 0 distance = true /\
      (exists degrees,
          angle = degToRad degrees /\ PrimFloat.ltb 0 degrees = true /\
          PrimFloat.ltb degrees 180 = true) /\
      PrimFloat.leb 0 penumbra = true /\ PrimFloat.leb penumbra 1 = true /\
      PrimFloat.leb 0 decay = true /\ PrimFloat.leb decay 2 = true
  | DirectionalLight _ intensity _ => PrimFloat.leb 0 intensity = true
  end.
Proof.
  rewrite createLightCore_cases. cbv zeta.
  pose proof (validateIntensity_range (prop lightData "intensity") 1 eq_refl)
    as Hi.
  pose proof (validateDistance_range (prop lightData "distance") 1000 eq_refl)
    as Hdist.
  destruct (validateDecay_range (prop lightData "decay") 2 eq_refl eq_refl)
    as [Hd0 Hd2].
  destruct (validatePenumbra_range (prop lightData "penumbra") 0.2
              eq_refl eq_refl) as [Hp0 Hp1].
  destruct (validateAngle_range (prop lightData "angle") 0 180 45
              eq_refl eq_refl) as (Ha0 & Ha1 & _).
  destruct (strictEq (prop lightData "type") "pointlight").
  { intros E. inversion E; subst. repeat split; assumption. }
  destruct (strictEq (prop lightData "type") "spotlight").
  { intros E. inversion E; subst.
    split; [exact Hi|]. split; [exact Hdist|].
    split; [eexists; split; [reflexivity|split; assumption]|].
    repeat split; assumption. }
  destruct (strictEq (prop lightData "type") "directionallight").
  { intros E. inversion E; subst. exact Hi. }
  discriminate.
Qed.

(** X8: [createLight] builds a light group exactly for the types
    "pointlight", "spotlight" and "directionallight".  The group is as
    visible as its light; a point light has no target and the two
    others have one; the shadow map is square with a positive integer
    side; intensity and distance are never negative, the decay lies in
    [0, 2], the penumbra in [0, 1], and the cone angle of a spot light
    is the radian value of an angle strictly between 0 and 180
    degrees. *)
Theorem createLight_parameters (lightData : jsobject) (lightId : jsval) :
  match (createLight lightData lightId).1 with
  | None => includesValue lightTypes (prop lightData "type") = false
  | Some group =>
      let light := lg_light group in
      includesValue lightTypes (prop lightData "type") = true /\
      lg_visible group = light_visible light /\
      lg_hasTarget group = hasTarget (light_core light) /\
      (light_shadowMapSize light).1 = (light_shadowMapSize light).2 /\
      Number_isInteger (light_shadowMapSize light).1 = true /\
      PrimFloat.ltb 0 (light_shadowMapSize light).1 = true /\
      match light_core light with
      | PointLight _ intensity distance decay =>
          light_target light = None /\
          PrimFloat.leb 0 intensity = true /\ PrimFloat.leb 0 distance = true /\
          PrimFloat.leb 0 decay = true /\ PrimFloat.leb decay 2 = true
      | SpotLight _ intensity distance angle penumbra decay =>
          is_Some (light_target light) /\
          PrimFloat.leb 0 intensity = true /\ PrimFloat.leb 0 distance = true /\
          (exists degrees,
              angle = degToRad degrees /\ PrimFloat.ltb 0 degrees = true /\
              PrimFloat.ltb degrees 180 = true) /\
          PrimFloat.leb 0 penumbra = true /\ PrimFloat.leb penumbra 1 = true /\
          PrimFloat.leb 0 decay = true /\ PrimFloat.leb decay 2 = true
      | DirectionalLight _ intensity _ =>
          is_Some (light_target light) /\ PrimFloat.leb 0 intensity = true
      end
  end.
Proof.
  destruct (includesValue lightTypes (prop lightData "type")) eqn:Hty.
  2:{ rewrite (createLight_none lightData lightId Hty). reflexivity. }
  destruct (createLight_some lightData lightId Hty) as (core & Hcore & ->).
  cbv zeta. cbn [lg_light lg_visible lg_hasTarget light_visible light_core
                 light_shadowMapSize light_target fst snd].
  destruct (validateShadowMapSize_range (prop lightData "shadowmapsize") 512
              eq_refl eq_refl) as (Hint & Hpos & _).
  repeat (split; [first [reflexivity | assumption]|]).
  pose proof (createLightCore_ranges lightData core _ Hcore) as Hr.
  destruct core; cbn [hasTarget].
  - split; [reflexivity | exact Hr].
  - split; [eexists; reflexivity | exact Hr].
  - split; [eexists; reflexivity | exact Hr].
Qed.

End LightFacts2.

(** ** applyMaterialToNode and clone *)

Section TreeLaws.

Lemma applyMaterialToNode_meshes (o : Object3D) (m : Material) (cs rs : bool) :
  meshesOf (applyMaterialToNode o m cs rs)
  = List.map (withMaterial m cs rs) (meshesOf o).
Proof.
  induction o as [id st c r children IH | id st levels IH | id mesh
                 | id lightGroup] using Object3D_tree_ind; simpl;
    try reflexivity.
  - induction IH as [|x rest Hx _ IHrest]; simpl; [reflexivity|].
    rewrite Hx, IHrest, List.map_app. reflexivity.
  - induction IH as [|[x d] rest Hx _ IHrest]; simpl; [reflexivity|].
    simpl in Hx. rewrite Hx, IHrest, List.map_app. reflexivity.
Qed.

Lemma applyMaterialToNode_twice (o : Object3D) (m1 m2 : Material)
    (c1 r1 c2 r2 : bool) :
  applyMaterialToNode (applyMaterialToNode o m1 c1 r1) m2 c2 r2
  = applyMaterialToNode o m2 (c2 || c1) (r2 || r1).
Proof.
  induction o as [id st c r children IH | id st levels IH | id mesh
                 | id lightGroup] using Object3D_tree_ind; simpl;
    try reflexivity.
  - f_equal. induction IH as [|x rest Hx _ IHrest]; simpl; [reflexivity|].
    rewrite Hx, IHrest. reflexivity.
  - f_equal. induction IH as [|[x d] rest Hx _ IHrest]; simpl; [reflexivity|].
    simpl in Hx. rewrite Hx, IHrest. reflexivity.
  - rewrite !orb_assoc. reflexivity.
Qed.

(** X11: [applyMaterialToNode] hands the material to every mesh below
    the node and raises the shadow flags that the parent has, never
    lowering one; the objects keep their identities.  Applying it a
    second time overrides the material and accumulates the flags. *)
Theorem applyMaterialToNode_covers (o : Object3D) (m1 m2 : Material)
    (c1 r1 c2 r2 : bool) :
  meshesOf (applyMaterialToNode o m1 c1 r1)
  = List.map (withMaterial m1 c1 r1) (meshesOf o) /\
  Forall (fun mesh => mesh_material mesh = m1)
    (meshesOf (applyMaterialToNode o m1 c1 r1)) /\
  object_ids (applyMaterialToNode o m1 c1 r1) = object_ids o /\
  applyMaterialToNode (applyMaterialToNode o m1 c1 r1) m2 c2 r2
  = applyMaterialToNode o m2 (c2 || c1) (r2 || r1).
Proof.
  split; [apply applyMaterialToNode_meshes|].
  split; [|split; [apply applyMaterialToNode_ids | apply applyMaterialToNode_twice]].
  rewrite applyMaterialToNode_meshes. apply Forall_forall. intros mesh Hin.
  apply list_elem_of_In, in_map_iff in Hin as (mesh0 & <- & _). reflexivity.
Qed.

Lemma cloneEach_count {A : Type} (cloneOne : A -> nat -> A * nat)
    (ids : A -> list nat) (l : list A) :
  Forall (fun x => forall n,
            ids (cloneOne x n).1 = seq n (length (ids x)) /\
            (cloneOne x n).2 = n + length (ids x)) l ->
  forall n,
    flat_map ids (cloneEach cloneOne l n).1
    = seq n (length (flat_map ids l)) /\
    (cloneEach cloneOne l n).2 = n + length (flat_map ids l).
Proof.
  induction 1 as [|x rest Hx _ IH]; intros n; simpl.
  - split; [reflexivity | lia].
  - destruct (Hx n) as [Hids Hnext].
    destruct (cloneOne x n) as [x' n1] eqn:E1. simpl in *.
    destruct (IH n1) as [Hrest Hlast].
    destruct (cloneEach cloneOne rest n1) as [rest' n2] eqn:E2. simpl in *.
    rewrite Hids, Hrest, List.length_app, seq_app. subst n1 n2.
    split; [reflexivity | lia].
Qed.

(** The copy numbers its objects from [n] on, parent before child. *)
Lemma clone_count (o : Object3D) :
  forall n,
    object_ids (clone o n).1 = seq n (length (object_ids o)) /\
    (clone o n).2 = n + length (object_ids o).
Proof.
  induction o as [id st c r children IH | id st levels IH | id mesh
                 | id lightGroup] using Object3D_tree_ind; intros n; simpl.
  - destruct (cloneEach_count clone object_ids children IH (S n))
      as [Hids Hnext].
    destruct (cloneEach clone children (S n)) as [children' n'] eqn:E.
    simpl in *. rewrite Hids. split; [reflexivity | lia].
  - set (cloneLevel := fun (level : Object3D * float) k =>
                         let '(x', n1) := clone level.1 k in
                         ((x', level.2), n1)).
    assert (Hlevels :
      Forall (fun x => forall k,
                object_ids (cloneLevel x k).1.1
                = seq k (length (object_ids x.1)) /\
                (cloneLevel x k).2 = k + length (object_ids x.1)) levels).
    { eapply Forall_impl; [exact IH|]. intros [x d] Hx k.
      unfold cloneLevel. simpl in *. specialize (Hx k).
      destruct (clone x k) as [x' n1]. exact Hx. }
    destruct (cloneEach_count cloneLevel (fun l => object_ids l.1) levels
                Hlevels (S n)) as [Hids Hnext].
    destruct (cloneEach cloneLevel levels (S n)) as [levels' n'] eqn:E.
    simpl in *. rewrite Hids. split; [reflexivity | lia].
  - split; [reflexivity | lia].
  - split; [reflexivity | lia].
Qed.

Lemma clone_shape (o : Object3D) :
  forall n, shapeOf (clone o n).1 = shapeOf o.
Proof.
  induction o as [id st c r children IH | id st levels IH | id mesh
                 | id lightGroup] using Object3D_tree_ind; intros n; simpl;
    try reflexivity.
  - assert (Hall : forall k,
              List.map shapeOf (cloneEach clone children k).1
              = List.map shapeOf children).
    { induction IH as [|x rest Hx _ IHrest]; intros k; simpl; [reflexivity|].
      specialize (Hx k). destruct (clone x k) as [x' n1]. simpl in Hx.
      specialize (IHrest n1).
      destruct (cloneEach clone rest n1) as [rest' n2]. simpl in *.
      rewrite Hx, IHrest. reflexivity. }
    specialize (Hall (S n)).
    destruct (cloneEach clone children (S n)) as [children' n']. simpl in *.
    rewrite Hall. reflexivity.
  - set (cloneLevel := fun (level : Object3D * float) k =>
                         let '(x', n1) := clone level.1 k in
                         ((x', level.2), n1)).
    assert (Hall : forall k,
              List.map (fun l => (shapeOf l.1, l.2))
                (cloneEach cloneLevel levels k).1
              = List.map (fun l => (shapeOf l.1, l.2)) levels).
    { induction IH as [|[x d] rest Hx _ IHrest]; intros k; simpl;
        [reflexivity|].
      simpl in Hx. specialize (Hx k). unfold cloneLevel at 1. simpl.
      destruct (clone x k) as [x' n1]. simpl in Hx.
      specialize (IHrest n1).
      destruct (cloneEach cloneLevel rest n1) as [rest' n2]. simpl in *.
      rewrite Hx, IHrest. reflexivity. }
    specialize (Hall (S n)).
    destruct (cloneEach cloneLevel levels (S n)) as [levels' n']. simpl in *.
    rewrite Hall. reflexivity.
Qed.

Lemma shapeOf_meshes (o : Object3D) : meshesOf (shapeOf o) = meshesOf o.
Proof.
  induction o as [id st c r children IH | id st levels IH | id mesh
                 | id lightGroup] using Object3D_tree_ind; simpl;
    try reflexivity.
  - induction IH as [|x rest Hx _ IHrest]; simpl; [reflexivity|].
    rewrite Hx, IHrest. reflexivity.
  - induction IH as [|[x d] rest Hx _ IHrest]; simpl; [reflexivity|].
    simpl in Hx. rewrite Hx, IHrest. reflexivity.
Qed.

(** The copy holds the meshes of the original. *)
Lemma clone_meshes (o : Object3D) (n : nat) :
  meshesOf (clone o n).1 = meshesOf o.
Proof.
  rewrite <- (shapeOf_meshes (clone o n).1), clone_shape.
  apply shapeOf_meshes.
Qed.

Lemma applyMaterialToNode_shape (o : Object3D) (m : Material) (cs rs : bool) :
  shapeOf (applyMaterialToNode o m cs rs)
  = applyMaterialToNode (shapeOf o) m cs rs.
Proof.
  induction o as [id st c r children IH | id st levels IH | id mesh
                 | id lightGroup] using Object3D_tree_ind; simpl;
    try reflexivity.
  - f_equal. induction IH as [|x rest Hx _ IHrest]; simpl; [reflexivity|].
    rewrite Hx, IHrest. reflexivity.
  - f_equal. induction IH as [|[x d] rest Hx _ IHrest]; simpl; [reflexivity|].
    simpl in Hx. rewrite Hx, IHrest. reflexivity.
Qed.

End TreeLaws.

(** ** createPrimitive and the leaves of the graph *)

Section PrimitiveTable.
Context `{Host} `{Three}.

(** [createPrimitive] builds a mesh exactly for the seven kinds that
    [handleChild] sends to it; the mesh casts and receives no shadow
    yet. *)
Lemma createPrimitive_some (primitiveData : jsobject)
    (material : option Material) (c : MyContents) :
  includesValue primitiveTypes (prop primitiveData "type") = true ->
  exists mesh,
    (createPrimitive primitiveData material c).1.1 = Some mesh /\
    mesh_castShadow mesh = false /\ mesh_receiveShadow mesh = false.
Proof.
  intros Hty. unfold createPrimitive.
  destruct (strictEq (prop primitiveData "type") "polygon") eqn:Epoly;
    [eexists; repeat split; reflexivity|].
  assert (Hg : exists geometry, primitiveGeometry primitiveData = Some geometry).
  { unfold primitiveGeometry.
    destruct (prop primitiveData "type") as [| |b|n|s|fields];
      try discriminate.
    unfold includesValue, primitiveTypes, includes in Hty. simpl in Hty.
    unfold strictEq in *.
    destruct (String.eqb s "rectangle"); [eexists; reflexivity|].
    destruct (String.eqb s "triangle"); [eexists; reflexivity|].
    destruct (String.eqb s "box"); [eexists; reflexivity|].
    destruct (String.eqb s "cylinder"); [eexists; reflexivity|].
    destruct (String.eqb s "sphere"); [eexists; reflexivity|].
    destruct (String.eqb s "nurbs"); [eexists; reflexivity|].
    rewrite Epoly in Hty. discriminate. }
  destruct Hg as [geometry ->].
  destruct material as [m|]; simpl; eexists; repeat split; reflexivity.
Qed.

Lemma createPrimitive_none (primitiveData : jsobject)
    (material : option Material) (c : MyContents) :
  includesValue primitiveTypes (prop primitiveData "type") = false ->
  createPrimitive primitiveData material c
  = (None, c, [Warn "Unsupported primitive type" [prop primitiveData "type"]]).
Proof.
  intros Hty. unfold createPrimitive.
  assert (Hnone : strictEq (prop primitiveData "type") "polygon" = false /\
                  primitiveGeometry primitiveData = None).
  { unfold primitiveGeometry.
    destruct (prop primitiveData "type") as [| |b|n|s|fields];
      try (split; reflexivity).
    unfold includesValue, primitiveTypes, includes in Hty. simpl in Hty.
    unfold strictEq.
    destruct (String.eqb s "rectangle"); [discriminate|].
    destruct (String.eqb s "triangle"); [discriminate|].
    destruct (String.eqb s "box"); [discriminate|].
    destruct (String.eqb s "cylinder"); [discriminate|].
    destruct (String.eqb s "sphere"); [discriminate|].
    destruct (String.eqb s "nurbs"); [discriminate|].
    destruct (String.eqb s "polygon"); [discriminate|].
    split; reflexivity. }
  destruct Hnone as [-> ->]. reflexivity.
Qed.

Lemma registerMaterial_dom (idBase : string) (m : Material) (c : MyContents) :
  exists id,
    (id ∉ dom (mc_materials c)) /\
    dom (mc_materials (registerMaterial idBase m c))
    = {[ id ]} ∪ dom (mc_materials c).
Proof.
  exists (freeMaterialId (size (mc_materials c)) 1 idBase (mc_materials c)).
  split.
  - apply not_elem_of_dom. apply freeMaterialId_free.
  - unfold registerMaterial. cbn [mc_materials]. apply dom_insert_L.
Qed.

(** The keys of the materials table after [createPrimitive]. *)
Lemma createPrimitive_dom (primitiveData : jsobject)
    (material : option Material) (c : MyContents) :
  let type := prop primitiveData "type" in
  let c' := (createPrimitive primitiveData material c).1.2 in
  if includesValue primitiveTypes type
     && (strictEq type "polygon" || negb (bool_decide (is_Some material)))
  then exists id,
         (id ∉ dom (mc_materials c)) /\
         dom (mc_materials c') = {[ id ]} ∪ dom (mc_materials c)
  else dom (mc_materials c') = dom (mc_materials c).
Proof.
  cbv zeta.
  destruct (includesValue primitiveTypes (prop primitiveData "type")) eqn:Hty.
  2:{ rewrite (createPrimitive_none _ _ _ Hty). reflexivity. }
  cbn [andb]. unfold createPrimitive.
  destruct (strictEq (prop primitiveData "type") "polygon") eqn:Epoly.
  { cbn [orb fst snd]. apply registerMaterial_dom. }
  destruct (createPrimitive_some primitiveData material c Hty)
    as (mesh & Hmesh & _).
  unfold createPrimitive in Hmesh. rewrite Epoly in Hmesh.
  destruct (primitiveGeometry primitiveData) as [geometry|];
    [|discriminate Hmesh].
  destruct material as [m|]; cbn [orb negb fst snd].
  - rewrite bool_decide_eq_true_2 by eauto. reflexivity.
  - rewrite bool_decide_eq_false_2 by (intros [x Hx]; discriminate).
    apply registerMaterial_dom.
Qed.


End PrimitiveTable.

Section Leaves.
Context `{Host} `{Three}.

(** The types of the leaves are none of "lod" and "noderef", and no
    type is both a primitive and a light. *)
Lemma light_type_only (type : jsval) :
  includesValue lightTypes type = true ->
  strictEq type "lod" = false /\ strictEq type "noderef" = false /\
  includesValue primitiveTypes type = false.
Proof.
  destruct type as [| |b|n|s|fields]; try discriminate.
  unfold includesValue, lightTypes, primitiveTypes, includes, strictEq. simpl.
  intros Hty.
  destruct (String.eqb s "pointlight") eqn:E1;
    [apply String.eqb_eq in E1; subst s; repeat split; reflexivity|].
  destruct (String.eqb s "spotlight") eqn:E2;
    [apply String.eqb_eq in E2; subst s; repeat split; reflexivity|].
  destruct (String.eqb s "directionallight") eqn:E3;
    [apply String.eqb_eq in E3; subst s; repeat split; reflexivity|].
  discriminate.
Qed.

Lemma primitive_type_only (type : jsval) :
  includesValue primitiveTypes type = true ->
  strictEq type "lod" = false /\ strictEq type "noderef" = false.
Proof.
  destruct type as [| |b|n|s|fields]; try discriminate.
  unfold includesValue, primitiveTypes, includes, strictEq. simpl.
  intros Hty.
  repeat match type of Hty with
         | (String.eqb s ?lit || _) = true =>
             let E := fresh "E" in
             destruct (String.eqb s lit) eqn:E;
             [apply String.eqb_eq in E; subst s; split; reflexivity|];
             simpl in Hty
         end.
  discriminate.
Qed.

Lemma handleChild_light (rec : createNodeT) (group : Object3D)
    (cd : childData) (graphData : gmap string nodeData)
    (pm : option Material) (cs rs : bool) (s : GraphParser) :
  includesValue lightTypes (prop (cd_fields cd) "type") = true ->
  exists lightGroup,
    handleChild rec group cd graphData pm cs rs s
    = Done (add group (LightObject (gp_objects s) lightGroup))
        (mkGraphParser (gp_contents s) (gp_processedNodes s) (gp_nodes s)
           (S (gp_objects s))) /\
    light_name (lg_light lightGroup)
    = orElse (prop (cd_fields cd) "nodeId") (JStr "").
Proof.
  intros Hty. destruct (light_type_only _ Hty) as (Hlod & Href & Hprim).
  unfold handleChild. rewrite Hlod, Href, Hprim, Hty.
  destruct (createLight_some (cd_fields cd)
              (orElse (prop (cd_fields cd) "nodeId") (JStr "")) Hty)
    as (core & _ & Hgroup).
  destruct (createLight (cd_fields cd) _) as [group' warnings].
  simpl in Hgroup. subst group'.
  eexists. split; [reflexivity|]. cbn [lg_light light_name].
  unfold orElse. destruct (truthy (prop (cd_fields cd) "nodeId")) eqn:E.
  - rewrite E. reflexivity.
  - reflexivity.
Qed.

Lemma handleChild_primitive (rec : createNodeT) (group : Object3D)
    (cd : childData) (graphData : gmap string nodeData)
    (pm : option Material) (cs rs : bool) (s : GraphParser) :
  includesValue primitiveTypes (prop (cd_fields cd) "type") = true ->
  loopsEnd (cd_fields cd) = true ->
  exists mesh,
    handleChild rec group cd graphData pm cs rs s
    = Done (add group (MeshObject (gp_objects s) mesh))
        (mkGraphParser (createPrimitive (cd_fields cd) pm (gp_contents s)).1.2
           (gp_processedNodes s) (gp_nodes s) (S (gp_objects s))) /\
    mesh_castShadow mesh = cs /\ mesh_receiveShadow mesh = rs.
Proof.
  intros Hty Hends. destruct (primitive_type_only _ Hty) as (Hlod & Href).
  unfold handleChild. rewrite Hlod, Href, Hty.
  destruct (createPrimitive_some (cd_fields cd) pm (gp_contents s) Hty)
    as (mesh & Hmesh & Hc & Hr).
  unfold mbind, Build_bind, buildPrimitive, newObject. rewrite Hends.
  destruct (createPrimitive (cd_fields cd) pm (gp_contents s))
    as [[mesh' contents] warnings]. simpl in Hmesh. subst mesh'.
  simpl. eexists. split; [reflexivity|]. simpl.
  rewrite Hc, Hr, !orb_false_r. split; reflexivity.
Qed.

Lemma handleChild_endless (rec : createNodeT) (group : Object3D)
    (cd : childData) (graphData : gmap string nodeData)
    (pm : option Material) (cs rs : bool) (s : GraphParser) :
  includesValue primitiveTypes (prop (cd_fields cd) "type") = true ->
  loopsEnd (cd_fields cd) = false ->
  handleChild rec group cd graphData pm cs rs s = OutOfFuel.
Proof.
  intros Hty Hends. destruct (primitive_type_only _ Hty) as (Hlod & Href).
  unfold handleChild. rewrite Hlod, Href, Hty.
  unfold mbind, Build_bind, buildPrimitive. rewrite Hends. reflexivity.
Qed.


End Leaves.


(** ** The graph builder: what a call returns *)

Section Synced.
Context `{Host} `{Three}.
Variable graphData : gmap string nodeData.

(** What [graphData[nodeId]] finds. *)
Lemma lookupNode_is_None (n : string) :
  lookupNode graphData n = None <->
  graphData !! n = None /\ includes inheritedNames n = false.
Proof.
  unfold lookupNode. destruct (graphData !! n) as [nd|].
  - split; [discriminate | intros [? _]; discriminate].
  - destruct (includes inheritedNames n).
    + split; [discriminate | intros [_ ?]; discriminate].
    + split; auto.
Qed.

(** What a returning call of [createNode] returns, from a state with
    the two tables in step. *)
Lemma createNode_result (fuel : nat) (n : string) (m : option Material)
    (cs rs : bool) (s : GraphParser) (r : option Object3D) (s' : GraphParser) :
  cacheSynced s -> createNode fuel graphData n m cs rs s = Done r s' ->
  match r with
  | None =>
      (cacheKey n m ∉ gp_processedNodes s) /\ lookupNode graphData n = None /\
      s' = s
  | Some o =>
      gp_nodes s' !! cacheKey n m = Some o /\
      (cacheKey n m ∈ gp_processedNodes s \/ is_Some (lookupNode graphData n))
  end.
Proof.
  intros Hs E. destruct fuel as [|fuel]; [discriminate|].
  simpl in E. unfold createNodeBody in E.
  destruct (decide (cacheKey n m ∈ gp_processedNodes s)) as [Hin|Hout].
  { inversion E; subst. unfold cacheSynced in Hs. rewrite <- Hs in Hin.
    apply elem_of_dom in Hin as [o Ho]. rewrite Ho.
    split; [reflexivity|]. left. rewrite <- Hs. apply elem_of_dom. eauto. }
  destruct (lookupNode graphData n) as [nd|].
  2:{ inversion E; subst. split; [exact Hout|]. split; reflexivity. }
  unfold mbind, Build_bind, newObject, cacheNode in E.
  match type of E with
  | context [expandChildren ?rec graphData ?ch ?nm ?c ?r0 ?g ?s1] =>
      destruct (expandChildren rec graphData ch nm c r0 g s1)
        as [|group s2] eqn:E1; [discriminate|]
  end.
  inversion E; subst. simpl. split; [apply lookup_insert_eq|].
  right. eauto.
Qed.


End Synced.

Section Levels.
Context `{Host} `{Three}.
Variable rec : createNodeT.
Variable graphData : gmap string nodeData.

Lemma Math_abs_number (d : float) :
  isNaN d = false -> isNaN (Math_abs d) = false.
Proof.
  rewrite !isNaN_spec. unfold Math_abs. rewrite FloatAxioms.abs_spec.
  destruct (Prim2SF d) as [[]|[]| |[] m e]; simpl; congruence.
Qed.

Lemma sublist_Forall {A : Type} (P : A -> Prop) (l k : list A) :
  sublist l k -> Forall P k -> Forall P l.
Proof.
  induction 1 as [|x l1 l2 _ IH|x l1 l2 _ IH]; intros HF.
  - constructor.
  - inversion HF; subst. constructor; auto.
  - inversion HF; subst. auto.
Qed.

(** [addLevel] keeps the levels in ascending order of distance. *)
Lemma insertLevel_sorted {A : Type} (level : A * float)
    (levels : list (A * float)) :
  isNaN level.2 = false ->
  Forall (fun l => isNaN l.2 = false) levels ->
  Sorted (fun l l' => PrimFloat.leb l.2 l'.2 = true) levels ->
  Sorted (fun l l' => PrimFloat.leb l.2 l'.2 = true) (insertLevel level levels).
Proof.
  intros Hx Hnum Hsorted.
  induction levels as [|p rest IH]; simpl.
  - repeat constructor.
  - apply Forall_cons in Hnum as [Hp Hrest].
    apply Sorted_inv in Hsorted as [Hsorted Hhd].
    destruct (PrimFloat.ltb level.2 p.2) eqn:Elt.
    + constructor.
      * constructor; assumption.
      * constructor. apply ltb_leb, Elt.
    + constructor; [exact (IH Hrest Hsorted)|].
      pose proof (not_ltb_leb _ _ Hx Hp Elt) as Hle.
      destruct rest as [|q rest']; simpl.
      * constructor. exact Hle.
      * destruct (PrimFloat.ltb level.2 q.2); constructor; [exact Hle|].
        inversion Hhd; assumption.
Qed.

Lemma addLodLevel_step (pm : option Material) (cs rs : bool)
    (id : nat) (st : Object3DState) (acc : list (Object3D * float))
    (e : lodEntry) (s : GraphParser) (lod : Object3D) (s' : GraphParser) :
  addLodLevel rec graphData pm cs rs (LOD id st acc) e s = Done lod s' ->
  exists levels new,
    lod = LOD id st levels /\ levels ≡ₚ acc ++ new /\
    sublist new.*2 (Math_abs <$> option_list (levelDistance e)) /\
    ((forall n m c r s0 r0 s1,
         rec graphData n m c r s0 = Done r0 s1 -> is_Some r0) ->
     new.*2 = Math_abs <$> option_list (levelDistance e)) /\
    (Forall (fun d => isNaN d = false) (option_list (levelDistance e)) ->
     Forall (fun l => isNaN l.2 = false) acc ->
     Sorted (fun l l' => PrimFloat.leb l.2 l'.2 = true) acc ->
     Sorted (fun l l' => PrimFloat.leb l.2 l'.2 = true) levels).
Proof.
  unfold addLodLevel, levelDistance.
  assert (Hskip : @mret Build _ _ (LOD id st acc) s = Done lod s' ->
                  exists levels new,
                    lod = LOD id st levels /\ levels ≡ₚ acc ++ new /\
                    sublist new.*2 [] /\
                    ((forall n m c r s0 r0 s1,
                         rec graphData n m c r s0 = Done r0 s1 -> is_Some r0) ->
                     new.*2 = []) /\
                    (Forall (fun d => isNaN d = false) [] ->
                     Forall (fun l => isNaN l.2 = false) acc ->
                     Sorted (fun l l' => PrimFloat.leb l.2 l'.2 = true) acc ->
                     Sorted (fun l l' => PrimFloat.leb l.2 l'.2 = true) levels)).
  { intros E. inversion E; subst. exists acc, [].
    rewrite app_nil_r. split; [reflexivity|]. split; [reflexivity|].
    split; [constructor|]. split; [reflexivity | auto]. }
  destruct (le_mindist e) as [| | |d| |]; try exact Hskip.
  destruct (truthy (le_nodeId e)); cbn [negb]; [|exact Hskip].
  unfold mbind, Build_bind.
  destruct (rec graphData (ToString (le_nodeId e)) pm cs rs s)
    as [|[child|] s1] eqn:E1; [discriminate| |]; intros E;
    inversion E; subst.
  - exists (insertLevel (child, Math_abs d) acc), [(child, Math_abs d)].
    split; [reflexivity|].
    split; [rewrite insertLevel_perm; apply Permutation_cons_append|].
    split; [reflexivity|]. split; [reflexivity|].
    intros Hd Hacc Hsorted. apply insertLevel_sorted; [|exact Hacc|exact Hsorted].
    simpl. apply Math_abs_number. inversion Hd; assumption.
  - exists acc, []. rewrite app_nil_r. split; [reflexivity|].
    split; [reflexivity|]. split; [apply sublist_nil_l|].
    split; [|auto].
    intros Htotal. destruct (Htotal _ _ _ _ _ _ _ E1) as [x Hx]. discriminate.
Qed.

Lemma omap_levelDistance_cons (e : lodEntry) (entries : list lodEntry) :
  omap levelDistance (e :: entries)
  = (option_list (levelDistance e) ++ omap levelDistance entries)%list.
Proof. simpl. destruct (levelDistance e); reflexivity. Qed.

Lemma forEach_levels (pm : option Material) (cs rs : bool) (id : nat)
    (st : Object3DState) (entries : list lodEntry) :
  forall acc s lod s',
    forEach (addLodLevel rec graphData pm cs rs) entries (LOD id st acc) s
    = Done lod s' ->
    exists levels new,
      lod = LOD id st levels /\ levels ≡ₚ acc ++ new /\
      sublist new.*2 (Math_abs <$> omap levelDistance entries) /\
      ((forall n m c r s0 r0 s1,
           rec graphData n m c r s0 = Done r0 s1 -> is_Some r0) ->
       new.*2 = Math_abs <$> omap levelDistance entries) /\
      (Forall (fun d => isNaN d = false) (omap levelDistance entries) ->
       Forall (fun l => isNaN l.2 = false) acc ->
       Sorted (fun l l' => PrimFloat.leb l.2 l'.2 = true) acc ->
       Sorted (fun l l' => PrimFloat.leb l.2 l'.2 = true) levels).
Proof.
  induction entries as [|e rest IH]; intros acc s lod s' E; simpl in E.
  - inversion E; subst. exists acc, []. rewrite app_nil_r.
    split; [reflexivity|]. split; [reflexivity|].
    split; [constructor|]. split; [reflexivity | auto].
  - unfold mbind, Build_bind in E.
    destruct (addLodLevel rec graphData pm cs rs (LOD id st acc) e s)
      as [|lod1 s1] eqn:E1; [discriminate|].
    destruct (addLodLevel_step _ _ _ _ _ _ _ _ _ _ E1)
      as (levels1 & new1 & -> & Hperm1 & Hsub1 & Heq1 & Hsorted1).
    destruct (IH _ _ _ _ E)
      as (levels2 & new2 & -> & Hperm2 & Hsub2 & Heq2 & Hsorted2).
    exists levels2, (new1 ++ new2)%list. split; [reflexivity|].
    split; [rewrite Hperm2, Hperm1, app_assoc; reflexivity|].
    rewrite omap_levelDistance_cons, !fmap_app. split; [|split].
    + apply sublist_app; assumption.
    + intros Htotal. rewrite (Heq1 Htotal), (Heq2 Htotal). reflexivity.
    + intros Hd Hacc Hsorted. apply Forall_app in Hd as [Hd1 Hd2].
      apply Hsorted2; [exact Hd2 | | exact (Hsorted1 Hd1 Hacc Hsorted)].
      rewrite Hperm1. apply Forall_app. split; [exact Hacc|].
      assert (Hnum : Forall (fun d => isNaN d = false)
                       (Math_abs <$> option_list (levelDistance e))).
      { apply Forall_fmap. eapply Forall_impl; [exact Hd1|].
        intros d. apply Math_abs_number. }
      pose proof (sublist_Forall _ _ _ Hsub1 Hnum) as Hnew.
      apply Forall_fmap in Hnew. exact Hnew.
Qed.


End Levels.

Section Root.
Context `{Host} `{Three}.


End Root.




(** ** handleChild: references to nodes *)

Section NodeRefs.
Context `{Host} `{Three}.
Variable rec : createNodeT.

(** X12: a "noderef" child without a truthy [nodeId] adds nothing and
    asks for no node, and so does one whose node [createNode] does not
    find.  Otherwise the group receives a deep copy of the node that
    [createNode] returned, with the parent's material and shadow flags
    applied to it when there is such a material: the copy has the
    shape and the meshes of the node so treated and as many objects,
    all of them new, while the tables of the parser, and with them the
    node that is cached, stay as [createNode] left them. *)
Theorem handleChild_noderef (group : Object3D) (cd : childData)
    (graphData : gmap string nodeData) (pm : option Material) (cs rs : bool)
    (s : GraphParser) :
  let nodeId := prop (cd_fields cd) "nodeId" in
  let inherit node :=
    match pm with
    | Some m => applyMaterialToNode node m cs rs
    | None => node
    end in
  strictEq (prop (cd_fields cd) "type") "noderef" = true ->
  (truthy nodeId = false ->
   handleChild rec group cd graphData pm cs rs s = Done group s) /\
  (truthy nodeId = true ->
   forall r s1,
     rec graphData (ToString nodeId) pm cs rs s = Done r s1 ->
     match r with
     | None => handleChild rec group cd graphData pm cs rs s = Done group s1
     | Some node =>
         exists copy,
           handleChild rec group cd graphData pm cs rs s
           = Done (add group copy)
               (mkGraphParser (gp_contents s1) (gp_processedNodes s1)
                  (gp_nodes s1)
                  (gp_objects s1 + length (object_ids node))) /\
           object_ids copy
           = seq (gp_objects s1) (length (object_ids node)) /\
           shapeOf copy = shapeOf (inherit node) /\
           meshesOf copy = meshesOf (inherit node)
     end).
Proof.
  cbv zeta. intros Hty.
  assert (Hlod : strictEq (prop (cd_fields cd) "type") "lod" = false).
  { destruct (prop (cd_fields cd) "type") as [| | | |t|]; try reflexivity.
    simpl in Hty |- *. apply String.eqb_eq in Hty. subst t. reflexivity. }
  unfold handleChild. rewrite Hlod, Hty. split.
  - intros ->. reflexivity.
  - intros -> r s1 Hrec. cbn [negb]. unfold mbind, Build_bind.
    rewrite Hrec. destruct r as [node|]; [|reflexivity].
    unfold cloneObject.
    destruct (clone_count node (gp_objects s1)) as [Hids Hnext].
    pose proof (clone_shape node (gp_objects s1)) as Hshape.
    pose proof (clone_meshes node (gp_objects s1)) as Hmeshes.
    destruct (clone node (gp_objects s1)) as [copy next]. simpl in *.
    subst next. eexists. split; [reflexivity|].
    destruct pm as [m|].
    + rewrite applyMaterialToNode_ids, !applyMaterialToNode_shape,
        !applyMaterialToNode_meshes, Hshape, Hmeshes.
      split; [exact Hids|]. split; reflexivity.
    + split; [exact Hids|]. split; assumption.
Qed.

End NodeRefs.

Lemma handleChild_noderef_witness :
  exists copy s',
    @handleChild sampleHost sampleThree (@createNode sampleHost sampleThree 1)
      (Group 0 newObject3DState false false [])
      (mkChildData [("type", JStr "noderef"); ("nodeId", JStr "leaf")]
         None None)
      sampleGraph None false false (mkGraphParser emptyContents ∅ ∅ 1)
    = Done (add (Group 0 newObject3DState false false []) copy) s' /\
    object_ids copy = [2].
Proof.
  destruct (@createNode sampleHost sampleThree 1 sampleGraph "leaf" None
              false false (mkGraphParser emptyContents ∅ ∅ 1))
    as [|r s1] eqn:E; [vm_compute in E; discriminate|].
  destruct (@handleChild_noderef sampleHost sampleThree
              (@createNode sampleHost sampleThree 1)
              (Group 0 newObject3DState false false [])
              (mkChildData [("type", JStr "noderef"); ("nodeId", JStr "leaf")]
                 None None)
              sampleGraph None false false (mkGraphParser emptyContents ∅ ∅ 1)
              eq_refl) as [_ Href].
  specialize (Href eq_refl r s1 E).
  vm_compute in E. inversion E; subst r s1. clear E.
  destruct Href as (copy & Hrun & Hids & _).
  exists copy. eexists. split; [exact Hrun | exact Hids].
Defined.

(** ** Material loading: what ends up in the table *)

Section MaterialTable.
Context `{Host}.

(** Only ids that are not empty, not in the table and not inherited by
    it are scheduled. *)
Lemma scheduleMaterials_new (materialsData : list (string * jsobject))
    (textures : gmap string Texture) (materials : gmap string Material)
    (materialId : string) :
  materialId ∈ (scheduleMaterials materialsData textures materials).1.*1 ->
  materialId <> "" /\ materials !! materialId = None /\
  includes inheritedNames materialId = false /\
  materialId ∈ materialsData.*1.
Proof.
  induction materialsData as [|[k d] rest IH]; simpl.
  - intros Hin. inversion Hin.
  - destruct (scheduleMaterials rest textures materials) as [pending warnings].
    simpl in IH.
    assert (Hrest : materialId ∈ pending.*1 ->
                    materialId <> "" /\ materials !! materialId = None /\
                    includes inheritedNames materialId = false /\
                    materialId ∈ k :: rest.*1).
    { intros Hin. destruct (IH Hin) as (Hne & Hnew & Hinh & Hmem).
      repeat split; try assumption. right. exact Hmem. }
    destruct (String.eqb k "") eqn:Ek; simpl; [exact Hrest|].
    unfold tableHas.
    destruct (bool_decide (k ∈ dom materials)) eqn:Eb; [exact Hrest|].
    destruct (includes inheritedNames k) eqn:Einh; [exact Hrest|]. simpl.
    destruct (isValid (newMyMaterials k d textures)); [|exact Hrest].
    simpl. intros Hin. apply elem_of_cons in Hin as [->|Hin]; [|auto].
    split; [intros ->; discriminate|]. split; [|split; [exact Einh | left]].
    apply bool_decide_eq_false in Eb. apply not_elem_of_dom. exact Eb.
Qed.

(** The scheduled ids are distinct when the ids of the document are. *)
Lemma scheduleMaterials_NoDup (materialsData : list (string * jsobject))
    (textures : gmap string Texture) (materials : gmap string Material) :
  NoDup materialsData.*1 ->
  NoDup (scheduleMaterials materialsData textures materials).1.*1.
Proof.
  induction materialsData as [|[k d] rest IH]; simpl; intros Hnd.
  - constructor.
  - apply NoDup_cons in Hnd as [Hk Hnd]. specialize (IH Hnd).
    pose proof (scheduleMaterials_new rest textures materials k) as Hnew.
    destruct (scheduleMaterials rest textures materials) as [pending warnings].
    simpl in *.
    destruct (String.eqb k "" || tableHas (dom materials) k);
      [exact IH|].
    destruct (isValid (newMyMaterials k d textures)); [|exact IH].
    simpl. apply NoDup_cons. split; [|exact IH].
    intros Hin. apply Hk. apply Hnew, Hin.
Qed.

(** Every valid entry with a new, non-empty id is scheduled. *)
Lemma scheduleMaterials_complete (materialsData : list (string * jsobject))
    (textures : gmap string Texture) (materials : gmap string Material)
    (materialId : string) (materialData : jsobject) :
  (materialId, materialData) ∈ materialsData ->
  materialId <> "" -> tableHas (dom materials) materialId = false ->
  isValid (newMyMaterials materialId materialData textures) = true ->
  (materialId, newMyMaterials materialId materialData textures)
  ∈ (scheduleMaterials materialsData textures materials).1.
Proof.
  intros Hin Hne Hnew Hvalid.
  induction materialsData as [|[k d] rest IH]; simpl.
  - inversion Hin.
  - destruct (scheduleMaterials rest textures materials) as [pending warnings].
    simpl in IH. apply elem_of_cons in Hin as [Heq|Hin].
    + inversion Heq; subst k d.
      assert (String.eqb materialId "" = false) as ->
        by (apply String.eqb_neq; exact Hne).
      rewrite Hnew. simpl. rewrite Hvalid. left.
    + specialize (IH Hin).
      destruct (String.eqb k "" || tableHas (dom materials) k);
        [exact IH|].
      destruct (isValid (newMyMaterials k d textures)); [right|]; exact IH.
Qed.

(** A scheduled material is stored under its id. *)
Lemma settleMaterials_lookup (pending : list (string * MyMaterials))
    (c : MyContents) (materialId : string) (m : MyMaterials) :
  NoDup pending.*1 -> (materialId, m) ∈ pending ->
  exists uuid,
    mc_materials (settleMaterials pending c) !! materialId
    = Some (createThreeMaterialAsync m uuid).
Proof.
  revert c. induction pending as [|[k m0] rest IH]; intros c Hnd Hin.
  - inversion Hin.
  - rewrite fmap_cons in Hnd. apply NoDup_cons in Hnd as [Hk Hnd].
    apply elem_of_cons in Hin as [Heq|Hin].
    + inversion Heq; subst k m0. exists (generateUUID (mc_uuids c)).
      change (settleMaterials ((materialId, m) :: rest) c)
        with (settleMaterials rest
                (mkMyContents (mc_textures c)
                   (<[materialId :=
                        createThreeMaterialAsync m (generateUUID (mc_uuids c))]>
                      (mc_materials c))
                   (mc_defaultMaterial c) (mc_defaultMaterialVertex c)
                   (S (mc_uuids c)))).
      rewrite settleMaterials_other by exact Hk. simpl.
      apply lookup_insert_eq.
    + apply (IH _ Hnd Hin).
Qed.

(** X16: on a document none of whose texture references is a name
    that the table of textures inherits, [materialsRendering] keeps
    every material object that the table holds under its id.  It adds
    a material for every entry of the document, the ids of which are
    distinct, whose id is not empty, is no key of the table yet, is no
    name that the table inherits (such as [toString]) and that passes
    [isValid]: a material with the parameters read from the entry's
    data and with the textures that the data refer to.  It adds
    nothing else: a key of the table afterwards was there before or is
    the id of such an entry. *)
Theorem materialsRendering_loads (materialsData : list (string * jsobject))
    (c : MyContents) :
  (forall materialId materialData,
      (materialId, materialData) ∈ materialsData ->
      plainRefs materialData = true) ->
  let c' := (materialsRendering materialsData c).1 in
  (forall k m,
      mc_materials c !! k = Some m ->
      exists m', mc_materials c' !! k = Some m' /\ mat_uuid m' = mat_uuid m) /\
  (forall materialId materialData,
      NoDup materialsData.*1 ->
      (materialId, materialData) ∈ materialsData ->
      materialId <> "" ->
      mc_materials c !! materialId = None ->
      includes inheritedNames materialId = false ->
      isValid (newMyMaterials materialId materialData (mc_textures c)) = true ->
      exists m uuid,
        mc_materials c' !! materialId = Some m /\
        parametersOf m
        = parametersOf
            (createThreeMaterialAsync
               (newMyMaterials materialId materialData (mc_textures c)) uuid)) /\
  (forall k,
      is_Some (mc_materials c' !! k) ->
      is_Some (mc_materials c !! k) \/
      exists materialData,
        (k, materialData) ∈ materialsData /\ k <> "" /\
        includes inheritedNames k = false /\
        isValid (newMyMaterials k materialData (mc_textures c)) = true).
Proof.
  intros _. cbv zeta. unfold materialsRendering.
  destruct materialsData as [|e rest].
  { simpl. split; [eauto|]. split; [|tauto].
    intros materialId materialData _ Hin. inversion Hin. }
  set (materialsData := e :: rest).
  pose proof (scheduleMaterials_new materialsData (mc_textures c)
                (mc_materials c)) as Hnew.
  pose proof (scheduleMaterials_NoDup materialsData (mc_textures c)
                (mc_materials c)) as Hnd.
  pose proof (scheduleMaterials_complete materialsData (mc_textures c)
                (mc_materials c)) as Hcomplete.
  pose proof (scheduleMaterials_pending materialsData (mc_textures c)
                (mc_materials c)) as Hpending.
  destruct (scheduleMaterials materialsData (mc_textures c) (mc_materials c))
    as [pending warnings]. simpl in *.
  split; [|split].
  - intros k m Hk. exists m. split; [|reflexivity].
    rewrite settleMaterials_other; [exact Hk|].
    intros Hin. destruct (Hnew k Hin) as (_ & Hnone & _). congruence.
  - intros materialId materialData Hdistinct Hin Hne Hfresh Hinh Hvalid.
    destruct (settleMaterials_lookup pending c materialId
                (newMyMaterials materialId materialData (mc_textures c)))
      as [uuid Hm]; [apply Hnd, Hdistinct| |eauto].
    apply Hcomplete; try assumption.
    unfold tableHas. apply orb_false_iff. split; [|exact Hinh].
    apply bool_decide_eq_false. apply not_elem_of_dom. exact Hfresh.
  - intros k Hk.
    destruct (decide (k ∈ pending.*1)) as [Hin|Hout].
    + right. apply list_elem_of_fmap in Hin as ([k' m] & Hk' & Hm).
      simpl in Hk'. subst k'.
      destruct (Hnew k) as (Hne & _ & Hinh & _);
        [apply list_elem_of_fmap; exists (k, m); auto|].
      destruct (Hpending k m Hm) as (materialData & Hmem & -> & Hvalid).
      exists materialData. repeat split; assumption.
    + left. rewrite settleMaterials_other in Hk by exact Hout. exact Hk.
Qed.

End MaterialTable.

Lemma sampleMaterials_plainRefs (materialId : string) (materialData : jsobject) :
  (materialId, materialData) ∈ sampleMaterials ->
  @plainRefs sampleHost materialData = true.
Proof.
  intros Hin. unfold sampleMaterials in Hin.
  apply elem_of_cons in Hin as [Heq|Hin]; [inversion Heq; reflexivity|].
  apply list_elem_of_singleton in Hin. inversion Hin. reflexivity.
Qed.

Lemma materialsRendering_loads_witness :
  exists m uuid,
    mc_materials (@materialsRendering sampleHost sampleMaterials emptyContents).1
      !! "wood" = Some m /\
    parametersOf m
    = parametersOf
        (@createThreeMaterialAsync
           (@newMyMaterials sampleHost "wood" [("shininess", JNum 10)] ∅)
           uuid).
Proof.
  destruct (@materialsRendering_loads sampleHost sampleMaterials emptyContents
              sampleMaterials_plainRefs)
    as (_ & Hadd & _).
  apply (Hadd "wood" [("shininess", JNum 10)]).
  - apply NoDup_cons. split; [|apply NoDup_singleton].
    intros Hin. apply list_elem_of_singleton in Hin. discriminate.
  - left.
  - discriminate.
  - reflexivity.
  - reflexivity.
  - reflexivity.
Defined.

(** ** Material loading: the parameters of the materials *)

Section MaterialParameters.
Context `{Host}.

Lemma settleMaterials_values (pending : list (string * MyMaterials)) :
  forall (c : MyContents) (k : string) (m : Material),
    mc_materials (settleMaterials pending c) !! k = Some m ->
    mc_materials c !! k = Some m \/
    exists p uuid, (k, p) ∈ pending /\ m = createThreeMaterialAsync p uuid.
Proof.
  induction pending as [|[k0 p0] rest IH]; intros c k m Hm.
  - left. exact Hm.
  - change (settleMaterials ((k0, p0) :: rest) c)
      with (settleMaterials rest
              (mkMyContents (mc_textures c)
                 (<[k0 := createThreeMaterialAsync p0 (generateUUID (mc_uuids c))]>
                    (mc_materials c))
                 (mc_defaultMaterial c) (mc_defaultMaterialVertex c)
                 (S (mc_uuids c)))) in Hm.
    destruct (IH _ _ _ Hm) as [Hold | (p & uuid & Hin & ->)].
    + simpl in Hold. destruct (decide (k = k0)) as [->|Hne].
      * rewrite lookup_insert_eq in Hold. inversion Hold; subst m.
        right. eexists _, _. split; [left | reflexivity].
      * rewrite lookup_insert_ne in Hold by congruence. left. exact Hold.
    + right. exists p, uuid. split; [right; exact Hin | reflexivity].
Qed.

Lemma createThreeMaterialAsync_valid (materialId : string)
    (materialData : jsobject) (textures : gmap string Texture) (uuid : string) :
  isValid (newMyMaterials materialId materialData textures) = true ->
  validMaterial textures
    (createThreeMaterialAsync (newMyMaterials materialId materialData textures)
       uuid).
Proof.
  intros Hvalid. unfold validMaterial. simpl.
  destruct (toValidOpacity_range (prop materialData "opacity") 1
              eq_refl eq_refl) as [Ho0 Ho1].
  split; [exact Hvalid|]. split; [exact Ho0|]. split; [exact Ho1|].
  split; [apply toValidFloat_not_nan; reflexivity|].
  split.
  - eexists _, _. split; [reflexivity|]. split; [reflexivity|].
    split; apply toValidFloat_not_nan; reflexivity.
  - unfold getTexture.
    destruct (negb (truthy (prop materialData "textureref"))); [exact I|].
    destruct (textures !! ToString (prop materialData "textureref"))
      as [t0|] eqn:Et; [|exact I].
    split; [reflexivity|]. split; [reflexivity|].
    exists (ToString (prop materialData "textureref")), t0.
    split; [exact Et | reflexivity].
Qed.

(** X23: on a document none of whose texture references is a name
    that the table of textures inherits, every material that
    [materialsRendering] adds to the table has parameters in range,
    whatever the document says: a shininess that is not negative, an
    opacity in [0, 1], texture lengths and a bump scale that are
    numbers, and as its colour map, if it has one, a texture of the
    table set to repeat once in each direction.  Nothing is said of the
    materials under the keys that the table held before. *)
Theorem materialsRendering_parameters
    (materialsData : list (string * jsobject)) (c : MyContents) :
  (forall materialId materialData,
      (materialId, materialData) ∈ materialsData ->
      plainRefs materialData = true) ->
  map_Forall
    (fun k m =>
       k ∈ dom (mc_materials c) \/ validMaterial (mc_textures c) m)
    (mc_materials (materialsRendering materialsData c).1).
Proof.
  intros _ k m Hm. unfold materialsRendering in Hm.
  destruct materialsData as [|e rest];
    [left; apply elem_of_dom; eauto|].
  pose proof (scheduleMaterials_pending (e :: rest) (mc_textures c)
                (mc_materials c)) as Hpending.
  destruct (scheduleMaterials (e :: rest) (mc_textures c) (mc_materials c))
    as [pending warnings]. simpl in Hm, Hpending.
  destruct (settleMaterials_values pending c k m Hm)
    as [Hold | (p & uuid & Hin & ->)];
    [left; apply elem_of_dom; eauto | right].
  destruct (Hpending k p Hin) as (materialData & _ & -> & Hvalid).
  apply createThreeMaterialAsync_valid. exact Hvalid.
Qed.

End MaterialParameters.

Lemma materialsRendering_parameters_witness :
  exists m,
    mc_materials (@materialsRendering sampleHost sampleMaterials emptyContents).1
      !! "wood" = Some m /\
    validMaterial (mc_textures emptyContents) m.
Proof.
  destruct (mc_materials
              (@materialsRendering sampleHost sampleMaterials emptyContents).1
              !! "wood") as [m|] eqn:E; [|vm_compute in E; discriminate].
  exists m. split; [reflexivity|].
  destruct (@materialsRendering_parameters sampleHost sampleMaterials
              emptyContents sampleMaterials_plainRefs "wood" m E)
    as [Hold|Hvalid];
    [apply elem_of_dom in Hold as [x Hx]; simpl in Hx;
     rewrite lookup_empty in Hx; discriminate
    | exact Hvalid].
Defined.

(** ** Cameras *)

Section CameraFacts.
Context `{Host}.
Variable aspect : float.

Lemma validateFar_cases (value : jsval) (near d : float) :
  PrimFloat.ltb near (validateFar value near d) = true \/
  validateFar value near d = d.
Proof.
  unfold validateFar.
  destruct (PrimFloat.ltb near (toValidFloat value d)) eqn:E;
    [left; exact E | right; reflexivity].
Qed.

Lemma readVector3_numbers (v : jsval) (dx dy dz : float) :
  isNaN dx = false -> isNaN dy = false -> isNaN dz = false ->
  isNaN (v_x (readVector3 v dx dy dz)) = false /\
  isNaN (v_y (readVector3 v dx dy dz)) = false /\
  isNaN (v_z (readVector3 v dx dy dz)) = false.
Proof.
  intros Hx Hy Hz. unfold readVector3. simpl.
  repeat split; apply toValidFloat_not_nan; assumption.
Qed.

(** X17: every camera that [MyCamera] builds has a near plane that is
    not negative and a far plane that lies beyond it or is the default
    2000.  A perspective camera has a field of view strictly between 0
    and 90 degrees and the aspect ratio of the window; an orthographic
    camera has left and right, and bottom and top, of opposite signs
    and other than zero.  Position and target are made of numbers.
    The camera is stored under its id; the cameras that were in the
    table stay, unless the table held the camera "Perspective" and
    nothing else, in which case it is emptied first. *)
Theorem newMyCamera_projection (app : MyApp) (id : string)
    (cameraData : jsobject) :
  let camera := (cameraOf aspect cameraData).1 in
  let app' := (newMyCamera aspect app id cameraData).1 in
  match cam_projection camera with
  | PerspectiveCamera fov a near far =>
      PrimFloat.ltb 0 fov = true /\ PrimFloat.ltb fov 90 = true /\
      a = aspect /\ PrimFloat.leb 0 near = true /\
      (PrimFloat.ltb near far = true \/ far = 2000%float)
  | OrthographicCamera l r t b near far =>
      oppositeSigns (l, r) /\ oppositeSigns (b, t) /\
      PrimFloat.leb 0 near = true /\
      (PrimFloat.ltb near far = true \/ far = 2000%float)
  end /\
  (exists target,
      cam_target camera = Some target /\
      isNaN (v_x target) = false /\ isNaN (v_y target) = false /\
      isNaN (v_z target) = false) /\
  (isNaN (v_x (cam_position camera)) = false /\
   isNaN (v_y (cam_position camera)) = false /\
   isNaN (v_z (cam_position camera)) = false) /\
  app_cameras app' !! id = Some camera /\
  (forall k, k <> id ->
     app_cameras app' !! k
     = if (size (app_cameras app) =? 1)%nat
          && bool_decide (is_Some (app_cameras app !! "Perspective"))
       then None else app_cameras app !! k).
Proof.
  cbv zeta. unfold newMyCamera, cameraOf.
  pose proof (validateNear_range (prop cameraData "near") 0.1 eq_refl) as Hnear.
  pose proof (validateFar_cases (prop cameraData "far")
                (validateNear (prop cameraData "near") 0.1) 2000) as Hfar.
  destruct (validateAngle_range (prop cameraData "angle") 0 90 50
              eq_refl eq_refl) as (Ha0 & Ha1 & _).
  assert (Hfov : numOr (validateAngle (prop cameraData "angle") 0 90 50) 50
                 = validateAngle (prop cameraData "angle") 0 90 50).
  { unfold numOr, numTruthy.
    destruct (ltb_not_nan _ _ Ha0) as [_ Hn]. unfold isNaN in Hn.
    rewrite Hn, (pos_nonzero _ Ha0). reflexivity. }
  split; [|split; [|split; [|split]]].
  - destruct (strictEq (orElse (prop cameraData "type") (JStr "perspective"))
                "perspective"); cbn [fst cam_projection].
    { rewrite Hfov. repeat split; assumption. }
    destruct (strictEq (orElse (prop cameraData "type") (JStr "perspective"))
                "orthogonal"); cbn [fst cam_projection].
    + split; [|split; [|split; assumption]].
      * rewrite <- surjective_pairing.
        apply validateLeftRight_opposite; try reflexivity;
          apply toValidFloat_not_nan; reflexivity.
      * rewrite <- surjective_pairing.
        apply (validateLeftRight_opposite
                 (toValidFloat (prop cameraData "bottom") (-5))
                 (toValidFloat (prop cameraData "top") 5) (-5) 5);
          try reflexivity; apply toValidFloat_not_nan; reflexivity.
    + repeat split; try reflexivity. left. reflexivity.
  - destruct (if strictEq _ "perspective" then _ else _) as [projection w].
    cbn [fst cam_target]. eexists. split; [reflexivity|].
    apply readVector3_numbers; reflexivity.
  - destruct (if strictEq _ "perspective" then _ else _) as [projection w].
    cbn [fst cam_position]. apply readVector3_numbers; reflexivity.
  - destruct (if strictEq _ "perspective" then _ else _) as [projection w].
    cbn [fst app_cameras]. apply lookup_insert_eq.
  - intros k Hk.
    destruct (if strictEq _ "perspective" then _ else _) as [projection w].
    cbn [fst app_cameras]. rewrite lookup_insert_ne by congruence.
    destruct ((size (app_cameras app) =? 1)%nat
              && bool_decide (is_Some (app_cameras app !! "Perspective")));
      [apply lookup_empty | reflexivity].
Qed.

Lemma newMyCamera_rest (app : MyApp) (id : string) (fields : jsobject) :
  app_activeCameraName (newMyCamera aspect app id fields).1
  = app_activeCameraName app /\
  app_activeCamera (newMyCamera aspect app id fields).1 = app_activeCamera app /\
  app_controls (newMyCamera aspect app id fields).1 = app_controls app.
Proof.
  unfold newMyCamera. destruct (cameraOf aspect fields) as [camera w].
  repeat split.
Qed.

Lemma newMyCamera_settled (app : MyApp) (id : string) (fields : jsobject) :
  settled (dom (app_cameras app)) ->
  dom (app_cameras (newMyCamera aspect app id fields).1)
  = {[ id ]} ∪ dom (app_cameras app) /\
  settled (dom (app_cameras (newMyCamera aspect app id fields).1)).
Proof.
  intros [Hne Hnot]. unfold newMyCamera.
  destruct (cameraOf aspect fields) as [camera w]. cbn [fst app_cameras].
  assert (Hcond : (size (app_cameras app) =? 1)%nat
                  && bool_decide (is_Some (app_cameras app !! "Perspective"))
                  = false).
  { destruct ((size (app_cameras app) =? 1)%nat) eqn:Es; [|reflexivity].
    destruct (bool_decide (is_Some (app_cameras app !! "Perspective")))
      eqn:Eb; [|reflexivity].
    exfalso. apply Hnot. split.
    - rewrite size_dom. apply Nat.eqb_eq, Es.
    - apply elem_of_dom. apply bool_decide_eq_true in Eb. exact Eb. }
  rewrite Hcond, dom_insert_L. split; [reflexivity|]. split.
  - intros Hempty.
    assert (id ∈ ({[ id ]} ∪ dom (app_cameras app) : gset string)) as Hin
      by (apply elem_of_union; left; apply elem_of_singleton; reflexivity).
    rewrite Hempty in Hin. apply not_elem_of_empty in Hin. exact Hin.
  - intros [Hsize Hp]. apply Hnot.
    destruct (decide (id ∈ dom (app_cameras app))) as [Hin|Hout].
    + assert (({[ id ]} ∪ dom (app_cameras app) : gset string)
              = dom (app_cameras app)) as Heq.
      { apply set_eq. intros x. rewrite elem_of_union, elem_of_singleton.
        split; [intros [->|Hx]; assumption | intros Hx; right; exact Hx]. }
      rewrite Heq in Hsize, Hp. split; assumption.
    + exfalso. rewrite size_union in Hsize.
      * rewrite size_singleton in Hsize.
        assert (size (dom (app_cameras app)) = 0) as Hzero by lia.
        apply size_empty_inv in Hzero. apply Hne.
        apply set_eq. intros x. split; [apply Hzero|].
        intros Hx. apply not_elem_of_empty in Hx. destruct Hx.
      * intros x Hx1 Hx2. apply elem_of_singleton in Hx1. subst x.
        contradiction.
Qed.

Lemma newMyCamera_default (app : MyApp) (id : string) (fields : jsobject) :
  dom (app_cameras app) = {[ "Perspective" ]} ->
  dom (app_cameras (newMyCamera aspect app id fields).1) = {[ id ]}.
Proof.
  intros Hdom. unfold newMyCamera.
  destruct (cameraOf aspect fields) as [camera w]. cbn [fst app_cameras].
  assert (Hcond : (size (app_cameras app) =? 1)%nat
                  && bool_decide (is_Some (app_cameras app !! "Perspective"))
                  = true).
  { apply andb_true_intro. split.
    - apply Nat.eqb_eq. rewrite <- size_dom, Hdom. apply size_singleton.
    - apply bool_decide_eq_true. apply elem_of_dom. rewrite Hdom.
      apply elem_of_singleton. reflexivity. }
  rewrite Hcond, dom_insert_L, dom_empty_L. apply set_eq. intros x.
  rewrite elem_of_union. split; [intros [Hx|Hx]; [exact Hx|] | intros Hx; left; exact Hx].
  apply not_elem_of_empty in Hx. destruct Hx.
Qed.

(** [firstCameraId] after the loop over the given ids. *)
Lemma firstAfter_set (f : string) (ids : list string) :
  f <> "" -> firstAfter (Some f) ids = Some f.
Proof.
  intros Hf. induction ids as [|id rest IH]; [reflexivity|].
  simpl. apply String.eqb_neq in Hf. rewrite Hf. exact IH.
Qed.

Lemma firstAfter_unset (first : option string) (ids : list string) :
  unset first = true ->
  match firstCamera ids with
  | Some f => firstAfter first ids = Some f /\ f <> ""
  | None => unset (firstAfter first ids) = true
  end.
Proof.
  revert first. induction ids as [|id rest IH]; intros first Hfirst; simpl.
  - exact Hfirst.
  - unfold firstAfter. simpl. rewrite Hfirst.
    destruct (String.eqb id "") eqn:Eid.
    + apply (IH (Some id)). simpl. exact Eid.
    + apply String.eqb_neq in Eid. split; [|exact Eid].
      apply firstAfter_set. exact Eid.
Qed.

Lemma noNullCamera_tail (e : string * jsval) (rest : jsobject) :
  noNullCamera (e :: rest) -> noNullCamera rest.
Proof. intros Hall id v Hin. apply Hall. right. exact Hin. Qed.

Lemma fieldsOf_some (v : jsval) :
  v <> JNull -> exists fields, fieldsOf v = Some fields.
Proof. destruct v; intros Hv; try contradiction; eexists; reflexivity. Qed.

Lemma createCameras_settled (entries : jsobject) :
  forall app first,
    noNullCamera entries -> settled (dom (app_cameras app)) ->
    exists app' warnings,
      createCameras aspect entries app first
      = Some (app', firstAfter first (declaredCameras entries), warnings) /\
      dom (app_cameras app')
      = dom (app_cameras app) ∪ list_to_set (declaredCameras entries) /\
      settled (dom (app_cameras app')).
Proof.
  induction entries as [|[id v] rest IH]; intros app first Hnn Hs; simpl.
  - exists app, []. split; [reflexivity|]. split; [|exact Hs].
    apply set_eq. intros x. rewrite elem_of_union.
    split; [intros Hx; left; exact Hx|].
    intros [Hx|Hx]; [exact Hx|]. apply not_elem_of_empty in Hx. destruct Hx.
  - pose proof (noNullCamera_tail _ _ Hnn) as Hrest.
    destruct (String.eqb id "initial") eqn:Ei; [exact (IH app first Hrest Hs)|].
    destruct (fieldsOf_some v) as [fields ->].
    { apply (Hnn id v); [left|]. apply String.eqb_neq, Ei. }
    destruct (newMyCamera_settled app id fields Hs) as [Hdom Hs'].
    destruct (newMyCamera aspect app id fields) as [app1 w]. simpl in *.
    destruct (IH app1 (if unset first then Some id else first) Hrest Hs')
      as (app' & ws & -> & Hdom' & Hs'').
    exists app', (w ++ ws)%list. split; [reflexivity|].
    split; [|exact Hs''].
    rewrite Hdom', Hdom. apply set_eq. intros x.
    rewrite !elem_of_union, elem_of_singleton. tauto.
Qed.

(** The table after the loop, started on a table that holds the camera
    "Perspective" alone. *)
Lemma createCameras_default (entries : jsobject) :
  forall app first,
    noNullCamera entries -> dom (app_cameras app) = {[ "Perspective" ]} ->
    exists app' warnings,
      createCameras aspect entries app first
      = Some (app', firstAfter first (declaredCameras entries), warnings) /\
      match afterDefaults (declaredCameras entries) with
      | [] => dom (app_cameras app') = {[ "Perspective" ]}
      | ids => dom (app_cameras app') = list_to_set ids /\
               settled (dom (app_cameras app'))
      end.
Proof.
  induction entries as [|[id v] rest IH]; intros app first Hnn Hd; simpl.
  - exists app, []. split; [reflexivity | exact Hd].
  - pose proof (noNullCamera_tail _ _ Hnn) as Hrest.
    destruct (String.eqb id "initial") eqn:Ei; [exact (IH app first Hrest Hd)|].
    destruct (fieldsOf_some v) as [fields ->].
    { apply (Hnn id v); [left|]. apply String.eqb_neq, Ei. }
    pose proof (newMyCamera_default app id fields Hd) as Hdom.
    destruct (newMyCamera aspect app id fields) as [app1 w]. simpl in *.
    destruct (String.eqb id "Perspective") eqn:Ep.
    + apply String.eqb_eq in Ep. subst id.
      destruct (IH app1 (if unset first then Some "Perspective" else first)
                  Hrest Hdom) as (app' & ws & -> & Hdom').
      exists app', (w ++ ws)%list. split; [reflexivity | exact Hdom'].
    + assert (Hs : settled (dom (app_cameras app1))).
      { rewrite Hdom. split.
        - intros Hempty.
          assert (id ∈ ({[ id ]} : gset string)) as Hin
            by (apply elem_of_singleton; reflexivity).
          rewrite Hempty in Hin. apply not_elem_of_empty in Hin. exact Hin.
        - intros [_ Hp]. apply elem_of_singleton in Hp.
          apply String.eqb_neq in Ep. congruence. }
      destruct (createCameras_settled rest app1
                  (if unset first then Some id else first) Hrest Hs)
        as (app' & ws & -> & Hdom' & Hs').
      exists app', (w ++ ws)%list. split; [reflexivity|].
      split; [|exact Hs']. rewrite Hdom', Hdom. reflexivity.
Qed.

Lemma setActiveCamera_some (app : MyApp) (cameraName : jsval) :
  ToString cameraName ∈ dom (app_cameras app) ->
  exists app',
    setActiveCamera app cameraName = Some app' /\
    app_cameras app' = app_cameras app /\
    app_activeCameraName app' = cameraName /\
    app_activeCamera app' = app_cameras app' !! ToString cameraName /\
    is_Some (app_activeCamera app').
Proof.
  intros Hin. apply elem_of_dom in Hin as [camera Hc].
  unfold setActiveCamera. rewrite Hc. eexists. split; [reflexivity|].
  simpl. rewrite Hc. repeat split. eauto.
Qed.

Lemma setActiveCamera_none (app : MyApp) (cameraName : jsval) :
  ToString cameraName ∉ dom (app_cameras app) ->
  setActiveCamera app cameraName = None.
Proof.
  intros Hout. apply not_elem_of_dom in Hout.
  unfold setActiveCamera. rewrite Hout. reflexivity.
Qed.

Lemma afterDefaults_head (ids : list string) :
  head ids <> Some "Perspective" -> afterDefaults ids = ids.
Proof.
  destruct ids as [|id rest]; [reflexivity|]. simpl. intros Hhead.
  destruct (String.eqb id "Perspective") eqn:E; [|reflexivity].
  apply String.eqb_eq in E. subst id. contradiction.
Qed.

Lemma firstCamera_elem (ids : list string) (f : string) :
  firstCamera ids = Some f -> f ∈ ids.
Proof.
  induction ids as [|id rest IH]; simpl; [discriminate|].
  destruct (String.eqb id ""); [intros E; right; exact (IH E)|].
  intros E. inversion E; subst. left.
Qed.

(** The last branch of [cameraRendering]: the camera "DefaultCamera"
    is built and made the active one. *)
Lemma defaultCamera_active (app1 : MyApp) :
  dom (app_cameras app1) = {[ "Perspective" ]} \/
  settled (dom (app_cameras app1)) ->
  exists app',
    setActiveCamera (newMyCamera aspect app1 "DefaultCamera" []).1
      (JStr "DefaultCamera") = Some app' /\
    app_activeCameraName app' = JStr "DefaultCamera" /\
    app_activeCamera app' = app_cameras app' !! "DefaultCamera" /\
    is_Some (app_activeCamera app') /\
    (settled (dom (app_cameras app1)) ->
     dom (app_cameras app1) ⊆ dom (app_cameras app')).
Proof.
  intros Hstate.
  assert (Hdom : "DefaultCamera"
                 ∈ dom (app_cameras (newMyCamera aspect app1 "DefaultCamera" []).1)).
  { destruct Hstate as [Hd|Hs].
    - rewrite (newMyCamera_default app1 _ _ Hd). apply elem_of_singleton.
      reflexivity.
    - destruct (newMyCamera_settled app1 "DefaultCamera" [] Hs) as [-> _].
      apply elem_of_union. left. apply elem_of_singleton. reflexivity. }
  destruct (setActiveCamera_some _ (JStr "DefaultCamera") Hdom)
    as (app' & -> & Hc & Hn & Ha & Hsome).
  exists app'. split; [reflexivity|]. split; [exact Hn|].
  split; [exact Ha|]. split; [exact Hsome|].
  intros Hs. rewrite Hc.
  destruct (newMyCamera_settled app1 "DefaultCamera" [] Hs) as [-> _].
  intros x Hx. apply elem_of_union. right. exact Hx.
Qed.

(** X18: started on the table that [MyApp] sets up, which holds the
    camera "Perspective" alone, [cameraRendering] builds a camera for
    every id of the document, none of them declared as null or under
    an inherited name, and, when the first of them is not called
    "Perspective", does not throw:
    every declared camera is in the table afterwards, and the active
    camera is one of the table, namely the one [initial] names when
    that is truthy and names a camera of the table, else the first
    declared camera with a truthy id, else a new camera
    "DefaultCamera". *)
Theorem cameraRendering_selects (cameraData : jsobject) (app0 : MyApp) :
  dom (app_cameras app0) = {[ "Perspective" ]} ->
  noNullCamera cameraData -> ownNames cameraData ->
  head (declaredCameras cameraData) <> Some "Perspective" ->
  let declared := declaredCameras cameraData in
  let chosen :=
    chosenCamera cameraData
      (match declared with [] => ["Perspective"] | _ => declared end) in
  exists app' warnings,
    cameraRendering aspect cameraData app0 = Some (app', warnings) /\
    app_activeCameraName app' = chosen /\
    app_activeCamera app' = app_cameras app' !! ToString chosen /\
    is_Some (app_activeCamera app') /\
    (forall id, id ∈ declared -> id ∈ dom (app_cameras app')).
Proof.
  intros Hd Hnn _ Hhead declared chosen.
  unfold cameraRendering.
  destruct (createCameras_default cameraData app0 None Hnn Hd)
    as (app1 & ws & -> & Hdom).
  rewrite (afterDefaults_head _ Hhead) in Hdom. fold declared in Hdom.
  pose proof (firstAfter_unset None declared eq_refl) as Hfirst.
  pose proof (firstCamera_elem declared) as Helem.
  unfold chosen, chosenCamera. fold declared.
  set (initial := nullish (prop cameraData "initial") JNull).
  set (table := match declared with [] => ["Perspective"] | _ => declared end).
  assert (Htable : forall x, x ∈ dom (app_cameras app1) <-> x ∈ table).
  { intros x. unfold table. destruct declared as [|i l].
    - rewrite Hdom, elem_of_singleton. split; [intros ->; left|].
      intros Hx. apply list_elem_of_singleton in Hx. exact Hx.
    - destruct Hdom as [-> _]. apply elem_of_list_to_set. }
  assert (Hstate : dom (app_cameras app1) = {[ "Perspective" ]} \/
                   settled (dom (app_cameras app1))).
  { destruct declared; [left; exact Hdom | right; apply Hdom]. }
  assert (Hkept : forall app',
             dom (app_cameras app1) ⊆ dom (app_cameras app') ->
             forall id, id ∈ declared -> id ∈ dom (app_cameras app')).
  { intros app' Hsub id Hid. apply Hsub, Htable. unfold table.
    destruct declared; [inversion Hid | exact Hid]. }
  assert (Hcond : bool_decide (is_Some (app_cameras app1 !! ToString initial))
                  = bool_decide (ToString initial ∈ table)).
  { apply bool_decide_ext. rewrite <- Htable. symmetry. apply elem_of_dom. }
  rewrite Hcond.
  destruct (truthy initial && bool_decide (ToString initial ∈ table)) eqn:Ec.
  - apply andb_prop in Ec as [_ Hin]. apply bool_decide_eq_true in Hin.
    destruct (setActiveCamera_some app1 initial (proj2 (Htable _) Hin))
      as (app' & -> & Hc & Hn & Ha & Hs).
    exists app', ws. split; [reflexivity|]. split; [exact Hn|].
    split; [exact Ha|]. split; [exact Hs|].
    apply Hkept. rewrite Hc. reflexivity.
  - destruct (firstCamera declared) as [f|] eqn:Ef.
    + destruct Hfirst as [-> Hf]. simpl.
      apply String.eqb_neq in Hf. rewrite Hf. simpl.
      assert (Hin : f ∈ dom (app_cameras app1)).
      { apply Htable. unfold table. specialize (Helem f eq_refl).
        destruct declared; [inversion Helem | exact Helem]. }
      destruct (setActiveCamera_some app1 (JStr f) Hin)
        as (app' & -> & Hc & Hn & Ha & Hs).
      eexists app', _. split; [reflexivity|]. split; [exact Hn|].
      split; [exact Ha|]. split; [exact Hs|].
      apply Hkept. rewrite Hc. reflexivity.
    + rewrite Hfirst. cbn [negb].
      destruct (defaultCamera_active app1 Hstate)
        as (app' & Hset & Hn & Ha & Hs & Hsub).
      destruct (newMyCamera aspect app1 "DefaultCamera" []) as [app2 w].
      simpl in Hset. rewrite Hset.
      eexists app', _. split; [reflexivity|]. split; [exact Hn|].
      split; [exact Ha|]. split; [exact Hs|].
      intros id Hid. destruct declared as [|i l]; [inversion Hid|].
      apply (Hkept app'); [apply Hsub, Hdom | exact Hid].
Qed.

(** X19: a camera that the document declares first and calls
    "Perspective" is taken for the application's own and dropped from
    the table when the next camera is built.  When the document
    declares further cameras, none of them called "Perspective", and
    [initial] names none of these, [cameraRendering] falls back to the
    first declared id, finds no such camera and throws. *)
Theorem cameraRendering_drops_perspective (cameraData : jsobject)
    (app0 : MyApp) (others : list string) :
  dom (app_cameras app0) = {[ "Perspective" ]} ->
  noNullCamera cameraData -> ownNames cameraData ->
  declaredCameras cameraData = "Perspective" :: others ->
  others <> [] -> "Perspective" ∉ others ->
  (truthy (nullish (prop cameraData "initial") JNull) = false \/
   ToString (nullish (prop cameraData "initial") JNull) ∉ others) ->
  cameraRendering aspect cameraData app0 = None.
Proof.
  intros Hd Hnn _ Hdecl Hne Hnot Hinitial.
  unfold cameraRendering.
  destruct (createCameras_default cameraData app0 None Hnn Hd)
    as (app1 & ws & -> & Hdom).
  rewrite Hdecl in Hdom |- *. simpl in Hdom.
  assert (Hafter : afterDefaults others = others).
  { apply afterDefaults_head. destruct others as [|o l]; [contradiction|].
    simpl. intros E. inversion E; subst. apply Hnot. left. }
  rewrite Hafter in Hdom.
  assert (Htable : dom (app_cameras app1) = list_to_set others).
  { destruct others; [contradiction | apply Hdom]. }
  clear Hdom.
  assert (Hcond : truthy (nullish (prop cameraData "initial") JNull)
                  && bool_decide
                       (is_Some (app_cameras app1
                                   !! ToString (nullish (prop cameraData "initial")
                                                  JNull)))
                  = false).
  { destruct Hinitial as [-> | Hout]; [reflexivity|].
    apply andb_false_intro2. apply bool_decide_eq_false.
    intros Hsome. apply Hout. apply elem_of_dom in Hsome.
    rewrite Htable in Hsome. apply elem_of_list_to_set in Hsome. exact Hsome. }
  rewrite Hcond. simpl.
  rewrite (firstAfter_set "Perspective" others) by discriminate. simpl.
  rewrite setActiveCamera_none; [reflexivity|].
  simpl. rewrite Htable. intros Hin. apply elem_of_list_to_set in Hin.
  apply Hnot. exact Hin.
Qed.

End CameraFacts.

Lemma cameraRendering_selects_witness :
  exists app' warnings,
    @cameraRendering sampleHost 1.5 sampleCameras
      (initDefaultCamera 1.5 newMyApp) = Some (app', warnings) /\
    app_activeCameraName app' = JStr "top" /\
    is_Some (app_cameras app' !! "front").
Proof.
  destruct (@cameraRendering_selects sampleHost 1.5 sampleCameras
              (initDefaultCamera 1.5 newMyApp))
    as (app' & warnings & Hrun & Hname & _ & _ & Hall).
  - simpl. rewrite dom_insert_L, dom_empty_L. apply right_id_L. exact _.
  - intros id v Hin _ ->.
    repeat (apply elem_of_cons in Hin as [Hin|Hin]; [discriminate|]).
    inversion Hin.
  - split; vm_compute; intros Hin;
      repeat (apply elem_of_cons in Hin as [Hin|Hin]; [discriminate|]);
      inversion Hin.
  - discriminate.
  - exists app', warnings. split; [exact Hrun|]. split; [exact Hname|].
    apply elem_of_dom, Hall. left.
Defined.

Lemma cameraRendering_drops_perspective_witness :
  @cameraRendering sampleHost 1.5 sampleShadowed
    (initDefaultCamera 1.5 newMyApp) = None.
Proof.
  apply (@cameraRendering_drops_perspective sampleHost 1.5 sampleShadowed
           (initDefaultCamera 1.5 newMyApp) ["top"]).
  - simpl. rewrite dom_insert_L, dom_empty_L. apply right_id_L. exact _.
  - intros id v Hin _ ->.
    repeat (apply elem_of_cons in Hin as [Hin|Hin]; [discriminate|]).
    inversion Hin.
  - split; vm_compute; intros Hin;
      repeat (apply elem_of_cons in Hin as [Hin|Hin]; [discriminate|]);
      inversion Hin.
  - reflexivity.
  - discriminate.
  - intros Hin. apply list_elem_of_singleton in Hin. discriminate.
  - left. reflexivity.
Defined.

(** ** Textures *)

Section TextureFacts.
Context `{StringOps}.

Lemma validateString_truthy (value : jsval) :
  truthy (validateString value JNull) = true ->
  validateString value JNull = value /\
  exists s, value = JStr s /\ trim s <> "" /\ s <> "".
Proof.
  unfold validateString. destruct value as [| | | |s|]; try discriminate.
  destruct (String.eqb (trim s) "") eqn:Et; [discriminate|].
  cbn [negb truthy]. intros Hs. split; [reflexivity|].
  exists s. split; [reflexivity|]. split; [apply String.eqb_neq, Et|].
  intros ->. discriminate.
Qed.

Lemma collectMipmaps_run (textureData : jsobject) (levels : list nat) :
  let paths :=
    map (fun i => validateString (prop textureData ("mipmap" ++ pretty i)) JNull)
      levels in
  let mipmaps := collectMipmaps textureData levels in
  mipmaps = take (length mipmaps) paths /\
  Forall (fun p => truthy p = true) mipmaps /\
  (forall p, paths !! length mipmaps = Some p -> truthy p = false).
Proof.
  cbv zeta. induction levels as [|i rest IH]; simpl.
  - split; [reflexivity|]. split; [constructor|]. intros p Hp. discriminate.
  - destruct (truthy (validateString (prop textureData ("mipmap" ++ pretty i))
                        JNull)) eqn:Et; simpl.
    + destruct IH as (Htake & Hall & Hstop).
      split; [f_equal; exact Htake|]. split; [|exact Hstop].
      constructor; [exact Et | exact Hall].
    + split; [reflexivity|]. split; [constructor|].
      intros p Hp. inversion Hp; subst. exact Et.
Qed.

(** X20: the mipmaps of a texture are the levels [mipmap0], [mipmap1],
    ... up to [mipmap7] of its data as far as they are strings that are
    not blank: never more than eight, each one such a string, and no
    level beyond the first one that is missing or invalid, whatever the
    data declares there. *)
Theorem newMyTextures_mipmaps (textureId : string) (textureData : jsobject) :
  let level i := prop textureData ("mipmap" ++ pretty i) in
  let mipmaps := mt_mipmaps (newMyTextures textureId textureData) in
  length mipmaps <= 8 /\
  (forall i, i < length mipmaps ->
     mipmaps !! i = Some (level i) /\
     exists s, level i = JStr s /\ trim s <> "" /\ s <> "") /\
  (length mipmaps < 8 ->
   truthy (validateString (level (length mipmaps)) JNull) = false).
Proof.
  cbv zeta. unfold newMyTextures. cbn [mt_mipmaps].
  destruct (collectMipmaps_run textureData (seq 0 8)) as (Htake & Hall & Hstop).
  set (mipmaps := collectMipmaps textureData (seq 0 8)) in *.
  set (paths := map _ (seq 0 8)) in *.
  assert (Hlen : length mipmaps <= 8).
  { rewrite Htake, length_take. unfold paths.
    rewrite length_map, length_seq. lia. }
  assert (Hpath : forall i, i < 8 ->
            paths !! i
            = Some (validateString (prop textureData ("mipmap" ++ pretty i))
                      JNull)).
  { intros i Hi. unfold paths. rewrite list_lookup_fmap.
    rewrite lookup_seq_lt by exact Hi. reflexivity. }
  split; [exact Hlen|]. split.
  - intros i Hi.
    assert (Hm : mipmaps !! i
                 = Some (validateString
                           (prop textureData ("mipmap" ++ pretty i)) JNull)).
    { rewrite Htake, lookup_take_lt by exact Hi. apply Hpath. lia. }
    assert (Ht : truthy (validateString
                           (prop textureData ("mipmap" ++ pretty i)) JNull)
                 = true).
    { rewrite Forall_lookup in Hall. exact (Hall i _ Hm). }
    destruct (validateString_truthy _ Ht) as (Hsame & s & Hs & Htrim & Hne).
    split; [rewrite Hm, Hsame; reflexivity|].
    exists s. split; [exact Hs|]. split; assumption.
  - intros Hlt. apply Hstop. apply Hpath. exact Hlt.
Qed.

(** The loader of a texture by its data, when it has a file path. *)
Lemma loadTextureAsync_filepath (t : MyTextures) :
  truthy (mt_filepath t) = true ->
  loadTextureAsync t
  = (if mt_isVideo t then loadVideoTexture (mt_filepath t)
     else if (0 <? length (mt_mipmaps t))%nat
          then loadCustomMipmaps (mt_mipmaps t) (mt_filepath t)
          else loadSingleTexture (mt_filepath t), []).
Proof.
  intros Hf. unfold loadTextureAsync. rewrite Hf.
  destruct (mt_isVideo t); [reflexivity|]. cbn [andb].
  destruct (0 <? length (mt_mipmaps t))%nat; reflexivity.
Qed.

Lemma scheduleTextures_loads (texturesData : jsobject)
    (textures : gset string) :
  forall loads warnings,
    scheduleTextures texturesData textures = Some (loads, warnings) ->
    (forall textureId loader,
        (textureId, loader) ∈ loads ->
        exists textureData fields path,
          (textureId, textureData) ∈ texturesData /\
          fieldsOf textureData = Some fields /\
          (textureId ∉ textures) /\ (textureId ∉ inheritedNames) /\
          trim textureId <> "" /\
          prop fields "filepath" = JStr path /\ trim path <> "" /\
          loader
          = (let t := newMyTextures textureId fields in
             if mt_isVideo t then loadVideoTexture (JStr path)
             else if (0 <? length (mt_mipmaps t))%nat
                  then loadCustomMipmaps (mt_mipmaps t) (JStr path)
                  else loadSingleTexture (JStr path)) /\
          loader <> notLoaded) /\
    (forall textureId fields path,
        (textureId, JObj fields) ∈ texturesData ->
        textureId ∉ textures -> textureId ∉ inheritedNames ->
        trim textureId <> "" -> textureId <> "" ->
        prop fields "filepath" = JStr path -> trim path <> "" -> path <> "" ->
        exists loader, (textureId, loader) ∈ loads).
Proof.
  induction texturesData as [|[id data] rest IH]; intros loads warnings;
    cbn [scheduleTextures].
  - intros E. inversion E; subst. split.
    + intros ? ? Hin. inversion Hin.
    + intros ? ? ? Hin. inversion Hin.
  - destruct (String.eqb id "" || tableHas textures id) eqn:Eskip.
    + intros E. destruct (IH _ _ E) as [Hfrom Hto]. split.
      * intros tid loader Hin.
        destruct (Hfrom tid loader Hin) as (d & f & p & Hd & Hrest).
        exists d, f, p. split; [right; exact Hd | exact Hrest].
      * intros tid f p Hin Hout Hown Htid Hne Hp Htrim Hpne.
        apply elem_of_cons in Hin as [Hin|Hin]; [|eauto].
        inversion Hin; subst. exfalso.
        apply orb_prop in Eskip as [Ee|Et].
        -- apply String.eqb_eq in Ee. contradiction.
        -- unfold tableHas in Et. apply orb_prop in Et as [Et|Et].
           ++ apply bool_decide_eq_true in Et. contradiction.
           ++ apply Hown. unfold includes in Et.
              apply existsb_exists in Et as (x & Hx & Hxe).
              apply String.eqb_eq in Hxe. subst x.
              apply list_elem_of_In. exact Hx.
    + apply orb_false_elim in Eskip as [Ee Et]. unfold tableHas in Et.
      apply orb_false_elim in Et as [Et Ei].
      apply bool_decide_eq_false in Et.
      assert (Hown : id ∉ inheritedNames).
      { intros Hin. apply list_elem_of_In in Hin.
        assert (includes inheritedNames id = true) as Hc; [|congruence].
        unfold includes. apply existsb_exists. exists id.
        split; [exact Hin | apply String.eqb_refl]. }
      destruct (fieldsOf data) as [fields|] eqn:Ef; [|discriminate].
      destruct (scheduleTextures rest textures) as [[loads' ws']|] eqn:Er;
        [|destruct (if truthy _ && truthy _ then _ else _); discriminate].
      destruct (IH _ _ eq_refl) as [Hfrom Hto].
      destruct (truthy (mt_textureId (newMyTextures id fields))
                && truthy (mt_filepath (newMyTextures id fields))) eqn:Eok.
      * apply andb_prop in Eok as [Hid Hpath].
        rewrite (loadTextureAsync_filepath _ Hpath).
        intros E. inversion E; subst. clear E.
        cbn [mt_textureId mt_filepath newMyTextures] in Hid, Hpath.
        destruct (validateString_truthy _ Hid) as (_ & s & Hs & Htrim & _).
        inversion Hs; subst s.
        destruct (validateString_truthy _ Hpath)
          as (Hsame & path & Hp & Hptrim & _).
        split.
        -- intros tid loader Hin. apply elem_of_cons in Hin as [Hin|Hin].
           ++ inversion Hin; subst. exists data, fields, path.
              split; [left|]. split; [exact Ef|]. split; [exact Et|].
              split; [exact Hown|]. split; [exact Htrim|].
              split; [exact Hp|]. split; [exact Hptrim|].
              cbv zeta. cbn [mt_filepath newMyTextures mt_isVideo mt_mipmaps].
              rewrite Hsame, Hp. split; [reflexivity|].
              destruct (parseBoolean _ _); [discriminate|].
              destruct (0 <? _)%nat; discriminate.
           ++ destruct (Hfrom tid loader Hin) as (d & f & p & Hd & Hrest).
              exists d, f, p. split; [right; exact Hd | exact Hrest].
        -- intros tid f p Hin Hout Hown' Htid Hne Hp' Htrim' Hpne.
           apply elem_of_cons in Hin as [Hin|Hin].
           ++ inversion Hin; subst. eexists. left.
           ++ destruct (Hto tid f p Hin Hout Hown' Htid Hne Hp' Htrim' Hpne)
                as [loader Hl].
              exists loader. right. exact Hl.
      * intros E. inversion E; subst. clear E. split.
        -- intros tid loader Hin.
           destruct (Hfrom tid loader Hin) as (d & f & p & Hd & Hrest).
           exists d, f, p. split; [right; exact Hd | exact Hrest].
        -- intros tid f p Hin Hout Hown' Htid Hne Hp' Htrim' Hpne.
           apply elem_of_cons in Hin as [Hin|Hin]; [|eauto].
           inversion Hin; subst. exfalso.
           simpl in Ef. inversion Ef; subst fields.
           cbn [mt_textureId mt_filepath newMyTextures] in Eok.
           unfold validateString in Eok. rewrite Hp' in Eok.
           apply String.eqb_neq in Htid, Htrim', Hne, Hpne.
           rewrite Htid, Htrim' in Eok. cbn [negb truthy] in Eok.
           rewrite Hne, Hpne in Eok. discriminate.
Qed.

Lemma scheduleTextures_none (texturesData : jsobject)
    (textures : gset string) :
  scheduleTextures texturesData textures = None ->
  exists textureId,
    (textureId, JNull) ∈ texturesData /\ textureId <> "" /\
    tableHas textures textureId = false.
Proof.
  induction texturesData as [|[id data] rest IH]; cbn [scheduleTextures];
    [discriminate|].
  assert (Hrest : scheduleTextures rest textures = None ->
                  exists textureId,
                    (textureId, JNull) ∈ (id, data) :: rest /\
                    textureId <> "" /\ tableHas textures textureId = false).
  { intros E. destruct (IH E) as (tid & Hin & Hne).
    exists tid. split; [right; exact Hin | exact Hne]. }
  destruct (String.eqb id "" || tableHas textures id) eqn:Eskip;
    [exact Hrest|].
  apply orb_false_elim in Eskip as [Ee Et].
  destruct (fieldsOf data) as [fields|] eqn:Ef.
  - destruct (scheduleTextures rest textures) as [[loads ws]|];
      [|intros _; apply Hrest; reflexivity].
    destruct (if truthy _ && truthy _ then _ else _); discriminate.
  - intros _. exists id. destruct data; try discriminate.
    split; [left|]. split; [apply String.eqb_neq, Ee | exact Et].
Qed.

(** X21: [texturesRendering] starts a load for exactly the textures
    that it has not in its table yet, whose id is no name the table
    inherits, and whose id and file path are strings that are not
    blank.  The load is that of a video when [isVideo] says so, else
    that of the custom mipmaps when there are any, else that of the
    single file; the branch of [loadTextureAsync] that loads nothing is
    never reached, and a texture that declares mipmaps without a file
    path is not loaded at all.  The call throws only for a texture
    declared as [null]. *)
Theorem texturesRendering_loads (texturesData : jsobject)
    (textures : gset string) :
  match texturesRendering texturesData textures with
  | Some (loads, _) =>
      (forall textureId loader,
          (textureId, loader) ∈ loads ->
          exists textureData fields path,
            (textureId, textureData) ∈ texturesData /\
            fieldsOf textureData = Some fields /\
            (textureId ∉ textures) /\ (textureId ∉ inheritedNames) /\
            trim textureId <> "" /\
            prop fields "filepath" = JStr path /\ trim path <> "" /\
            loader
            = (let t := newMyTextures textureId fields in
               if mt_isVideo t then loadVideoTexture (JStr path)
               else if (0 <? length (mt_mipmaps t))%nat
                    then loadCustomMipmaps (mt_mipmaps t) (JStr path)
                    else loadSingleTexture (JStr path)) /\
            loader <> notLoaded) /\
      (forall textureId fields path,
          (textureId, JObj fields) ∈ texturesData ->
          textureId ∉ textures -> textureId ∉ inheritedNames ->
          trim textureId <> "" -> textureId <> "" ->
          prop fields "filepath" = JStr path ->
          trim path <> "" -> path <> "" ->
          exists loader, (textureId, loader) ∈ loads)
  | None =>
      exists textureId,
        (textureId, JNull) ∈ texturesData /\ textureId <> "" /\
        tableHas textures textureId = false
  end.
Proof.
  unfold texturesRendering. destruct texturesData as [|e rest].
  - cbn [length Nat.eqb]. split.
    + intros ? ? Hin. inversion Hin.
    + intros ? ? ? Hin. inversion Hin.
  - cbn [length Nat.eqb].
    destruct (scheduleTextures (e :: rest) textures) as [[loads ws]|] eqn:E.
    + exact (scheduleTextures_loads _ _ _ _ E).
    + exact (scheduleTextures_none _ _ E).
Qed.

End TextureFacts.

Example texturesRendering_sample :
  fst <$> @texturesRendering sampleStringOps sampleTextures {[ "screen2" ]}
  = Some [("wood",
           loadCustomMipmaps [JStr "wood0.jpg"; JStr "wood1.jpg"]
             (JStr "wood.jpg"));
          ("screen", loadVideoTexture (JStr "clip.mp4"))].
Proof. vm_compute. reflexivity. Qed.

(** ** The labels of the interface *)

Section Labels.

(** X22: [truncateString] returns a label of at most [maxLength]
    code units as it is.  A longer one is cut to its first
    [maxLength - 3] code units followed by three dots, which makes
    [maxLength] code units when [maxLength] is 3 or more; below that
    the result is the three dots alone, longer than [maxLength] and
    possibly longer than the label itself. *)
Theorem truncateString_length (str : codeUnits) (maxLength : Z) :
  let result := truncateString str maxLength in
  let len := Z.of_nat (length str) in
  ((len <= maxLength)%Z -> result = str) /\
  ((maxLength < len)%Z ->
   Z.of_nat (length result) = Z.max 3 maxLength /\
   exists kept,
     result = (kept ++ [46; 46; 46]%N)%list /\ kept `prefix_of` str /\
     Z.of_nat (length kept) = Z.max 0 (maxLength - 3)).
Proof.
  cbv zeta. unfold truncateString, ellipsis. split.
  - intros Hle. destruct (Z.ltb_spec maxLength (Z.of_nat (length str)));
      [lia | reflexivity].
  - intros Hlt. destruct (Z.ltb_spec maxLength (Z.of_nat (length str)));
      [|lia].
    assert (Hkept : Z.of_nat (length (take (Z.to_nat (maxLength - 3)) str))
                    = Z.max 0 (maxLength - 3)).
    { rewrite length_take. lia. }
    split.
    + rewrite length_app. simpl length. lia.
    + eexists. split; [reflexivity|]. split; [|exact Hkept].
      exists (drop (Z.to_nat (maxLength - 3)) str).
      symmetry. apply take_drop.
Qed.

End Labels.
